(** * wgo: a shallow embedding of the file-watch supervisor

    The development follows the file order of the repository
    (START_HERE.md): the platform quoters of [util_unix.go] and
    [util_windows.go], then the pattern compiler, the path matcher, the
    argument parser and the event loop of [wgo_cmd.go].

    Go strings are byte sequences, so they are modelled by [string] (a list
    of 8-bit [ascii]); runes and bytes are integers in [Z].  The non-Windows
    build is the one modelled wherever the source depends on the platform
    ([filepath.Separator] is the forward slash and [filepath.ToSlash] is the
    identity); the Windows quoter lives in its own module. *)

From Stdlib Require Import ZArith List Bool Ascii String Lia Arith DecimalString.
Import ListNotations.

Open Scope string_scope.
Open Scope Z_scope.

(** ** Go string primitives *)

Module GoString.

  (** The byte value of a character. *)
Definition byte (c : ascii) : Z := Z.of_N (N_of_ascii c).

  (** [byte(x)] conversion: truncation to eight bits. *)
Definition to_byte (x : Z) : ascii := ascii_of_N (Z.to_N (x mod 256)).

  (** [len(s)]. *)
Definition len (s : string) : nat := String.length s.

  (** [s[n:]]. *)
Fixpoint drop (n : nat) (s : string) : string :=
    match n, s with
    | O, _ => s
    | S n', String _ s' => drop n' s'
    | S _, EmptyString => EmptyString
    end.

  (** [s[:n]]. *)
Fixpoint take (n : nat) (s : string) : string :=
    match n, s with
    | O, _ => EmptyString
    | S n', String c s' => String c (take n' s')
    | S _, EmptyString => EmptyString
    end.

  (** [strings.HasPrefix]. *)
Definition HasPrefix (s p : string) : bool := String.prefix p s.

  (** [strings.HasSuffix]. *)
Definition HasSuffix (s suffix : string) : bool :=
    (len suffix <=? len s)%nat && String.eqb (drop (len s - len suffix) s) suffix.

  (** [strings.TrimPrefix]. *)
Definition TrimPrefix (s p : string) : string :=
    if HasPrefix s p then drop (len p) s else s.

  (** [strings.IndexByte]: the first index of the byte, if any. *)
Fixpoint IndexByte (s : string) (c : ascii) : option nat :=
    match s with
    | EmptyString => None
    | String d s' =>
        if Ascii.eqb d c then Some O
        else match IndexByte s' c with Some i => Some (S i) | None => None end
    end.

  (** Membership of a byte. *)
Fixpoint mem (c : ascii) (s : string) : bool :=
    match s with
    | EmptyString => false
    | String d s' => Ascii.eqb d c || mem c s'
    end.

  (** [strings.ContainsRune(s, r)] for the ASCII literals this program
      searches in ([specialChars] and the like): a rune is found exactly when
      it is the code of one of the bytes of [s]. *)
Fixpoint ContainsRune (s : string) (r : Z) : bool :=
    match s with
    | EmptyString => false
    | String d s' => (byte d =? r) || ContainsRune s' r
    end.

  (** [strings.ContainsAny(s, chars)] for an ASCII [chars]. *)
Fixpoint ContainsAny (s chars : string) : bool :=
    match s with
    | EmptyString => false
    | String d s' => mem d chars || ContainsAny s' chars
    end.

  (** [strings.Count(s, sep)] for a one-byte separator. *)
Fixpoint CountByte (s : string) (c : ascii) : nat :=
    match s with
    | EmptyString => O
    | String d s' => ((if Ascii.eqb d c then 1 else 0) + CountByte s' c)%nat
    end.

  (** [strings.ReplaceAll(s, old, new)] for a one-byte [old]. *)
Fixpoint ReplaceAllByte (s : string) (old : ascii) (new : string) : string :=
    match s with
    | EmptyString => EmptyString
    | String d s' =>
        (if Ascii.eqb d old then new else String d EmptyString)
          ++ ReplaceAllByte s' old new
    end.

  (** The last byte of a string. *)
Fixpoint last_byte (s : string) : option ascii :=
    match s with
    | EmptyString => None
    | String c EmptyString => Some c
    | String _ s' => last_byte s'
    end.

  (** Every byte is in the ASCII range. *)
Fixpoint is_ascii (s : string) : bool :=
    match s with
    | EmptyString => true
    | String c s' => (byte c <? 128) && is_ascii s'
    end.

  (** Every byte is above the ASCII range. *)
Fixpoint all_high (s : string) : bool :=
    match s with
    | EmptyString => true
    | String c s' => (128 <=? byte c) && all_high s'
    end.

  (** The double quote character, which a literal cannot hold. *)
Definition dquote : ascii := ascii_of_nat 34.
Definition tab : ascii := ascii_of_nat 9.
Definition newline : ascii := ascii_of_nat 10.

End GoString.
Import GoString.

(** ** unicode/utf8

    The decoder and encoder of Go's [unicode/utf8] package, which the quoter
    and the pattern compiler call.  The package is not part of the
    repository; the model follows its algorithm (the [first] table and the
    accept ranges) on bytes. *)

Module utf8.

Definition RuneError : Z := 65533.   (* U+FFFD *)
Definition RuneSelf : Z := 128.
Definition MaxRune : Z := 1114111.   (* U+10FFFF *)
Definition UTFMax : nat := 4.

Definition surrogateMin : Z := 55296.  (* 0xD800 *)
Definition surrogateMax : Z := 57343.  (* 0xDFFF *)

Definition rune1Max : Z := 127.
Definition rune2Max : Z := 2047.
Definition rune3Max : Z := 65535.

Definition t2 : Z := 192.  (* 1100 0000 *)
Definition t3 : Z := 224.  (* 1110 0000 *)
Definition t4 : Z := 240.  (* 1111 0000 *)
Definition tx : Z := 128.  (* 1000 0000 *)

Definition maskx : Z := 63.  (* 0011 1111 *)
Definition mask2 : Z := 31.  (* 0001 1111 *)
Definition mask3 : Z := 15.  (* 0000 1111 *)
Definition mask4 : Z := 7.   (* 0000 0111 *)

Definition locb : Z := 128.  (* 1000 0000 *)
Definition hicb : Z := 191.  (* 1011 1111 *)

  (** What the [first] table says of a leading byte. *)
Inductive lead : Type :=
  | lead_as                        (* ASCII: size 1 *)
  | lead_xx                        (* invalid: size 1 *)
  | lead_multi (sz : nat) (lo hi : Z).  (* size and accept range of byte 2 *)

Definition first (s0 : Z) : lead :=
    if s0 <? 128 then lead_as
    else if s0 <? 194 then lead_xx                      (* 0x80-0xC1 *)
    else if s0 <? 224 then lead_multi 2 locb hicb       (* 0xC2-0xDF *)
    else if s0 =? 224 then lead_multi 3 160 hicb        (* 0xE0 *)
    else if s0 <? 237 then lead_multi 3 locb hicb       (* 0xE1-0xEC *)
    else if s0 =? 237 then lead_multi 3 locb 159        (* 0xED *)
    else if s0 <? 240 then lead_multi 3 locb hicb       (* 0xEE-0xEF *)
    else if s0 =? 240 then lead_multi 4 144 hicb        (* 0xF0 *)
    else if s0 <? 244 then lead_multi 4 locb hicb       (* 0xF1-0xF3 *)
    else if s0 =? 244 then lead_multi 4 locb 143        (* 0xF4 *)
    else lead_xx.                                       (* 0xF5-0xFF *)

Definition continuation (b : Z) : bool := (locb <=? b) && (b <=? hicb).

  (** [utf8.DecodeRuneInString]: the first rune of [s] and its width in
      bytes; [(RuneError, 0)] on the empty string and [(RuneError, 1)] on an
      invalid encoding. *)
Definition DecodeRuneInString (s : string) : Z * nat :=
    match s with
    | EmptyString => (RuneError, O)
    | String c0 s1 =>
        let s0 := byte c0 in
        match first s0 with
        | lead_as => (s0, 1%nat)
        | lead_xx => (RuneError, 1%nat)
        | lead_multi sz lo hi =>
            match s1 with
            | EmptyString => (RuneError, 1%nat)          (* n < sz *)
            | String c1 s2 =>
                let b1 := byte c1 in
                if (len s <? sz)%nat then (RuneError, 1%nat)
                else if (b1 <? lo) || (hi <? b1) then (RuneError, 1%nat)
                else if (sz <=? 2)%nat then
                  (Z.lor (Z.shiftl (Z.land s0 mask2) 6) (Z.land b1 maskx), 2%nat)
                else
                  match s2 with
                  | EmptyString => (RuneError, 1%nat)
                  | String c2 s3 =>
                      let b2 := byte c2 in
                      if negb (continuation b2) then (RuneError, 1%nat)
                      else if (sz <=? 3)%nat then
                        (Z.lor (Z.lor (Z.shiftl (Z.land s0 mask3) 12)
                                      (Z.shiftl (Z.land b1 maskx) 6))
                               (Z.land b2 maskx), 3%nat)
                      else
                        match s3 with
                        | EmptyString => (RuneError, 1%nat)
                        | String c3 _ =>
                            let b3 := byte c3 in
                            if negb (continuation b3) then (RuneError, 1%nat)
                            else
                              (Z.lor (Z.lor (Z.lor
                                 (Z.shiftl (Z.land s0 mask4) 18)
                                 (Z.shiftl (Z.land b1 maskx) 12))
                                 (Z.shiftl (Z.land b2 maskx) 6))
                                 (Z.land b3 maskx), 4%nat)
                        end
                  end
            end
        end
    end.

  (** [utf8.RuneStart]: the byte is not a continuation byte. *)
Definition RuneStart (b : Z) : bool := negb (Z.land b 192 =? 128).

  (** The backwards scan of [DecodeLastRuneInString]: from [start], step
      down to [lim] until a rune start is found. *)
Fixpoint scan_back (fuel : nat) (s : string) (start lim : Z) : Z :=
    match fuel with
    | O => start
    | S fuel' =>
        if start <? lim then start
        else
          match String.get (Z.to_nat start) s with
          | Some c => if RuneStart (byte c) then start
                      else scan_back fuel' s (start - 1) lim
          | None => start
          end
    end.

  (** [utf8.DecodeLastRuneInString]: the last rune of [s] and its width. *)
Definition DecodeLastRuneInString (s : string) : Z * nat :=
    match last_byte s with
    | None => (RuneError, O)
    | Some c =>
        let end_ := Z.of_nat (len s) in
        let r := byte c in
        if r <? RuneSelf then (r, 1%nat)
        else
          let lim := Z.max 0 (end_ - Z.of_nat UTFMax) in
          let start := scan_back UTFMax s (end_ - 2) lim in
          let start := Z.max 0 start in
          let '(r, size) := DecodeRuneInString (drop (Z.to_nat start) s) in
          if start + Z.of_nat size =? end_ then (r, size)
          else (RuneError, 1%nat)
    end.

  (** [utf8.AppendRune] on an empty slice: the encoding of a rune; a rune
      out of range or a surrogate half is written as U+FFFD. *)
Definition EncodeRune (r : Z) : string :=
    let b (x : Z) := String (to_byte x) EmptyString in
    if (0 <=? r) && (r <=? rune1Max) then b r
    else if (0 <=? r) && (r <=? rune2Max) then
      b (Z.lor t2 (Z.shiftr r 6)) ++ b (Z.lor tx (Z.land r maskx))
    else if (0 <=? r) && ((r <? surrogateMin) || ((surrogateMax <? r) && (r <=? rune3Max))) then
      b (Z.lor t3 (Z.shiftr r 12))
        ++ b (Z.lor tx (Z.land (Z.shiftr r 6) maskx))
        ++ b (Z.lor tx (Z.land r maskx))
    else if (rune3Max <? r) && (r <=? MaxRune) then
      b (Z.lor t4 (Z.shiftr r 18))
        ++ b (Z.lor tx (Z.land (Z.shiftr r 12) maskx))
        ++ b (Z.lor tx (Z.land (Z.shiftr r 6) maskx))
        ++ b (Z.lor tx (Z.land r maskx))
    else
      String (ascii_of_nat 239) (String (ascii_of_nat 191)
        (String (ascii_of_nat 189) EmptyString)).

  (** A string is valid UTF-8 when decoding it never reports an invalid
      encoding, that is, never returns [(RuneError, 1)]. *)
Fixpoint valid_from (fuel : nat) (s : string) : bool :=
    match fuel with
    | O => match s with EmptyString => true | _ => false end
    | S fuel' =>
        match s with
        | EmptyString => true
        | _ =>
            let '(r, w) := DecodeRuneInString s in
            negb ((r =? RuneError) && (w =? 1)%nat) && valid_from fuel' (drop w s)
        end
    end.

Definition ValidString (s : string) : bool := valid_from (len s) s.

End utf8.

(** ** util_unix.go: the POSIX quoter *)

Module Unix.

  (** The backslash, both quotes, the backquote and [${[|&;<>()*?!]. *)
Definition specialChars : string :=
    "\'" ++ String dquote "`${[|&;<>()*?!".
Definition extraSpecialChars : string :=
    String " " (String tab (String newline EmptyString)).
Definition prefixChars : string := "~".

  (** How the escaping loop of [quote] ends: at the end of the word, with
      the buffer and the unwritten tail [prev]; or at the jump to the
      [quote] label, with the buffer as it stands. *)
Inductive scan_result : Type :=
  | ScanDone (buf prev : string)
  | GotoQuote (buf : string).

  (** The first loop of [quote]: [for len(cur) > 0].  Every round consumes
      at least one byte of [cur], so [len cur] rounds of fuel are enough. *)
Fixpoint quote_scan (fuel : nat) (cur prev : string) (atStart : bool)
           (buf : string) : scan_result :=
    match fuel with
    | O => ScanDone buf prev
    | S fuel' =>
        if (0 <? len cur)%nat then
          let '(c, l) := utf8.DecodeRuneInString cur in
          let cur := drop l cur in
          if ContainsRune specialChars c
             || (atStart && ContainsRune prefixChars c) then
            (* copy the non-special chars up to this point *)
            let buf :=
              if (len cur <? len prev)%nat
              then buf ++ take (len prev - len cur - l) prev
              else buf in
            let buf := buf ++ "\" in
            let buf := buf ++ utf8.EncodeRune c in
            quote_scan fuel' cur cur false buf
          else if ContainsRune extraSpecialChars c then
            GotoQuote buf
          else
            quote_scan fuel' cur prev false buf
        else ScanDone buf prev
    end.

  (** The loop under the [quote] label: [for len(word) > 0], left by
      [break] when no single quote remains.  It returns the buffer, the
      rest of the word and [inQuote]. *)
Fixpoint quote_mode (fuel : nat) (word : string) (inQuote : bool)
           (buf : string) : string * string * bool :=
    match fuel with
    | O => (buf, word, inQuote)
    | S fuel' =>
        if (0 <? len word)%nat then
          match IndexByte word "'" with
          | None => (buf, word, inQuote)
          | Some i =>
              let '(buf, inQuote) :=
                if (0 <? i)%nat then
                  let '(buf, inQuote) :=
                    if negb inQuote then (buf ++ "'", true) else (buf, inQuote) in
                  (buf ++ take i word, inQuote)
                else (buf, inQuote) in
              let word := drop (i + 1) word in
              let '(buf, inQuote) :=
                if inQuote then (buf ++ "'", false) else (buf, inQuote) in
              let buf := buf ++ "\'" in
              quote_mode fuel' word inQuote buf
          end
        else (buf, word, inQuote)
    end.

  (** [quote(word, buf)]: the buffer after the quoted word is written. *)
Definition quote (word : string) (buf : string) : string :=
    let origLen := len buf in
    if (len word =? 0)%nat then buf ++ "''"
    else
      match quote_scan (len word) word word true buf with
      | ScanDone buf prev =>
          if (0 <? len prev)%nat then buf ++ prev else buf
      | GotoQuote buf =>
          let buf := take origLen buf in      (* buf.Truncate(origLen) *)
          let '(buf, word, inQuote) := quote_mode (len word) word false buf in
          if (0 <? len word)%nat then
            let buf := if negb inQuote then buf ++ "'" else buf in
            let buf := buf ++ word in
            buf ++ "'"
          else buf
      end.

  (** The escaping loop of [quote] read byte by byte: the escaped text, or
      [None] when a blank sends the loop to quote mode.  The lemmas on
      [quote_scan] relate the two. *)
Fixpoint scan_bytes (atStart : bool) (s : string) : option string :=
    match s with
    | EmptyString => Some EmptyString
    | String c s' =>
        if mem c specialChars || (atStart && mem c prefixChars) then
          option_map (fun out => String "\" (String c out)) (scan_bytes false s')
        else if mem c extraSpecialChars then None
        else option_map (String c) (scan_bytes false s')
    end.

  (** The loop of [joinArgs], with the index [i] of the argument. *)
Fixpoint joinArgs_loop (i : nat) (args : list string) (buf : string) : string :=
    match args with
    | [] => buf
    | arg :: args' =>
        let buf := if negb (i =? 0)%nat then buf ++ " " else buf in
        joinArgs_loop (S i) args' (quote arg buf)
    end.

Definition joinArgs (args : list string) : string :=
    joinArgs_loop 0 args EmptyString.

End Unix.

(** ** util_windows.go: the PowerShell quoter *)

Module Windows.

  (** The characters that make [joinArgs] quote an argument: the space, the
      quote, the backquote and [$(){}<>|&;*]. *)
Definition quoteChars : string := " '`$(){}<>|&;*".

Fixpoint joinArgs_loop (i : nat) (args : list string) (b : string) : string :=
    match args with
    | [] => b
    | arg :: args' =>
        if (i =? 0)%nat then joinArgs_loop (S i) args' (b ++ arg)
        else
          let b := b ++ " " in
          if String.eqb arg EmptyString then joinArgs_loop (S i) args' (b ++ "''")
          else if negb (ContainsAny arg quoteChars) then
            joinArgs_loop (S i) args' (b ++ arg)
          else
            joinArgs_loop (S i) args'
              (b ++ ("'" ++ ReplaceAllByte arg "'" "''" ++ "'"))
    end.

Definition joinArgs (args : list string) : string :=
    joinArgs_loop 0 args EmptyString.

End Windows.

(** ** path/filepath (non-Windows build)

    The lexical path functions of Go's [path/filepath] that the matcher and
    the parser call.  [Separator] is the forward slash, so [ToSlash] returns
    its argument. *)

Module filepath.

Definition Separator : ascii := "/".
Definition IsPathSeparator (c : ascii) : bool := Ascii.eqb c Separator.

Definition ToSlash (path : string) : string := path.

  (** The [..] case of [Clean] when it can backtrack: drop the last
      element of [out], down to [dotdot]. *)
Fixpoint backtrack (fuel : nat) (out : string) (w dotdot : nat) : nat :=
    match fuel with
    | O => w
    | S fuel' =>
        if (dotdot <? w)%nat then
          match String.get w out with
          | Some c => if IsPathSeparator c then w else backtrack fuel' out (w - 1) dotdot
          | None => w
          end
        else w
    end.

  (** Copy a path element: the bytes of [path] up to the next separator. *)
Fixpoint element (path : string) : string * string :=
    match path with
    | EmptyString => (EmptyString, EmptyString)
    | String c rest =>
        if IsPathSeparator c then (EmptyString, path)
        else let '(e, rest') := element rest in (String c e, rest')
    end.

Definition at_end_or_sep (s : string) : bool :=
    match s with
    | EmptyString => true
    | String c _ => IsPathSeparator c
    end.

  (** The main loop of [Clean] over the unread part of the path. *)
Fixpoint Clean_loop (fuel : nat) (rooted : bool) (path out : string)
           (dotdot : nat) : string :=
    match fuel with
    | O => out
    | S fuel' =>
        match path with
        | EmptyString => out
        | String c rest =>
            if IsPathSeparator c then
              (* empty path element *)
              Clean_loop fuel' rooted rest out dotdot
            else if Ascii.eqb c "." && at_end_or_sep rest then
              (* . element *)
              Clean_loop fuel' rooted rest out dotdot
            else if Ascii.eqb c "." && HasPrefix rest "." && at_end_or_sep (drop 1 rest) then
              (* .. element: remove to last separator *)
              let rest := drop 1 rest in
              if (dotdot <? len out)%nat then
                let w := backtrack (len out) out (len out - 1) dotdot in
                Clean_loop fuel' rooted rest (take w out) dotdot
              else if negb rooted then
                let out := if (0 <? len out)%nat then out ++ "/" else out in
                let out := out ++ ".." in
                Clean_loop fuel' rooted rest out (len out)
              else Clean_loop fuel' rooted rest out dotdot
            else
              (* real path element: add slash if needed, copy element *)
              let out :=
                if (rooted && negb (len out =? 1)%nat)
                   || (negb rooted && negb (len out =? 0)%nat)
                then out ++ "/" else out in
              let '(e, rest') := element path in
              Clean_loop fuel' rooted rest' (out ++ e) dotdot
        end
    end.

  (** [filepath.Clean]. *)
Definition Clean (path : string) : string :=
    match path with
    | EmptyString => "."
    | String c _ =>
        let rooted := IsPathSeparator c in
        let out :=
          if rooted then Clean_loop (len path) true (drop 1 path) "/" 1
          else Clean_loop (len path) false path EmptyString 0 in
        if (len out =? 0)%nat then "." else out
    end.

  (** The index just after the last separator of [path] (0 if none). *)
Fixpoint after_last_sep (path : string) (i : nat) (acc : nat) : nat :=
    match path with
    | EmptyString => acc
    | String c rest =>
        after_last_sep rest (S i) (if IsPathSeparator c then S i else acc)
    end.

  (** [filepath.Dir]: all but the last element of the path, cleaned. *)
Definition Dir (path : string) : string :=
    Clean (take (after_last_sep path 0 0) path).

Definition IsAbs (path : string) : bool := HasPrefix path "/".

  (** [filepath.Join] of two elements. *)
Definition Join (a b : string) : string :=
    if (len a =? 0)%nat then (if (len b =? 0)%nat then EmptyString else Clean b)
    else if (len b =? 0)%nat then Clean a
    else Clean (a ++ "/" ++ b).

  (** [filepath.Abs], given what [os.Getwd] returns ([None] is its error). *)
Definition Abs (getwd : option string) (path : string) : option string :=
    if IsAbs path then Some (Clean path)
    else match getwd with
         | Some wd => Some (Join wd path)
         | None => None
         end.

  (** The loop of [Base] that strips trailing separators:
      [for len(path) > 0 && os.IsPathSeparator(path[len(path)-1])]. *)
Fixpoint strip_trailing (fuel : nat) (path : string) : string :=
    match fuel with
    | O => path
    | S fuel' =>
        match last_byte path with
        | Some c =>
            if IsPathSeparator c
            then strip_trailing fuel' (take (len path - 1) path)
            else path
        | None => path
        end
    end.

  (** [filepath.Base]: the last element of the path, without trailing
      separators; [.] for the empty path and the separator for a path of
      separators only. *)
Definition Base (path : string) : string :=
    if String.eqb path EmptyString then "."
    else
      (* Strip trailing slashes. *)
      let path := strip_trailing (len path) path in
      (* Find the last element. *)
      let path := drop (after_last_sep path 0 0) path in
      (* If empty now, it had only slashes. *)
      if String.eqb path EmptyString then String Separator EmptyString
      else path.

End filepath.

(** ** regexp

    Go's [regexp] package is an external collaborator.  The program only
    compiles patterns and asks whether a compiled pattern matches a string,
    so the package is an interface with these two operations; [None] is a
    compile error. *)

Class RegexpPkg : Type := {
  Regexp : Type;
  regexp_Compile : string -> option Regexp;
  MatchString : Regexp -> string -> bool
}.

(** ** wgo_cmd.go *)

(** Errors the program reports. *)
Inductive error : Type :=
| ErrHelp                                   (* flag.ErrHelp *)
| ErrBadFlagSyntax (s : string)
| ErrFlagNotDefined (name : string)
| ErrFlagNeedsArgument (name : string)
| ErrInvalidBoolValue (value name : string)
| ErrInvalidValue (value name : string) (e : error)
| ErrRegexp (pattern : string)              (* regexp.Compile failed *)
| ErrGetwd                                  (* os.Getwd or filepath.Abs failed *)
| ErrDuration (flagname value : string)     (* time.ParseDuration failed *)
| ErrPackageNotProvided                     (* wgo run: package not provided *)
| ErrWgo (wgoNumber : nat) (e : error)      (* [wgo] or [wgoN] prefix *)
| ErrStart (msg : string)                   (* LookPath, StdinPipe, Start *)
| ErrExit (code : Z).                       (* *exec.ExitError of a child *)

Inductive result (A : Type) : Type :=
| Ok (a : A)
| Err (e : error).
Arguments Ok {A} a.
Arguments Err {A} e.

Definition isLetter (r : Z) : bool :=
  ((97 <=? r) && (r <=? 122)) || ((65 <=? r) && (r <=? 90)).

(** The rewriting loop of [compileRegexp]: [for j < len(pattern)], with the
    builder [b].  A round advances [j] by the width of a rune, which is at
    least one, so [len pattern] rounds of fuel are enough. *)
Fixpoint compileRegexp_loop (fuel : nat) (pattern : string) (j : nat)
         (b : string) : string :=
  match fuel with
  | O => b
  | S fuel' =>
      if (j <? len pattern)%nat then
        let '(prev, _) := utf8.DecodeLastRuneInString b in
        let '(curr, width) := utf8.DecodeRuneInString (drop j pattern) in
        let '(next, _) := utf8.DecodeRuneInString (drop (j + width) pattern) in
        let j := (j + width)%nat in
        if negb (prev =? 92) && (curr =? 46) && isLetter next then
          compileRegexp_loop fuel' pattern j (b ++ "\.")
        else
          compileRegexp_loop fuel' pattern j (b ++ utf8.EncodeRune curr)
      else b
  end.

(** The text that [compileRegexp] hands to [regexp.Compile]. *)
Definition compileRegexp_text (pattern : string) : string :=
  let n := CountByte pattern "." in
  if (n =? 0)%nat then pattern
  else
    let pattern :=
      if HasPrefix pattern "./" && (2 <? len pattern)%nat
      then drop 2 pattern else pattern in
    compileRegexp_loop (len pattern) pattern 0 EmptyString.

Section WithRegexp.
  Context {RE : RegexpPkg}.

  (** [compileRegexp]: like [regexp.Compile], except that a dot followed by
      a letter is a literal dot. *)
Definition compileRegexp (pattern : string) : result Regexp :=
    match regexp_Compile (compileRegexp_text pattern) with
    | Some r => Ok r
    | None => Err (ErrRegexp (compileRegexp_text pattern))
    end.

  (** The logger of a [WgoCmd]: the discarding default, or standard error
      with a prefix. *)
Inductive logger : Type :=
  | defaultLogger
  | stderrLogger (prefix : string).

  (** [type WgoCmd struct], without the streams and the context. *)
Record WgoCmd : Type := mkWgoCmd {
    Roots : list string;
    FileRegexps : list Regexp;
    ExcludeFileRegexps : list Regexp;
    DirRegexps : list Regexp;
    ExcludeDirRegexps : list Regexp;
    Logger : logger;
    ArgsList : list (list string);
    Env : list string;
    Dir : string;
    EnableStdin : bool;
    Exit : bool;
    Debounce : Z;                 (* nanoseconds *)
    Postpone : bool;
    PollDuration : Z;             (* nanoseconds *)
    isRun : bool;
    executablePath : string
  }.

  (** The loop over the roots in [match]: the normalized file and directory
      for the first root that is a directory prefix of the path. *)
Fixpoint match_roots (roots : list string) (path : string)
           (normalizedFile normalizedDir : string) : string * string :=
    match roots with
    | [] => (normalizedFile, normalizedDir)
    | root :: roots' =>
        let root := root ++ String filepath.Separator EmptyString in
        if HasPrefix path root then
          let normalizedFile := filepath.ToSlash (TrimPrefix path root) in
          let normalizedDir := filepath.ToSlash (filepath.Dir normalizedFile) in
          (normalizedFile, normalizedDir)
        else match_roots roots' path normalizedFile normalizedDir
    end.

  (** [for _, r := range rs { if r.MatchString(s) { ... } }]: whether the
      body is reached. *)
Fixpoint range_matches (rs : list Regexp) (s : string) : bool :=
    match rs with
    | [] => false
    | r :: rs' => if MatchString r s then true else range_matches rs' s
    end.

  (** [WgoCmd.match]: whether a file path should trigger a reload.  The
      [op] string is only logged, and logging is left out. *)
Definition match_ (wgoCmd : WgoCmd) (path : string) : bool :=
    let normalizedFile := filepath.ToSlash path in
    let normalizedDir := filepath.ToSlash (filepath.Dir normalizedFile) in
    let '(normalizedFile, normalizedDir) :=
      match_roots (Roots wgoCmd) path normalizedFile normalizedDir in
    if range_matches (ExcludeDirRegexps wgoCmd) normalizedDir then false
    else if (0 <? List.length (DirRegexps wgoCmd))%nat
            && negb (range_matches (DirRegexps wgoCmd) normalizedDir) then false
    else if range_matches (ExcludeFileRegexps wgoCmd) normalizedFile then false
    else if range_matches (FileRegexps wgoCmd) normalizedFile then true
    else if isRun wgoCmd then
      if HasSuffix path ".go" && negb (HasSuffix path "_test.go") then true
      else false
    else if (List.length (FileRegexps wgoCmd) =? 0)%nat then true
    else false.

End WithRegexp.

(** ** flag

    The parsing algorithm of Go's [flag] package ([FlagSet.Parse] with
    [ContinueOnError]), over the state [S] that the flag values write to. *)

Module flag.
  Section FlagSet.
    Variable S : Type.

    (** The kinds of flag the program defines: [BoolVar] (a boolean flag
        needs no argument), [StringVar] and [Func]. *)
Inductive Value : Type :=
    | BoolVar (set : bool -> S -> S)
    | StringVar (set : string -> S -> S)
    | Func (fn : string -> S -> result S).

Definition FlagSet : Type := list (string * Value).

Fixpoint lookup (formal : FlagSet) (name : string) : option Value :=
      match formal with
      | [] => None
      | (n, v) :: formal' => if String.eqb n name then Some v else lookup formal' name
      end.

    (** [strconv.ParseBool]. *)
Definition ParseBool (str : string) : option bool :=
      if existsb (String.eqb str) ["1"; "t"; "T"; "TRUE"; "true"; "True"] then Some true
      else if existsb (String.eqb str) ["0"; "f"; "F"; "FALSE"; "false"; "False"] then Some false
      else None.

    (** The first equals sign of [name] at index 1 or later splits it into
        the name and the value. *)
Fixpoint split_value (name : string) (i : nat) : option (string * string) :=
      match name with
      | EmptyString => None
      | String c name' =>
          if negb (i =? 0)%nat && Ascii.eqb c "="
          then Some (EmptyString, name')
          else match split_value name' (Datatypes.S i) with
               | Some (n, v) => Some (String c n, v)
               | None => None
               end
      end.

    (** [parseOne]: parses one flag; reports whether a flag was seen, with
        the new state and the remaining arguments. *)
Definition parseOne (formal : FlagSet) (st : S) (args : list string)
      : result (bool * S * list string) :=
      match args with
      | [] => Ok (false, st, args)
      | s :: rest =>
          if (len s <? 2)%nat || negb (HasPrefix s "-") then Ok (false, st, args)
          else
            let numMinuses := if HasPrefix (drop 1 s) "-" then 2%nat else 1%nat in
            if (numMinuses =? 2)%nat && (len s =? 2)%nat then
              (* -- terminates the flags *)
              Ok (false, st, rest)
            else
              let name := drop numMinuses s in
              if (len name =? 0)%nat || HasPrefix name "-" || HasPrefix name "=" then
                Err (ErrBadFlagSyntax s)
              else
                (* it's a flag. does it have an argument? *)
                let args := rest in
                let '(name, hasValue, value) :=
                  match split_value name 0 with
                  | Some (n, v) => (n, true, v)
                  | None => (name, false, EmptyString)
                  end in
                match lookup formal name with
                | None =>
                    if String.eqb name "help" || String.eqb name "h"
                    then Err ErrHelp
                    else Err (ErrFlagNotDefined name)
                | Some (BoolVar set) =>
                    if hasValue then
                      match ParseBool value with
                      | Some b => Ok (true, set b st, args)
                      | None => Err (ErrInvalidBoolValue value name)
                      end
                    else Ok (true, set true st, args)
                | Some fl =>
                    (* It must have a value, which might be the next argument. *)
                    let '(hasValue, value, args) :=
                      match hasValue, args with
                      | false, a :: args' => (true, a, args')
                      | _, _ => (hasValue, value, args)
                      end in
                    if negb hasValue then Err (ErrFlagNeedsArgument name)
                    else
                      match fl with
                      | StringVar set => Ok (true, set value st, args)
                      | Func fn =>
                          match fn value st with
                          | Ok st' => Ok (true, st', args)
                          | Err e => Err (ErrInvalidValue value name e)
                          end
                      | BoolVar _ => Ok (true, st, args)
                      end
                end
      end.

    (** [Parse]: [parseOne] until no flag is seen.  Each flag consumes an
        argument, so [length args + 1] rounds of fuel are enough.  The
        result holds the state and [f.Args()]. *)
Fixpoint Parse_loop (fuel : nat) (formal : FlagSet) (st : S)
             (args : list string) : result (S * list string) :=
      match fuel with
      | O => Ok (st, args)
      | Datatypes.S fuel' =>
          match parseOne formal st args with
          | Err e => Err e
          | Ok (true, st', args') => Parse_loop fuel' formal st' args'
          | Ok (false, st', args') => Ok (st', args')
          end
      end.

Definition Parse (formal : FlagSet) (st : S) (args : list string)
      : result (S * list string) :=
      Parse_loop (Datatypes.S (List.length args)) formal st args.

    (** A flag value keeps a property [P] of the state. *)
Definition keeps (P : S -> Prop) (v : Value) : Prop :=
      match v with
      | BoolVar set => forall b st, P st -> P (set b st)
      | StringVar set => forall s st, P st -> P (set s st)
      | Func fn => forall s st st', P st -> fn s st = Ok st' -> P st'
      end.

  End FlagSet.
  Arguments BoolVar {S} set.
  Arguments StringVar {S} set.
  Arguments Func {S} fn.
End flag.

(** String flag names copied from [go help build]. *)
Definition strFlagNames : list string :=
  ["p"; "asmflags"; "buildmode"; "compiler"; "gccgoflags"; "gcflags";
   "installsuffix"; "ldflags"; "mod"; "modfile"; "overlay"; "pkgdir";
   "tags"; "toolexec"; "exec"].

(** Bool flag names copied from [go help build]. *)
Definition boolFlagNames : list string :=
  ["a"; "n"; "race"; "msan"; "asan"; "v"; "work"; "x"; "buildvcs";
   "linkshared"; "modcacherw"; "trimpath"].

(** What the parser asks of the host: the working directory ([None] when
    [os.Getwd] fails), the temp directory, the formatted time stamp and
    random number of the temp binary's name, and [time.ParseDuration]
    (nanoseconds; [None] is its error). *)
Record Host : Type := mkHost {
  os_Getwd : option string;
  os_Getenv_GOTMPDIR : string;
  os_TempDir : string;
  time_Now_Format : string;
  rand_Intn_Itoa : string;
  time_ParseDuration : string -> option Z
}.

Definition Millisecond : Z := 1000000.

(** [strconv.Itoa] of a natural number. *)
Definition Itoa (n : nat) : string :=
  DecimalString.NilEmpty.string_of_uint (Nat.to_uint n).

Section Parser.
  Context {RE : RegexpPkg}.
  Variable host : Host.

Definition set_Roots v (c : WgoCmd) : WgoCmd :=
    mkWgoCmd v (FileRegexps c) (ExcludeFileRegexps c) (DirRegexps c)
      (ExcludeDirRegexps c) (Logger c) (ArgsList c) (Env c) (Dir c)
      (EnableStdin c) (Exit c) (Debounce c) (Postpone c) (PollDuration c)
      (isRun c) (executablePath c).
Definition set_FileRegexps v (c : WgoCmd) : WgoCmd :=
    mkWgoCmd (Roots c) v (ExcludeFileRegexps c) (DirRegexps c)
      (ExcludeDirRegexps c) (Logger c) (ArgsList c) (Env c) (Dir c)
      (EnableStdin c) (Exit c) (Debounce c) (Postpone c) (PollDuration c)
      (isRun c) (executablePath c).
Definition set_ExcludeFileRegexps v (c : WgoCmd) : WgoCmd :=
    mkWgoCmd (Roots c) (FileRegexps c) v (DirRegexps c)
      (ExcludeDirRegexps c) (Logger c) (ArgsList c) (Env c) (Dir c)
      (EnableStdin c) (Exit c) (Debounce c) (Postpone c) (PollDuration c)
      (isRun c) (executablePath c).
Definition set_DirRegexps v (c : WgoCmd) : WgoCmd :=
    mkWgoCmd (Roots c) (FileRegexps c) (ExcludeFileRegexps c) v
      (ExcludeDirRegexps c) (Logger c) (ArgsList c) (Env c) (Dir c)
      (EnableStdin c) (Exit c) (Debounce c) (Postpone c) (PollDuration c)
      (isRun c) (executablePath c).
Definition set_ExcludeDirRegexps v (c : WgoCmd) : WgoCmd :=
    mkWgoCmd (Roots c) (FileRegexps c) (ExcludeFileRegexps c) (DirRegexps c)
      v (Logger c) (ArgsList c) (Env c) (Dir c)
      (EnableStdin c) (Exit c) (Debounce c) (Postpone c) (PollDuration c)
      (isRun c) (executablePath c).
Definition set_Logger v (c : WgoCmd) : WgoCmd :=
    mkWgoCmd (Roots c) (FileRegexps c) (ExcludeFileRegexps c) (DirRegexps c)
      (ExcludeDirRegexps c) v (ArgsList c) (Env c) (Dir c)
      (EnableStdin c) (Exit c) (Debounce c) (Postpone c) (PollDuration c)
      (isRun c) (executablePath c).
Definition set_ArgsList v (c : WgoCmd) : WgoCmd :=
    mkWgoCmd (Roots c) (FileRegexps c) (ExcludeFileRegexps c) (DirRegexps c)
      (ExcludeDirRegexps c) (Logger c) v (Env c) (Dir c)
      (EnableStdin c) (Exit c) (Debounce c) (Postpone c) (PollDuration c)
      (isRun c) (executablePath c).
Definition set_Dir v (c : WgoCmd) : WgoCmd :=
    mkWgoCmd (Roots c) (FileRegexps c) (ExcludeFileRegexps c) (DirRegexps c)
      (ExcludeDirRegexps c) (Logger c) (ArgsList c) (Env c) v
      (EnableStdin c) (Exit c) (Debounce c) (Postpone c) (PollDuration c)
      (isRun c) (executablePath c).
Definition set_EnableStdin v (c : WgoCmd) : WgoCmd :=
    mkWgoCmd (Roots c) (FileRegexps c) (ExcludeFileRegexps c) (DirRegexps c)
      (ExcludeDirRegexps c) (Logger c) (ArgsList c) (Env c) (Dir c)
      v (Exit c) (Debounce c) (Postpone c) (PollDuration c)
      (isRun c) (executablePath c).
Definition set_Exit v (c : WgoCmd) : WgoCmd :=
    mkWgoCmd (Roots c) (FileRegexps c) (ExcludeFileRegexps c) (DirRegexps c)
      (ExcludeDirRegexps c) (Logger c) (ArgsList c) (Env c) (Dir c)
      (EnableStdin c) v (Debounce c) (Postpone c) (PollDuration c)
      (isRun c) (executablePath c).
Definition set_Debounce v (c : WgoCmd) : WgoCmd :=
    mkWgoCmd (Roots c) (FileRegexps c) (ExcludeFileRegexps c) (DirRegexps c)
      (ExcludeDirRegexps c) (Logger c) (ArgsList c) (Env c) (Dir c)
      (EnableStdin c) (Exit c) v (Postpone c) (PollDuration c)
      (isRun c) (executablePath c).
Definition set_Postpone v (c : WgoCmd) : WgoCmd :=
    mkWgoCmd (Roots c) (FileRegexps c) (ExcludeFileRegexps c) (DirRegexps c)
      (ExcludeDirRegexps c) (Logger c) (ArgsList c) (Env c) (Dir c)
      (EnableStdin c) (Exit c) (Debounce c) v (PollDuration c)
      (isRun c) (executablePath c).
Definition set_PollDuration v (c : WgoCmd) : WgoCmd :=
    mkWgoCmd (Roots c) (FileRegexps c) (ExcludeFileRegexps c) (DirRegexps c)
      (ExcludeDirRegexps c) (Logger c) (ArgsList c) (Env c) (Dir c)
      (EnableStdin c) (Exit c) (Debounce c) (Postpone c) v
      (isRun c) (executablePath c).
Definition set_executablePath v (c : WgoCmd) : WgoCmd :=
    mkWgoCmd (Roots c) (FileRegexps c) (ExcludeFileRegexps c) (DirRegexps c)
      (ExcludeDirRegexps c) (Logger c) (ArgsList c) (Env c) (Dir c)
      (EnableStdin c) (Exit c) (Debounce c) (Postpone c) (PollDuration c)
      (isRun c) v.

  (** The variables that the flags of [WgoCommand] write to: the command
      under construction and the locals of the function. *)
Record ParseState : Type := mkParseState {
    wgoCmd_ : WgoCmd;
    verbose : bool;
    debounce : string;
    poll : string;
    strFlagValues : list string;
    boolFlagValues : list bool
  }.

Definition on_cmd (f : WgoCmd -> WgoCmd) (st : ParseState) : ParseState :=
    mkParseState (f (wgoCmd_ st)) (verbose st) (debounce st) (poll st)
      (strFlagValues st) (boolFlagValues st).
Definition set_verbose v (st : ParseState) : ParseState :=
    mkParseState (wgoCmd_ st) v (debounce st) (poll st)
      (strFlagValues st) (boolFlagValues st).
Definition set_debounce v (st : ParseState) : ParseState :=
    mkParseState (wgoCmd_ st) (verbose st) v (poll st)
      (strFlagValues st) (boolFlagValues st).
Definition set_poll v (st : ParseState) : ParseState :=
    mkParseState (wgoCmd_ st) (verbose st) (debounce st) v
      (strFlagValues st) (boolFlagValues st).
Definition set_strFlagValues v (st : ParseState) : ParseState :=
    mkParseState (wgoCmd_ st) (verbose st) (debounce st) (poll st)
      v (boolFlagValues st).
Definition set_boolFlagValues v (st : ParseState) : ParseState :=
    mkParseState (wgoCmd_ st) (verbose st) (debounce st) (poll st)
      (strFlagValues st) v.

  (** [boolFlagValues[i] = b]. *)
Fixpoint set_nth {A : Type} (i : nat) (b : A) (l : list A) : list A :=
    match l, i with
    | [], _ => []
    | _ :: l', O => b :: l'
    | x :: l', S i' => x :: set_nth i' b l'
    end.

  (** The fields of the command that no flag writes to. *)
Definition untouched (is_run : bool) (st : ParseState) : Prop :=
    isRun (wgoCmd_ st) = is_run
    /\ ArgsList (wgoCmd_ st) = []
    /\ executablePath (wgoCmd_ st) = EmptyString.

  (** A pattern flag: compile the value and append it to a field. *)
Definition regexp_flag (get : WgoCmd -> list Regexp)
             (set : list Regexp -> WgoCmd -> WgoCmd)
    : flag.Value ParseState :=
    flag.Func (fun value st =>
      match compileRegexp value with
      | Err e => Err e
      | Ok r => Ok (on_cmd (fun c => set (get c ++ [r])%list c) st)
      end).

  (** The flags of [wgo]. *)
Definition wgo_flags : flag.FlagSet ParseState :=
    [ ("cd", flag.StringVar (fun v => on_cmd (set_Dir v)));
      ("verbose", flag.BoolVar set_verbose);
      ("exit", flag.BoolVar (fun b => on_cmd (set_Exit b)));
      ("stdin", flag.BoolVar (fun b => on_cmd (set_EnableStdin b)));
      ("debounce", flag.StringVar set_debounce);
      ("postpone", flag.BoolVar (fun b => on_cmd (set_Postpone b)));
      ("poll", flag.StringVar set_poll);
      ("root", flag.Func (fun value st =>
         match filepath.Abs (os_Getwd host) value with
         | None => Err ErrGetwd
         | Some root => Ok (on_cmd (fun c => set_Roots (Roots c ++ [root])%list c) st)
         end));
      ("file", regexp_flag FileRegexps set_FileRegexps);
      ("xfile", regexp_flag ExcludeFileRegexps set_ExcludeFileRegexps);
      ("dir", regexp_flag DirRegexps set_DirRegexps);
      ("xdir", regexp_flag ExcludeDirRegexps set_ExcludeDirRegexps) ].

  (** The go build flags that [wgo run] also parses. *)
Definition str_build_flags : flag.FlagSet ParseState :=
    map (fun name =>
           (name, flag.Func (fun value st =>
              Ok (set_strFlagValues (strFlagValues st ++ [("-" ++ name)%string; value])%list st))))
        strFlagNames.

Fixpoint bool_build_flags (i : nat) (names : list string)
    : flag.FlagSet ParseState :=
    match names with
    | [] => []
    | name :: names' =>
        (name, flag.BoolVar (fun b st =>
           set_boolFlagValues (set_nth i b (boolFlagValues st)) st))
          :: bool_build_flags (S i) names'
    end.

  (** [for i, ok := range boolFlagValues { if ok { append -name } }]. *)
Fixpoint bool_build_args (values : list bool) (names : list string) : list string :=
    match values, names with
    | ok :: values', name :: names' =>
        ((if ok then [("-" ++ name)%string] else []) ++ bool_build_args values' names')%list
    | _, _ => []
    end.

  (** A token of three or more colons only.  The source ranges over the
      runes of the token; every rune is a colon exactly when every byte
      is. *)
Fixpoint only_colons (arg : string) : bool :=
    match arg with
    | EmptyString => true
    | String c arg' => Ascii.eqb c ":" && only_colons arg'
    end.
Definition allColons (arg : string) : bool :=
    (2 <? len arg)%nat && only_colons arg.

  (** [ArgsList[n] = append(ArgsList[n], arg)] with [n] the last index. *)
Fixpoint append_to_last (argsList : list (list string)) (arg : string)
    : list (list string) :=
    match argsList with
    | [] => []
    | [args] => [(args ++ [arg])%list]
    | args :: argsList' => args :: append_to_last argsList' arg
    end.

  (** The loop over [flagArgs] that splits the command chain. *)
Fixpoint chain_loop (flagArgs : list string) (argsList : list (list string))
    : list (list string) :=
    match flagArgs with
    | [] => argsList
    | arg :: flagArgs' =>
        (* If arg is ::, start a new command. *)
        if String.eqb arg "::" then chain_loop flagArgs' (argsList ++ [[]])%list
        else
          (* Unescape ::: to ::, :::: to :::, etc. *)
          let arg := if allColons arg then drop 1 arg else arg in
          (* Append arg to the last command in the chain. *)
          chain_loop flagArgs' (append_to_last argsList arg)
    end.

  (** The flag set of [WgoCommand]: the flags of [wgo] and, for [wgo run],
      the go build flags. *)
Definition flagset (is_run : bool) : flag.FlagSet ParseState :=
    (wgo_flags
       ++ (if is_run then str_build_flags ++ bool_build_flags 0 boolFlagNames
           else []))%list.

  (** The variables of [WgoCommand] before the flags are parsed. *)
Definition initial_state (cwd : string) (is_run : bool) : ParseState :=
    let wgoCmd :=
      mkWgoCmd [cwd] [] [] [] [] defaultLogger [] [] EmptyString
               false false 0 false 0 is_run EmptyString in
    mkParseState wgoCmd false "300ms" EmptyString []
      (if is_run then repeat false (List.length boolFlagNames) else []).

  (** [WgoCommand]: instantiates a new [WgoCmd] from the arguments of one
      instance. *)
Definition WgoCommand (wgoNumber : nat) (args : list string) : result WgoCmd :=
    match os_Getwd host with
    | None => Err ErrGetwd
    | Some cwd =>
        let is_run := match args with a :: _ => String.eqb a "run" | [] => false end in
        let args := if is_run then tl args else args in
        (* Parse flags. *)
        match flag.Parse ParseState (flagset is_run) (initial_state cwd is_run) args with
        | Err e => Err e
        | Ok (st, flagArgs) =>
            let wgoCmd := wgoCmd_ st in
            let wgoCmd :=
              if verbose st then
                if (1 <? wgoNumber)%nat
                then set_Logger (stderrLogger ("[wgo" ++ Itoa wgoNumber ++ "] ")) wgoCmd
                else set_Logger (stderrLogger "[wgo] ") wgoCmd
              else wgoCmd in
            match (if String.eqb (debounce st) EmptyString
                   then Some (300 * Millisecond)
                   else time_ParseDuration host (debounce st)) with
            | None => Err (ErrDuration "debounce" (debounce st))
            | Some d =>
                let wgoCmd := set_Debounce d wgoCmd in
                match (if negb (String.eqb (poll st) EmptyString)
                       then time_ParseDuration host (poll st)
                       else Some (PollDuration wgoCmd)) with
                | None => Err (ErrDuration "poll" (poll st))
                | Some p =>
                    let wgoCmd := set_PollDuration p wgoCmd in
                    (* If the command is wgo run, prepend a go build command
                       to the ArgsList. *)
                    let wgoCmd := set_ArgsList (ArgsList wgoCmd ++ [[]])%list wgoCmd in
                    if is_run then
                      match flagArgs with
                      | [] => Err ErrPackageNotProvided
                      | package :: flagArgs' =>
                          let tmpDir :=
                            if String.eqb (os_Getenv_GOTMPDIR host) EmptyString
                            then os_TempDir host
                            else os_Getenv_GOTMPDIR host in
                          let exe :=
                            filepath.Join tmpDir
                              ("wgo_" ++ time_Now_Format host ++ "_" ++ rand_Intn_Itoa host) in
                          let wgoCmd := set_executablePath exe wgoCmd in
                          let buildArgs := ["go"; "build"; "-o"; exe] in
                          let buildArgs := (buildArgs ++ strFlagValues st)%list in
                          let buildArgs :=
                            (buildArgs ++ bool_build_args (boolFlagValues st) boolFlagNames)%list in
                          let buildArgs := (buildArgs ++ [package])%list in
                          let runArgs := [exe] in
                          let wgoCmd := set_ArgsList [buildArgs; runArgs] wgoCmd in
                          Ok (set_ArgsList (chain_loop flagArgs' (ArgsList wgoCmd)) wgoCmd)
                      end
                    else
                      Ok (set_ArgsList (chain_loop flagArgs (ArgsList wgoCmd)) wgoCmd)
                end
            end
        end
    end.

  (** [args[i:j]]. *)
Definition slice {A : Type} (args : list A) (i j : nat) : list A :=
    firstn (j - i) (skipn i args).

  (** The scanning loop of [WgoCommands]: [for j < len(args)].  A round
      advances [j], so [length args] rounds of fuel are enough.  The result
      holds [i], [j], [wgoNumber] and [wgoCmds] at the exit of the loop. *)
Fixpoint WgoCommands_loop (fuel : nat) (args : list string)
           (i j wgoNumber : nat) (wgoCmds : list WgoCmd)
    : result (nat * nat * nat * list WgoCmd) :=
    match fuel with
    | O => Ok (i, j, wgoNumber, wgoCmds)
    | S fuel' =>
        if (j <? List.length args)%nat then
          if negb (String.eqb (nth j args EmptyString) "::")
             || (List.length args <=? j + 1)%nat
             || negb (String.eqb (nth (j + 1) args EmptyString) "wgo")
          then WgoCommands_loop fuel' args i (j + 1) wgoNumber wgoCmds
          else
            match WgoCommand wgoNumber (slice args i j) with
            | Err e => Err (ErrWgo wgoNumber e)
            | Ok wgoCmd =>
                WgoCommands_loop fuel' args (j + 2) (j + 2) (wgoNumber + 1)
                                 (wgoCmds ++ [wgoCmd])%list
            end
        else Ok (i, j, wgoNumber, wgoCmds)
    end.

  (** The tail of [WgoCommands], after the loop: the arguments from [i] on,
      if any, make the last instance. *)
Definition WgoCommands_finish (args : list string)
           (r : result (nat * nat * nat * list WgoCmd)) : result (list WgoCmd) :=
    match r with
    | Err e => Err e
    | Ok (i, j, wgoNumber, wgoCmds) =>
        if (i <? j)%nat then
          match WgoCommand wgoNumber (slice args i j) with
          | Err e => Err (ErrWgo wgoNumber e)
          | Ok wgoCmd => Ok (wgoCmds ++ [wgoCmd])%list
          end
        else Ok wgoCmds
    end.

  (** [WgoCommands]: instantiates a slice of [WgoCmd]s.  Each [::]
      separator followed by [wgo] indicates a new one. *)
Definition WgoCommands (args : list string) : result (list WgoCmd) :=
    WgoCommands_finish args (WgoCommands_loop (List.length args) args 1 1 1 []).

End Parser.

(** ** fsnotify: the operations of a file event *)

Module fsnotify.
Definition Create : Z := 1.
Definition Write : Z := 2.
Definition Remove : Z := 4.
Definition Rename : Z := 8.
Definition Chmod : Z := 16.

  (** An event names a path and carries a bit set of operations. *)
Record Event : Type := mkEvent { Name : string; Op : Z }.

  (** [Event.Has]: the event has the given operation. *)
Definition Has (e : Event) (op : Z) : bool := negb (Z.land (Op e) op =? 0).
End fsnotify.

(** ** The event loop of [WgoCmd.Run]

    [Run] is a loop around a [select] over four channels.  It is modelled
    as a transition system: a state records where the loop stands, and a
    step consumes what one of the channels delivers.  Time is explicit: a
    step happens at an instant [now] (nanoseconds), [timer.Reset(d)] arms
    the timer for [now + d], and the timer channel delivers only once the
    deadline has passed. *)

Section Supervisor.
  Context {RE : RegexpPkg}.

  (** Where [Run] stands. *)
Inductive Phase : Type :=
  | Postponed           (* the wait loop of pass zero under Postpone *)
  | Starting (i : nat)  (* steps 1 and 2: prepare and start ArgsList[i] *)
  | Running (i : nat)   (* step 3: the child of ArgsList[i] is running *)
  | Suspended (i : nat) (* step 3 after the child of ArgsList[i] exited *)
  | Returned (err : option error)   (* Run returned err *)
  | Panicked            (* args[0] on an empty args *)
  | Spinning.           (* an empty chain: the outer loop never selects *)

Record RunState : Type := mkRunState {
    phase : Phase;
    restartCount : nat;
    timer : option Z;          (* the deadline when armed *)
    added : list string        (* directories given to addDirsRecursively *)
  }.

  (** What a step consumes. *)
Inductive Input : Type :=
  | CtxDone                            (* <-wgoCmd.ctx.Done() *)
  | Started (err : option error)       (* outcome of LookPath, StdinPipe, Start *)
  | CmdResult (err : option error)     (* <-cmdResult: what cmd.Wait() returned *)
  | FsEvent (event : fsnotify.Event) (stat : option bool)
      (* <-events, with what os.Stat says of the path: None is an error,
         Some d tells whether it is a directory *)
  | TimerC.                            (* <-timer.C *)

  Variable wgoCmd : WgoCmd.

  (** The head of the body of [for i, args := range wgoCmd.ArgsList] in
      pass [restartCount]. *)
Definition enter (restartCount i : nat) : Phase :=
    match nth_error (ArgsList wgoCmd) i with
    | None => Spinning
    | Some args =>
        if (restartCount =? 0)%nat && Postpone wgoCmd then Postponed
        else match args with
             | [] => Panicked
             | _ :: _ => Starting i
             end
    end.

  (** The state of [Run] when it reaches the outer loop. *)
Definition Run_init : RunState :=
    mkRunState (enter 0 0) 0 None [].

  (** [break CMD_CHAIN]: the next pass of the chain. *)
Definition restart (st : RunState) : RunState :=
    mkRunState (enter (S (restartCount st)) 0) (S (restartCount st)) None (added st).

Definition return_ (err : option error) (st : RunState) : RunState :=
    mkRunState (Returned err) (restartCount st) (timer st) (added st).

Definition goto (p : Phase) (st : RunState) : RunState :=
    mkRunState p (restartCount st) (timer st) (added st).

  (** [case event := <-events]. *)
Definition handle_event (now : Z) (st : RunState) (event : fsnotify.Event)
             (stat : option bool) : RunState :=
    if negb (fsnotify.Has event fsnotify.Create)
       && negb (fsnotify.Has event fsnotify.Write) then st
    else
      match stat with
      | None => st
      | Some true =>
          if fsnotify.Has event fsnotify.Create && (PollDuration wgoCmd =? 0)
          then mkRunState (phase st) (restartCount st) (timer st)
                          (added st ++ [fsnotify.Name event])%list
          else st
      | Some false =>
          if match_ wgoCmd (fsnotify.Name event)
          then mkRunState (phase st) (restartCount st)
                          (Some (now + Debounce wgoCmd)) (added st)
          else st
      end.

  (** The timer channel can deliver: the timer is armed and due. *)
Definition timer_due (now : Z) (st : RunState) : bool :=
    match timer st with
    | Some deadline => deadline <=? now
    | None => false
    end.

  (** [case err := <-cmdResult] for the child of [ArgsList[i]]. *)
Definition handle_result (i : nat) (err : option error) (st : RunState) : RunState :=
    if (i =? List.length (ArgsList wgoCmd) - 1)%nat then
      if Exit wgoCmd then return_ err st
      else goto (Suspended i) st            (* break: back to the select *)
    else
      match err with
      | Some _ => goto (Suspended i) st     (* break: back to the select *)
      | None => goto (enter (restartCount st) (S i)) st   (* continue CMD_CHAIN *)
      end.

  (** One step of [Run] at the instant [now]; [None] when the loop does
      not take the input where it stands. *)
Definition step (now : Z) (st : RunState) (inp : Input) : option RunState :=
    match phase st, inp with
    | Postponed, CtxDone => Some (return_ None st)
    | Postponed, FsEvent event stat => Some (handle_event now st event stat)
    | Postponed, TimerC => if timer_due now st then Some (restart st) else None
    | Starting i, Started (Some err) => Some (return_ (Some err) st)
    | Starting i, Started None => Some (goto (Running i) st)
    | Running i, CtxDone => Some (return_ None st)
    | Running i, CmdResult err => Some (handle_result i err st)
    | Running i, FsEvent event stat => Some (handle_event now st event stat)
    | Running i, TimerC => if timer_due now st then Some (restart st) else None
    | Suspended i, CtxDone => Some (return_ None st)
    | Suspended i, FsEvent event stat => Some (handle_event now st event stat)
    | Suspended i, TimerC => if timer_due now st then Some (restart st) else None
    | _, _ => None
    end.

  (** The loop is in a [select] that reads the event and timer channels. *)
Definition selecting (p : Phase) : bool :=
    match p with
    | Postponed | Running _ | Suspended _ => true
    | _ => false
    end.

  (** A timed run: the inputs are taken in order, each at its instant. *)
Fixpoint run (st : RunState) (trace : list (Z * Input)) : option RunState :=
    match trace with
    | [] => Some st
    | (now, inp) :: trace' =>
        match step now st inp with
        | Some st' => run st' trace'
        | None => None
        end
    end.

  (** A file event that passes every filter of the handler: a create or
      write of a regular file that the matcher accepts. *)
Definition matching (inp : Input) : bool :=
    match inp with
    | FsEvent event (Some false) =>
        (fsnotify.Has event fsnotify.Create || fsnotify.Has event fsnotify.Write)
        && match_ wgoCmd (fsnotify.Name event)
    | _ => false
    end.





  (** What holds of every state that [Run] reaches: a child is started,
      running or waited for only at an index of the chain, and never in
      pass zero under Postpone. *)
Definition consistent (st : RunState) : Prop :=
    match phase st with
    | Starting i | Running i | Suspended i =>
        (i < List.length (ArgsList wgoCmd))%nat
        /\ (restartCount st =? 0)%nat && Postpone wgoCmd = false
    | _ => True
    end.

  (** The states that [Run] reaches. *)
Definition reachable (st : RunState) : Prop :=
    exists trace, run Run_init trace = Some st.

End Supervisor.

(** ** A regexp engine for examples

    A small backtracking engine for a fragment of Go's regexp syntax:
    literal characters, the dot (any byte but a newline), backslash
    escapes of punctuation, groups, alternation and the postfix operators
    [*], [+] and [?].  On this fragment and on ASCII subjects it agrees
    with Go's engine; on any other pattern [Compile] answers [None], which
    stands for "not in the fragment" as well as for a compile error.  The
    general theorems hold for every [RegexpPkg]; this instance evaluates
    the examples. *)

Module SimpleRegexp.

Inductive re : Type :=
  | Eps
  | Chr (c : ascii)
  | Any
  | Alt (a b : re)
  | Cat (a b : re)
  | Star (a : re).

Definition is_meta (c : ascii) : bool := mem c "\.+*?()|[]{}^$".

Definition is_punct (c : ascii) : bool :=
    let n := byte c in
    ((33 <=? n) && (n <=? 47)) || ((58 <=? n) && (n <=? 64))
    || ((91 <=? n) && (n <=? 96)) || ((123 <=? n) && (n <=? 126)).

  (** The postfix operators after an atom. *)
Fixpoint parse_postfix (r : re) (s : string) : re * string :=
    match s with
    | String c s' =>
        if Ascii.eqb c "*" then parse_postfix (Star r) s'
        else if Ascii.eqb c "+" then parse_postfix (Cat r (Star r)) s'
        else if Ascii.eqb c "?" then parse_postfix (Alt r Eps) s'
        else (r, s)
    | EmptyString => (r, s)
    end.

  (** Recursive descent: alternation, concatenation, atoms. *)
Fixpoint parse_alt (fuel : nat) (s : string) : option (re * string) :=
    match fuel with
    | O => None
    | S fuel' =>
        match parse_cat fuel' s with
        | Some (a, String c s') =>
            if Ascii.eqb c "|" then
              match parse_alt fuel' s' with
              | Some (b, s'') => Some (Alt a b, s'')
              | None => None
              end
            else Some (a, String c s')
        | other => other
        end
    end
  with parse_cat (fuel : nat) (s : string) : option (re * string) :=
    match fuel with
    | O => None
    | S fuel' =>
        match s with
        | EmptyString => Some (Eps, s)
        | String c _ =>
            if Ascii.eqb c "|" || Ascii.eqb c ")" then Some (Eps, s)
            else
              match parse_atom fuel' s with
              | Some (a, s') =>
                  let '(a, s') := parse_postfix a s' in
                  match parse_cat fuel' s' with
                  | Some (Eps, s'') => Some (a, s'')
                  | Some (b, s'') => Some (Cat a b, s'')
                  | None => None
                  end
              | None => None
              end
        end
    end
  with parse_atom (fuel : nat) (s : string) : option (re * string) :=
    match fuel with
    | O => None
    | S fuel' =>
        match s with
        | EmptyString => None
        | String c s' =>
            if Ascii.eqb c "(" then
              match parse_alt fuel' s' with
              | Some (r, String d s'') =>
                  if Ascii.eqb d ")" then Some (r, s'') else None
              | _ => None
              end
            else if Ascii.eqb c "." then Some (Any, s')
            else if Ascii.eqb c "\" then
              match s' with
              | String d s'' => if is_punct d then Some (Chr d, s'') else None
              | EmptyString => None
              end
            else if is_meta c || (127 <? byte c) then None
            else Some (Chr c, s')
        end
    end.

Definition Compile (pattern : string) : option re :=
    match parse_alt (3 * len pattern + 3) pattern with
    | Some (r, EmptyString) => Some r
    | _ => None
    end.

  (** [m r s k]: some prefix of [s] matches [r] and the rest satisfies
      [k]. *)
Fixpoint m (r : re) (s : string) (k : string -> bool) {struct r} : bool :=
    match r with
    | Eps => k s
    | Chr c =>
        match s with
        | String d s' => Ascii.eqb c d && k s'
        | EmptyString => false
        end
    | Any =>
        match s with
        | String d s' => negb (Ascii.eqb d newline) && k s'
        | EmptyString => false
        end
    | Alt a b => m a s k || m b s k
    | Cat a b => m a s (fun s' => m b s' k)
    | Star a =>
        (fix star (n : nat) (s : string) : bool :=
           match n with
           | O => k s
           | S n' =>
               k s || m a s (fun s' => (len s' <? len s)%nat && star n' s')
           end) (len s) s
    end.

  (** An unanchored search, as [Regexp.MatchString] does. *)
Fixpoint search (r : re) (s : string) : bool :=
    m r s (fun _ => true)
    || match s with
       | String _ s' => search r s'
       | EmptyString => false
       end.

#[export] Instance pkg : RegexpPkg :=
    {| Regexp := re; regexp_Compile := Compile; MatchString := search |}.

End SimpleRegexp.

(** ** A host for examples *)

Module Sample.

Definition digit (c : ascii) : option Z :=
    let n := byte c in
    if (48 <=? n) && (n <=? 57) then Some (n - 48) else None.

Fixpoint leading_int (s : string) (acc : Z) (seen : bool) : option (Z * string) :=
    match s with
    | EmptyString => if seen then Some (acc, s) else None
    | String c s' =>
        match digit c with
        | Some d => leading_int s' (10 * acc + d) true
        | None => if seen then Some (acc, s) else None
        end
    end.

  (** [time.ParseDuration] on the durations of the shape digits-unit, in
      nanoseconds; any other string is answered by [None]. *)
Definition ParseDuration (s : string) : option Z :=
    match leading_int s 0 false with
    | Some (n, unit) =>
        if String.eqb unit "ns" then Some n
        else if String.eqb unit "us" then Some (n * 1000)
        else if String.eqb unit "ms" then Some (n * 1000000)
        else if String.eqb unit "s" then Some (n * 1000000000)
        else if String.eqb unit "m" then Some (n * 60000000000)
        else if String.eqb unit "h" then Some (n * 3600000000000)
        else None
    | None => None
    end.

Definition host : Host :=
    mkHost (Some "/home/user/project") EmptyString "/tmp"
           "20240102150405" "1234" ParseDuration.

  (** The temp binary of [wgo run] on this host. *)
Definition exe : string := "/tmp/wgo_20240102150405_1234".

  (** The instance of [wgo go build :: ./out] in the working directory of
      this host, with the default debounce of 300ms. *)
Definition cmd : @WgoCmd SimpleRegexp.pkg :=
    @mkWgoCmd SimpleRegexp.pkg ["/home/user/project"] [] [] [] [] defaultLogger
             [["go"; "build"]; ["./out"]] [] EmptyString
             false false (300 * Millisecond) false 0 false EmptyString.

End Sample.

(** ** The quoting contracts, as the specification words them

    These definitions follow the specification of [quote_argv], not the
    code; the theorems below compare them with the code. *)

Module QuoteSpec.

  (** The characters that are backslash-escaped on POSIX. *)
Definition posix_special : string :=
    "\'" ++ String dquote "`${[|&;<>()*?!".

  (** Space, tab and newline. *)
Definition posix_blank : string :=
    String " " (String tab (String newline EmptyString)).

  (** Backslash-escape every special character, and a leading tilde. *)
Fixpoint backslash_escape (leading : bool) (token : string) : string :=
    match token with
    | EmptyString => EmptyString
    | String c token' =>
        (if mem c posix_special || (leading && Ascii.eqb c "~")
         then String "\" (String c EmptyString)
         else String c EmptyString)
          ++ backslash_escape false token'
    end.

  (** The pieces of a token between its separator bytes. *)
Fixpoint split (sep : ascii) (token : string) : list string :=
    match token with
    | EmptyString => [EmptyString]
    | String c token' =>
        if Ascii.eqb c sep then EmptyString :: split sep token'
        else match split sep token' with
             | piece :: pieces => String c piece :: pieces
             | [] => [String c EmptyString]
             end
    end.

  (** A piece in single quotes; an empty piece needs none. *)
Definition in_quotes (piece : string) : string :=
    if String.eqb piece EmptyString then EmptyString
    else "'" ++ piece ++ "'".

  (** Single-quote mode: the pieces between the embedded single quotes are
      single-quoted, and each embedded single quote is written as a
      backslash and a quote between them; a quote inside the token thus
      reads as quote, backslash, quote, quote. *)
Definition single_quote_mode (token : string) : string :=
    String.concat "\'" (map in_quotes (split "'" token)).

Definition posix_quote (token : string) : string :=
    if String.eqb token EmptyString then "''"
    else if ContainsAny token posix_blank then single_quote_mode token
    else backslash_escape true token.

Definition posix_quote_argv (argv : list string) : string :=
    String.concat " " (map posix_quote argv).

  (** The characters that make PowerShell quoting necessary. *)
Definition pwsh_special : string := " '`$(){}<>|&;*".

  (** Single-quote the token and double its single quotes. *)
Definition pwsh_quote (token : string) : string :=
    if String.eqb token EmptyString then "''"
    else if ContainsAny token pwsh_special
    then "'" ++ ReplaceAllByte token "'" "''" ++ "'"
    else token.

Definition pwsh_quote_argv (argv : list string) : string :=
    String.concat " " (map pwsh_quote argv).

End QuoteSpec.

(** ** The argument grammar, as the specification words it *)

Module ParserSpec.

  (** A token of three or more colons only is an escape: one colon is
      stripped. *)
Definition unescape (token : string) : string :=
    if (3 <=? len token)%nat && only_colons token then drop 1 token else token.

  (** The chain split: the token [::] starts a new argv, any other token
      is escape-decoded and joins the current argv. *)
Fixpoint argvs (tokens : list string) : list (list string) :=
    match tokens with
    | [] => [[]]
    | token :: tokens' =>
        if String.eqb token "::" then [] :: argvs tokens'
        else match argvs tokens' with
             | argv :: rest => (unescape token :: argv) :: rest
             | [] => [[unescape token]]
             end
    end.

  (** The top-level split: the token sequence [::], [wgo] begins a new
      instance; the tokens before it, added to [current], form the previous
      one. *)
Fixpoint instances (tokens current : list string) : list (list string) :=
    match tokens with
    | [] => [current]
    | token :: tokens' =>
        match tokens' with
        | next :: tokens'' =>
            if String.eqb token "::" && String.eqb next "wgo"
            then current :: instances tokens'' []
            else instances tokens' (current ++ [token])%list
        | [] => instances tokens' (current ++ [token])%list
        end
    end.

  Section Parse.
    Context {RE : RegexpPkg}.
    Variable host : Host.

(** The temp binary of [wgo run]. *)
Definition temp_binary : string :=
    filepath.Join
      (if String.eqb (os_Getenv_GOTMPDIR host) EmptyString
       then os_TempDir host else os_Getenv_GOTMPDIR host)
      ("wgo_" ++ time_Now_Format host ++ "_" ++ rand_Intn_Itoa host).

(** The synthesized build invocation. *)
Definition build_argv (st : ParseState) (package : string) : list string :=
    (((["go"; "build"; "-o"; temp_binary] ++ strFlagValues st)
        ++ bool_build_args (boolFlagValues st) boolFlagNames) ++ [package])%list.


    (** Parse the instances in order, numbering them from [wgoNumber]; the
        last one is parsed only when it has a token. *)
Fixpoint parse_instances (wgoNumber : nat) (wgoCmds : list WgoCmd)
             (segments : list (list string)) : result (list WgoCmd) :=
      match segments with
      | [] => Ok wgoCmds
      | segment :: segments' =>
          match segments', segment with
          | [], [] => Ok wgoCmds
          | _, _ =>
              match WgoCommand host wgoNumber segment with
              | Err e => Err (ErrWgo wgoNumber e)
              | Ok wgoCmd =>
                  parse_instances (wgoNumber + 1) (wgoCmds ++ [wgoCmd])%list segments'
              end
          end
      end.
  End Parse.

End ParserSpec.

(** ** The path matcher, as the specification words it *)

Module MatchSpec.
  Section Matcher.
    Context {RE : RegexpPkg}.

(** Step 1: the path relative to the first root, in declaration order,
    that is a directory prefix of it; the path as it is when there is
    none. *)
Definition relative_path (roots : list string) (path : string) : string :=
      match find (fun root => HasPrefix path (root ++ "/")) roots with
      | Some root => drop (len root + 1) path
      | None => path
      end.

(** Some pattern of the list matches the string. *)
Definition any_matches (patterns : list Regexp) (s : string) : bool :=
      existsb (fun r => MatchString r s) patterns.

Definition is_empty {A : Type} (l : list A) : bool :=
      match l with [] => true | _ => false end.

(** Steps 3 to 8 over the relative path [F] and its parent directory
    [D]. *)
Definition decide (wgoCmd : WgoCmd) (F D : string) : bool :=
      if any_matches (ExcludeDirRegexps wgoCmd) D then false
      else if negb (is_empty (DirRegexps wgoCmd))
              && negb (any_matches (DirRegexps wgoCmd) D) then false
      else if any_matches (ExcludeFileRegexps wgoCmd) F then false
      else if any_matches (FileRegexps wgoCmd) F then true
      else if isRun wgoCmd then
        HasSuffix F ".go" && negb (HasSuffix F "_test.go")
      else is_empty (FileRegexps wgoCmd).

  End Matcher.
End MatchSpec.

(** ** The pattern sugar, as the specification words it *)

Module PatternSpec.

(** A leading dot-slash followed by at least one character is stripped. *)
Definition strip_dot_slash (pattern : string) : string :=
  if HasPrefix pattern "./" && (2 <? len pattern)%nat
  then drop 2 pattern else pattern.

(** The string starts with an ASCII letter. *)
Definition starts_with_letter (s : string) : bool :=
  match s with
  | String c _ => isLetter (byte c)
  | EmptyString => false
  end.

(** No dot of the string is followed by a letter. *)
Fixpoint dot_letter_free (s : string) : bool :=
  match s with
  | EmptyString => true
  | String c s' =>
      negb (Ascii.eqb c "." && starts_with_letter s') && dot_letter_free s'
  end.

(** The string ends in a backslash. *)
Definition ends_with_backslash (s : string) : bool :=
  match last_byte s with
  | Some c => Ascii.eqb c "\"
  | None => false
  end.

(** The rewriting loop on a whole pattern. *)
Definition rewrite_dots (pattern : string) : string :=
  compileRegexp_loop (len pattern) pattern 0 EmptyString.

(** The rewriting loop as a function of the unread pattern [s] and of
    whether the builder ends in a backslash: what the loop still appends.
    The lemmas on [compileRegexp_loop] relate the two. *)
Fixpoint rewrite_runes (fuel : nat) (prev_backslash : bool) (s : string) : string :=
  match fuel with
  | O => EmptyString
  | S fuel' =>
      match s with
      | EmptyString => EmptyString
      | _ =>
          let '(curr, width) := utf8.DecodeRuneInString s in
          let '(next, _) := utf8.DecodeRuneInString (drop width s) in
          if negb prev_backslash && (curr =? 46) && isLetter next then
            "\." ++ rewrite_runes fuel' false (drop width s)
          else
            utf8.EncodeRune curr ++ rewrite_runes fuel' (curr =? 92) (drop width s)
      end
  end.

End PatternSpec.

(** ** The rewriting loop, piecewise *)

(** [rewrite_runes] with exactly the fuel of the string. *)
Definition rewrite_rest (pb : bool) (s : string) : string :=
  PatternSpec.rewrite_runes (len s) pb s.

(** Whether the builder ends in a backslash once the loop has gone through
    [X], when it ended in one or not before. *)
Definition after (pb : bool) (X : string) : bool :=
  match X with
  | EmptyString => pb
  | _ => PatternSpec.ends_with_backslash X
  end.

(** ** Traces of the event loop *)

Section Traces.
  Context {RE : RegexpPkg}.
  Variable wgoCmd : WgoCmd.

(** The number of file events of a trace that pass every filter of the
    handler and so reset the timer. *)
Definition count_matching (trace : list (Z * Input)) : nat :=
    List.length (filter (fun ti => matching wgoCmd (snd ti)) trace).

(** One when the timer is armed. *)
Definition armed (st : RunState) : nat :=
    match timer st with Some _ => 1%nat | None => 0%nat end.

(** The directories whose creation a trace reports, in order. *)
Definition created_dirs (trace : list (Z * Input)) : list string :=
    flat_map (fun ti =>
                match snd ti with
                | FsEvent event (Some true) =>
                    if fsnotify.Has event fsnotify.Create
                    then [fsnotify.Name event] else []
                | _ => []
                end) trace.

End Traces.

(** ** Writing a chain and pattern flags as tokens *)



(** The four flags that take a pattern. *)
Definition pattern_flags : list string := ["file"; "xfile"; "dir"; "xdir"].

(** Pattern flags as tokens: [-name pattern] for each. *)
Definition pattern_args (flags : list (string * string)) : list string :=
  flat_map (fun nv => [("-" ++ fst nv)%string; snd nv]) flags.

(** The patterns given to the flag [name], in the order of the command
    line. *)
Definition patterns_of (name : string) (flags : list (string * string)) : list string :=
  map snd (filter (fun nv => String.eqb (fst nv) name) flags).

(** ** Reading a quoted command line *)

(** A token that neither quoter has a reason to touch: not empty, without
    any character that either of them quotes, and not starting with a
    tilde. *)
Definition plain (token : string) : bool :=
  negb (String.eqb token EmptyString)
  && negb (ContainsAny token Unix.specialChars)
  && negb (ContainsAny token Unix.extraSpecialChars)
  && negb (HasPrefix token Unix.prefixChars)
  && negb (ContainsAny token Windows.quoteChars).

(** The word under construction, with one more byte. *)
Definition push (cur : option string) (c : ascii) : option string :=
  Some (match cur with
        | Some w => w ++ String c EmptyString
        | None => String c EmptyString
        end).

(** The words of a command line as [sh] reads the three constructs that
    [quote] writes: a backslash makes the next byte literal, single quotes
    make everything up to the next single quote literal, and a space
    outside quotes ends the word.  [cur] is the word under construction
    ([None] between words).  It is the device that tells quoted command
    lines apart. *)
Fixpoint words (s : string) (cur : option string) (inQuote : bool) : list string :=
  match s with
  | EmptyString => match cur with Some w => [w] | None => [] end
  | String c s' =>
      if inQuote then
        if Ascii.eqb c "'" then words s' cur false
        else words s' (push cur c) true
      else if Ascii.eqb c "'" then
        words s' (Some (match cur with Some w => w | None => EmptyString end)) true
      else if Ascii.eqb c "\" then
        match s' with
        | String d s'' => words s'' (push cur d) false
        | EmptyString => words s' (push cur c) false
        end
      else if Ascii.eqb c " " then
        match cur with
        | Some w => w :: words s' None false
        | None => words s' None false
        end
      else words s' (push cur c) false
  end.

(** The word under construction, with a text added; nothing is begun by
    an empty text. *)
Definition extend (cur : option string) (t : string) : option string :=
  match t with
  | EmptyString => cur
  | _ => Some (match cur with Some w => w ++ t | None => t end)
  end.

(** ** Watching and polling directories

    [addDirsRecursively] walks a directory with [filepath.WalkDir] and adds
    the directories it accepts to the watcher; [pollDirectory] and
    [pollFile] are the goroutines that replace the watcher when a poll
    duration is set.  The file system is what these functions see of it:
    the tree that [WalkDir] reads, the listings that [os.ReadDir] returns
    and the results of [os.Stat]. *)

(** What [WalkDir] reads: a file (anything that is not a directory), or a
    directory with the entries that [os.ReadDir] returns for it, in its
    order.  When [ReadDir] fails the callback is called once more with the
    error and returns nil, and the walk goes on with the entries that were
    read, so a failure shows only in [entries]. *)
#[warnings="-register-all"] Inductive DirEntry : Type :=
  | File (name : string)
  | Directory (name : string) (entries : list DirEntry).

Definition DirEntry_Name (d : DirEntry) : string :=
  match d with
  | File name => name
  | Directory name _ => name
  end.

Definition DirEntry_IsDir (d : DirEntry) : bool :=
  match d with
  | File _ => false
  | Directory _ _ => true
  end.

(** What the callback of [WalkDir] returns. *)
Inductive WalkResult : Type :=
  | WalkNil
  | SkipDir.

(** The switch on the names that are never watched. *)
Definition skipped_name (name : string) : bool :=
  existsb (String.eqb name)
    [".git"; ".hg"; ".svn"; ".idea"; ".vscode"; ".settings"; "node_modules"].

(** What [os.Stat] tells [pollFile] of a file. *)
Record FileInfo : Type := mkFileInfo {
  ModTime : Z;
  Size : Z
}.

(** A round of a polling loop after its sleep: the context is done, or the
    loop goes on with what the file system call returns ([None] is its
    error). *)
Inductive Round (A : Type) : Type :=
  | ContextDone
  | Polled (result : option A).
Arguments ContextDone {A}.
Arguments Polled {A} result.

(** A goroutine that [pollDirectory] starts. *)
Inductive Poller : Type :=
  | PollDirectory (path : string)
  | PollFile (path : string).

Section Watching.
  Context {RE : RegexpPkg}.
  Variable wgoCmd : WgoCmd.

  (** [for _, root := range wgoCmd.Roots]: the directory relative to the
      first root that is a directory prefix of it. *)
Fixpoint normalize_dir (roots : list string) (path normalizedDir : string) : string :=
    match roots with
    | [] => normalizedDir
    | root :: roots' =>
        let root := root ++ String filepath.Separator EmptyString in
        if HasPrefix path root
        then filepath.ToSlash (TrimPrefix path root)
        else normalize_dir roots' path normalizedDir
    end.

  (** The callback of [WalkDir] in [addDirsRecursively] on a directory
      that was read without error: whether [watcher.Add] is called, and
      what the callback returns. *)
Definition visit_dir (path : string) : bool * WalkResult :=
    let normalizedDir := filepath.ToSlash path in
    if existsb (String.eqb path) (Roots wgoCmd) then (true, WalkNil)
    else
      let normalizedDir := normalize_dir (Roots wgoCmd) path normalizedDir in
      if range_matches (ExcludeDirRegexps wgoCmd) normalizedDir then (false, SkipDir)
      else if range_matches (DirRegexps wgoCmd) normalizedDir then (true, WalkNil)
      else
        let name := filepath.Base path in
        if skipped_name name then (false, SkipDir)
        else if HasPrefix name "." then (false, SkipDir)
        else (true, WalkNil).

  (** [walkDir] of [filepath.WalkDir] with that callback: the paths given
      to [watcher.Add], in order.  On a file the callback returns nil and
      nothing is added. *)
Fixpoint walkDir (path : string) (d : DirEntry) : list string :=
    match d with
    | File _ => []
    | Directory _ entries =>
        let '(add, result) := visit_dir path in
        ((if add then [path] else [])
           ++ match result with
              | SkipDir => []
              | WalkNil =>
                  flat_map (fun d1 => walkDir (filepath.Join path (DirEntry_Name d1)) d1)
                           entries
              end)%list
    end.

  (** [addDirsRecursively(watcher, dir)]: the paths added to the watcher.
      [root] is what [os.Lstat] finds at [dir]; when it fails ([None]) the
      callback gets the error and returns nil. *)
Definition addDirsRecursively (dir : string) (root : option DirEntry) : list string :=
    match root with
    | None => []
    | Some d => walkDir dir d
    end.

  (** The closure [match] of [pollDirectory]: whether a directory found by
      the first listing is polled. *)
Definition poll_match (dir : string) : bool :=
    let normalizedDir := filepath.ToSlash dir in
    let normalizedDir := normalize_dir (Roots wgoCmd) dir normalizedDir in
    if range_matches (ExcludeDirRegexps wgoCmd) normalizedDir then false
    else if range_matches (DirRegexps wgoCmd) normalizedDir then true
    else
      let name := filepath.Base normalizedDir in
      if skipped_name name then false
      else if HasPrefix name "." then false
      else true.

  (** [cancelFuncs[name] = cancel], on the names that the map holds. *)
Definition track (name : string) (cancelFuncs : list string) : list string :=
    if existsb (String.eqb name) cancelFuncs then cancelFuncs
    else (cancelFuncs ++ [name])%list.

  (** The first loop of [pollDirectory] over the listing of [path]: the
      names of the map [cancelFuncs] and the goroutines started. *)
Fixpoint pollDirectory_start (path : string) (dirEntries : list (string * bool))
           (cancelFuncs : list string) : list string * list Poller :=
    match dirEntries with
    | [] => (cancelFuncs, [])
    | (name, isDir) :: dirEntries' =>
        let cancelFuncs := track name cancelFuncs in
        let started :=
          if isDir then
            if poll_match (filepath.Join path name)
            then [PollDirectory (filepath.Join path name)]
            else []
          else [PollFile (filepath.Join path name)] in
        let '(cancelFuncs, pollers) :=
          pollDirectory_start path dirEntries' cancelFuncs in
        (cancelFuncs, (started ++ pollers)%list)
    end.

  (** The loop over the listing in a later round: a name that the map does
      not hold is added to it, and a goroutine is started that sends a
      Create event and then polls. *)
Fixpoint pollDirectory_scan (path : string) (dirEntries : list (string * bool))
           (cancelFuncs : list string) : list string * list Poller :=
    match dirEntries with
    | [] => (cancelFuncs, [])
    | (name, isDir) :: dirEntries' =>
        if existsb (String.eqb name) cancelFuncs
        then pollDirectory_scan path dirEntries' cancelFuncs
        else
          let cancelFuncs := track name cancelFuncs in
          let started :=
            if isDir then PollDirectory (filepath.Join path name)
            else PollFile (filepath.Join path name) in
          let '(cancelFuncs, pollers) :=
            pollDirectory_scan path dirEntries' cancelFuncs in
          (cancelFuncs, started :: pollers)
    end.

  (** What a round of [pollDirectory] does. *)
Record RoundResult : Type := mkRoundResult {
    tracked : list string;      (* the names of cancelFuncs after the round *)
    created : list Poller;      (* started, each after its Create event *)
    cancelled : list string     (* names whose goroutine was cancelled *)
  }.

  (** One round of the loop of [pollDirectory] after the sleep, with the
      context not done: [dirEntries] is what [os.ReadDir] returns.  The
      names cancelled are listed in the order of the model's map; Go ranges
      over a map in no fixed order. *)
Definition pollDirectory_round (path : string)
             (dirEntries : option (list (string * bool)))
             (cancelFuncs : list string) : RoundResult :=
    match dirEntries with
    | None => mkRoundResult cancelFuncs [] []
    | Some dirEntries =>
        let seen := map fst dirEntries in
        let '(cancelFuncs, pollers) := pollDirectory_scan path dirEntries cancelFuncs in
        mkRoundResult
          (filter (fun name => existsb (String.eqb name) seen) cancelFuncs)
          pollers
          (filter (fun name => negb (existsb (String.eqb name) seen)) cancelFuncs)
    end.

  (** The rounds of [pollDirectory] from the map [cancelFuncs] on: the
      goroutines created in each round until the context is done. *)
Fixpoint pollDirectory_loop (path : string)
           (rounds : list (Round (list (string * bool))))
           (cancelFuncs : list string) : list (list Poller) :=
    match rounds with
    | [] => []
    | ContextDone :: _ => []
    | Polled dirEntries :: rounds' =>
        let r := pollDirectory_round path dirEntries cancelFuncs in
        created r :: pollDirectory_loop path rounds' (tracked r)
    end.

  (** [pollDirectory]: [first] is the result of the [os.ReadDir] before
      the loops ([None]: the error is logged and the function returns).
      The result holds the goroutines started for the first listing, which
      send no event, and those created in each later round. *)
Definition pollDirectory (path : string) (first : option (list (string * bool)))
             (rounds : list (Round (list (string * bool))))
    : list Poller * list (list Poller) :=
    match first with
    | None => ([], [])
    | Some dirEntries =>
        let '(cancelFuncs, pollers) := pollDirectory_start path dirEntries [] in
        (pollers, pollDirectory_loop path rounds cancelFuncs)
    end.

  (** The loop of [pollFile]: the events sent. *)
Fixpoint pollFile_loop (path : string) (old : FileInfo)
           (rounds : list (Round FileInfo)) : list fsnotify.Event :=
    match rounds with
    | [] => []
    | ContextDone :: _ => []
    | Polled None :: rounds' => pollFile_loop path old rounds'
    | Polled (Some new) :: rounds' =>
        ((if negb (ModTime new =? ModTime old) || negb (Size new =? Size old)
          then [fsnotify.mkEvent path fsnotify.Write] else [])
           ++ pollFile_loop path new rounds')%list
    end.

  (** [pollFile]: [first] is the result of the [os.Stat] before the loop. *)
Definition pollFile (path : string) (first : option FileInfo)
             (rounds : list (Round FileInfo)) : list fsnotify.Event :=
    match first with
    | None => []
    | Some fileInfo => pollFile_loop path fileInfo rounds
    end.

End Watching.

(** The results of [os.Stat] that a [pollFile] sees until its context is
    done, the one before the loop first. *)
Fixpoint stats_seen (rounds : list (Round FileInfo)) : list FileInfo :=
  match rounds with
  | [] => []
  | ContextDone :: _ => []
  | Polled None :: rounds' => stats_seen rounds'
  | Polled (Some info) :: rounds' => info :: stats_seen rounds'
  end.

(** The number of places where a list of file infos changes from one to
    the next, in time or in size. *)
Fixpoint changes (old : FileInfo) (infos : list FileInfo) : nat :=
  match infos with
  | [] => 0
  | new :: infos' =>
      (if negb (ModTime new =? ModTime old) || negb (Size new =? Size old)
       then S (changes new infos') else changes new infos')
  end.

(** ** The go build flags of a command line *)

(** A go build flag as it is typed: a string flag with its value, or a
    boolean flag. *)
Inductive BuildFlag : Type :=
  | StrFlag (name value : string)
  | BoolFlag (name : string).

(** The flag is one that [wgo run] defines. *)
Definition known_build_flag (f : BuildFlag) : Prop :=
  match f with
  | StrFlag name _ => In name strFlagNames
  | BoolFlag name => In name boolFlagNames
  end.

(** The tokens of the flags. *)
Definition build_flag_args (flags : list BuildFlag) : list string :=
  flat_map (fun f =>
              match f with
              | StrFlag name value => [("-" ++ name)%string; value]
              | BoolFlag name => [("-" ++ name)%string]
              end) flags.

(** The tokens of the string flags alone, in their order. *)
Definition str_flag_args (flags : list BuildFlag) : list string :=
  flat_map (fun f =>
              match f with
              | StrFlag name value => [("-" ++ name)%string; value]
              | BoolFlag _ => []
              end) flags.

(** The boolean flag [name] is among the flags. *)
Definition has_bool_flag (flags : list BuildFlag) (name : string) : bool :=
  existsb (fun f =>
             match f with
             | BoolFlag n => String.eqb n name
             | StrFlag _ _ => false
             end) flags.

(** The boolean flags that are given, in the order of [boolFlagNames]. *)
Definition bool_flag_args (flags : list BuildFlag) : list string :=
  map (fun name => ("-" ++ name)%string) (filter (has_bool_flag flags) boolFlagNames).

(** No [::] of the tokens is directly followed by [wgo]. *)
Fixpoint pair_free (tokens : list string) : bool :=
  match tokens with
  | t :: tokens' =>
      match tokens' with
      | u :: _ => negb (String.eqb t "::" && String.eqb u "wgo") && pair_free tokens'
      | [] => true
      end
  | [] => true
  end.

(** ** Patterns with their dots escaped *)

(** Every dot of [s] that a letter follows comes right after a backslash;
    [prev_backslash] tells whether a backslash comes right before [s]. *)
Fixpoint dots_escaped (prev_backslash : bool) (s : string) : bool :=
  match s with
  | EmptyString => true
  | String c s' =>
      (negb (Ascii.eqb c "." && PatternSpec.starts_with_letter s') || prev_backslash)
      && dots_escaped (Ascii.eqb c "\") s'
  end.


Lemma byte_range (c : ascii) : 0 <= byte c < 256.
Proof.
  unfold byte. pose proof (N_ascii_bounded c). lia.
Qed.

Lemma to_byte_byte (c : ascii) : to_byte (byte c) = c.
Proof.
  unfold to_byte. pose proof (byte_range c) as H.
  rewrite Z.mod_small by lia. unfold byte.
  rewrite N2Z.id. apply ascii_N_embedding.
Qed.

Lemma byte_inj (c d : ascii) : byte c = byte d -> c = d.
Proof.
  intros H. rewrite <- (to_byte_byte c), <- (to_byte_byte d). now rewrite H.
Qed.

Lemma land_shiftl_low (hi lo n : Z) :
  0 <= n -> 0 <= lo < 2 ^ n -> Z.land (Z.shiftl hi n) lo = 0.
Proof.
  intros Hn Hlo. apply Z.bits_inj'. intros k Hk.
  rewrite Z.land_spec, Z.bits_0.
  destruct (Z.ltb_spec k n) as [Hlt | Hge].
  - rewrite Z.shiftl_spec_low by lia. reflexivity.
  - replace (Z.testbit lo k) with false; [apply andb_false_r |].
    symmetry. destruct (Z.eq_dec lo 0) as [-> | Hnz]; [apply Z.bits_0 |].
    apply Z.bits_above_log2; [lia |].
    apply Z.log2_lt_pow2; [lia |].
    apply Z.lt_le_trans with (2 ^ n); [lia |].
    apply Z.pow_le_mono_r; lia.
Qed.

Lemma lor_shiftl_low (hi lo n : Z) :
  0 <= n -> 0 <= lo < 2 ^ n -> Z.lor (Z.shiftl hi n) lo = hi * 2 ^ n + lo.
Proof.
  intros Hn Hlo.
  rewrite <- Z.lxor_lor by (apply land_shiftl_low; assumption).
  rewrite <- Z.add_nocarry_lxor by (apply land_shiftl_low; assumption).
  now rewrite Z.shiftl_mul_pow2.
Qed.

Lemma land_maskx (b : Z) : Z.land b utf8.maskx = b mod 64.
Proof. change utf8.maskx with (Z.ones 6). now rewrite Z.land_ones. Qed.
Lemma land_mask2 (b : Z) : Z.land b utf8.mask2 = b mod 32.
Proof. change utf8.mask2 with (Z.ones 5). now rewrite Z.land_ones. Qed.
Lemma land_mask3 (b : Z) : Z.land b utf8.mask3 = b mod 16.
Proof. change utf8.mask3 with (Z.ones 4). now rewrite Z.land_ones. Qed.
Lemma land_mask4 (b : Z) : Z.land b utf8.mask4 = b mod 8.
Proof. change utf8.mask4 with (Z.ones 3). now rewrite Z.land_ones. Qed.

Lemma rune2_arith (a b : Z) :
  Z.lor (Z.shiftl (Z.land a utf8.mask2) 6) (Z.land b utf8.maskx)
  = (a mod 32) * 64 + b mod 64.
Proof.
  rewrite land_mask2, land_maskx.
  rewrite lor_shiftl_low; [reflexivity | lia |].
  change (2 ^ 6) with 64. apply Z.mod_pos_bound. lia.
Qed.

Lemma rune3_arith (a b c : Z) :
  Z.lor (Z.lor (Z.shiftl (Z.land a utf8.mask3) 12)
               (Z.shiftl (Z.land b utf8.maskx) 6))
        (Z.land c utf8.maskx)
  = (a mod 16) * 4096 + (b mod 64) * 64 + c mod 64.
Proof.
  rewrite land_mask3, !land_maskx.
  replace (Z.shiftl (a mod 16) 12) with (Z.shiftl (Z.shiftl (a mod 16) 6) 6)
    by (rewrite Z.shiftl_shiftl by lia; reflexivity).
  rewrite <- Z.shiftl_lor.
  pose proof (Z.mod_pos_bound b 64 ltac:(lia)).
  pose proof (Z.mod_pos_bound c 64 ltac:(lia)).
  rewrite (lor_shiftl_low (a mod 16) (b mod 64) 6) by (change (2 ^ 6) with 64; lia).
  rewrite lor_shiftl_low by (change (2 ^ 6) with 64; lia).
  change (2 ^ 6) with 64. lia.
Qed.

Lemma rune4_arith (a b c d : Z) :
  Z.lor (Z.lor (Z.lor (Z.shiftl (Z.land a utf8.mask4) 18)
                      (Z.shiftl (Z.land b utf8.maskx) 12))
               (Z.shiftl (Z.land c utf8.maskx) 6))
        (Z.land d utf8.maskx)
  = (a mod 8) * 262144 + (b mod 64) * 4096 + (c mod 64) * 64 + d mod 64.
Proof.
  rewrite land_mask4, !land_maskx.
  replace (Z.shiftl (a mod 8) 18) with (Z.shiftl (Z.shiftl (Z.shiftl (a mod 8) 6) 6) 6)
    by (rewrite !Z.shiftl_shiftl by lia; reflexivity).
  replace (Z.shiftl (b mod 64) 12) with (Z.shiftl (Z.shiftl (b mod 64) 6) 6)
    by (rewrite Z.shiftl_shiftl by lia; reflexivity).
  rewrite <- !Z.shiftl_lor.
  pose proof (Z.mod_pos_bound b 64 ltac:(lia)).
  pose proof (Z.mod_pos_bound c 64 ltac:(lia)).
  pose proof (Z.mod_pos_bound d 64 ltac:(lia)).
  rewrite (lor_shiftl_low (a mod 8) (b mod 64) 6) by (change (2 ^ 6) with 64; lia).
  rewrite (lor_shiftl_low _ (c mod 64) 6) by (change (2 ^ 6) with 64; lia).
  rewrite lor_shiftl_low by (change (2 ^ 6) with 64; lia).
  change (2 ^ 6) with 64. lia.
Qed.

Lemma first_as (s0 : Z) : utf8.first s0 = utf8.lead_as -> s0 < 128.
Proof.
  unfold utf8.first.
  repeat match goal with
         | |- context [?a <? ?b] => destruct (Z.ltb_spec a b)
         | |- context [?a =? ?b] => destruct (Z.eqb_spec a b)
         end; intros E; try discriminate; lia.
Qed.

Lemma first_xx (s0 : Z) : utf8.first s0 = utf8.lead_xx -> 128 <= s0.
Proof.
  unfold utf8.first.
  repeat match goal with
         | |- context [?a <? ?b] => destruct (Z.ltb_spec a b)
         | |- context [?a =? ?b] => destruct (Z.eqb_spec a b)
         end; intros E; try discriminate; lia.
Qed.

Lemma first_multi (s0 : Z) (sz : nat) (lo hi : Z) :
  utf8.first s0 = utf8.lead_multi sz lo hi ->
  (sz = 2%nat /\ 194 <= s0 <= 223 /\ lo = 128 /\ hi = 191)
  \/ (sz = 3%nat /\ 224 <= s0 <= 239 /\ 128 <= lo /\ hi <= 191
      /\ (s0 = 224 -> lo = 160) /\ (s0 = 237 -> hi = 159))
  \/ (sz = 4%nat /\ 240 <= s0 <= 244 /\ 128 <= lo /\ hi <= 191
      /\ (s0 = 240 -> lo = 144) /\ (s0 = 244 -> hi = 143)).
Proof.
  unfold utf8.first, utf8.locb, utf8.hicb.
  repeat match goal with
         | |- context [?a <? ?b] => destruct (Z.ltb_spec a b)
         | |- context [?a =? ?b] => destruct (Z.eqb_spec a b)
         end; intros E; try discriminate; injection E as <- <- <-; lia.
Qed.

Lemma encode2 (a b : Z) :
  194 <= a <= 223 -> 128 <= b <= 191 ->
  utf8.EncodeRune ((a mod 32) * 64 + b mod 64)
  = String (to_byte a) (String (to_byte b) EmptyString).
Proof.
  intros Ha Hb. set (r := (a mod 32) * 64 + b mod 64).
  assert (Hr : 128 <= r <= 2047) by (subst r; Z.div_mod_to_equations; lia).
  unfold utf8.EncodeRune, utf8.rune1Max, utf8.rune2Max.
  replace (r <=? 127) with false by (symmetry; apply Z.leb_gt; lia).
  replace (0 <=? r) with true by (symmetry; apply Z.leb_le; lia).
  replace (r <=? 2047) with true by (symmetry; apply Z.leb_le; lia).
  cbn [andb]. cbn [append].
  rewrite land_maskx, Z.shiftr_div_pow2 by lia.
  change utf8.t2 with (Z.shiftl 3 6). change utf8.tx with (Z.shiftl 2 6).
  change (2 ^ 6) with 64.
  rewrite !lor_shiftl_low by (change (2 ^ 6) with 64; subst r; Z.div_mod_to_equations; lia).
  change (2 ^ 6) with 64.
  repeat f_equal; subst r; Z.div_mod_to_equations; lia.
Qed.

Ltac decide_cmp :=
  repeat match goal with
         | |- context [?a <=? ?b] =>
             first [ replace (a <=? b) with true by (symmetry; apply Z.leb_le; lia)
                   | replace (a <=? b) with false by (symmetry; apply Z.leb_gt; lia) ]
         | |- context [?a <? ?b] =>
             first [ replace (a <? b) with true by (symmetry; apply Z.ltb_lt; lia)
                   | replace (a <? b) with false by (symmetry; apply Z.ltb_ge; lia) ]
         end.

Lemma encode3 (a b c : Z) :
  224 <= a <= 239 -> 128 <= b <= 191 -> 128 <= c <= 191 ->
  (a = 224 -> 160 <= b) -> (a = 237 -> b <= 159) ->
  utf8.EncodeRune ((a mod 16) * 4096 + (b mod 64) * 64 + c mod 64)
  = String (to_byte a) (String (to_byte b) (String (to_byte c) EmptyString)).
Proof.
  intros Ha Hb Hc Hlo Hhi.
  set (r := (a mod 16) * 4096 + (b mod 64) * 64 + c mod 64).
  assert (Hr : 2048 <= r <= 65535 /\ (r < 55296 \/ 57343 < r))
    by (subst r; Z.div_mod_to_equations; lia).
  unfold utf8.EncodeRune, utf8.rune1Max, utf8.rune2Max, utf8.rune3Max,
    utf8.surrogateMin, utf8.surrogateMax.
  replace (r <=? 127) with false by (symmetry; apply Z.leb_gt; lia).
  replace (0 <=? r) with true by (symmetry; apply Z.leb_le; lia).
  replace (r <=? 2047) with false by (symmetry; apply Z.leb_gt; lia).
  replace ((r <? 55296) || (57343 <? r) && (r <=? 65535)) with true.
  2:{ symmetry. destruct Hr as [Hr [Hs | Hs]].
      - replace (r <? 55296) with true by (symmetry; apply Z.ltb_lt; lia). reflexivity.
      - replace (57343 <? r) with true by (symmetry; apply Z.ltb_lt; lia).
        replace (r <=? 65535) with true by (symmetry; apply Z.leb_le; lia).
        apply orb_true_r. }
  cbn [andb]. cbn [append].
  rewrite !land_maskx, !Z.shiftr_div_pow2 by lia.
  change utf8.t3 with (Z.shiftl 14 4). change utf8.tx with (Z.shiftl 2 6).
  change (2 ^ 6) with 64. change (2 ^ 12) with 4096.
  rewrite (lor_shiftl_low 14);
    [| lia | change (2 ^ 4) with 16; subst r; Z.div_mod_to_equations; lia].
  rewrite !(lor_shiftl_low 2) by (try lia; change (2 ^ 6) with 64; apply Z.mod_pos_bound; lia).
  change (2 ^ 6) with 64. change (2 ^ 4) with 16.
  repeat f_equal; subst r; Z.div_mod_to_equations; lia.
Qed.

Lemma encode4 (a b c d : Z) :
  240 <= a <= 244 -> 128 <= b <= 191 -> 128 <= c <= 191 -> 128 <= d <= 191 ->
  (a = 240 -> 144 <= b) -> (a = 244 -> b <= 143) ->
  utf8.EncodeRune ((a mod 8) * 262144 + (b mod 64) * 4096 + (c mod 64) * 64 + d mod 64)
  = String (to_byte a) (String (to_byte b) (String (to_byte c)
      (String (to_byte d) EmptyString))).
Proof.
  intros Ha Hb Hc Hd Hlo Hhi.
  set (r := (a mod 8) * 262144 + (b mod 64) * 4096 + (c mod 64) * 64 + d mod 64).
  assert (Hr : 65536 <= r <= 1114111)
    by (subst r; Z.div_mod_to_equations; lia).
  unfold utf8.EncodeRune, utf8.rune1Max, utf8.rune2Max, utf8.rune3Max,
    utf8.surrogateMin, utf8.surrogateMax, utf8.MaxRune.
  replace (r <=? 127) with false by (symmetry; apply Z.leb_gt; lia).
  replace (0 <=? r) with true by (symmetry; apply Z.leb_le; lia).
  replace (r <=? 2047) with false by (symmetry; apply Z.leb_gt; lia).
  replace (r <? 55296) with false by (symmetry; apply Z.ltb_ge; lia).
  replace (r <=? 65535) with false by (symmetry; apply Z.leb_gt; lia).
  replace (65535 <? r) with true by (symmetry; apply Z.ltb_lt; lia).
  replace (r <=? 1114111) with true by (symmetry; apply Z.leb_le; lia).
  replace (57343 <? r) with true by (symmetry; apply Z.ltb_lt; lia).
  cbn [andb orb]. cbn [append].
  rewrite !land_maskx, !Z.shiftr_div_pow2 by lia.
  change utf8.t4 with (Z.shiftl 30 3). change utf8.tx with (Z.shiftl 2 6).
  change (2 ^ 6) with 64. change (2 ^ 12) with 4096. change (2 ^ 18) with 262144.
  rewrite (lor_shiftl_low 30);
    [| lia | change (2 ^ 3) with 8; subst r; Z.div_mod_to_equations; lia].
  rewrite !(lor_shiftl_low 2) by (try lia; change (2 ^ 6) with 64; apply Z.mod_pos_bound; lia).
  change (2 ^ 6) with 64. change (2 ^ 3) with 8.
  repeat f_equal; subst r; Z.div_mod_to_equations; lia.
Qed.

Lemma DecodeRune_ascii (c : ascii) (s : string) :
  byte c < 128 -> utf8.DecodeRuneInString (String c s) = (byte c, 1%nat).
Proof.
  intros H. unfold utf8.DecodeRuneInString, utf8.first.
  replace (byte c <? 128) with true by (symmetry; apply Z.ltb_lt; lia).
  reflexivity.
Qed.

Lemma continuation_range (b : Z) : utf8.continuation b = true -> 128 <= b <= 191.
Proof.
  unfold utf8.continuation, utf8.locb, utf8.hicb. intros H.
  apply andb_true_iff in H. destruct H as [H1 H2].
  apply Z.leb_le in H1. apply Z.leb_le in H2. lia.
Qed.

Lemma high_true (b : Z) : 128 <= b -> (128 <=? b) = true.
Proof. intros. apply Z.leb_le. assumption. Qed.

(** What the decoder returns on a string that starts with a byte above the
    ASCII range: a rune above that range, read from bytes above that range,
    which is either the error rune of width one or a rune whose encoding is
    the bytes that were read. *)
Lemma DecodeRune_high (c : ascii) (s : string) :
  128 <= byte c ->
  exists r w,
    utf8.DecodeRuneInString (String c s) = (r, w)
    /\ 128 <= r
    /\ (1 <= w <= len (String c s))%nat
    /\ all_high (take w (String c s)) = true
    /\ ((r = utf8.RuneError /\ w = 1%nat)
        \/ utf8.EncodeRune r = take w (String c s)).
Proof.
  intros Hc.
  assert (Herr : exists r w,
             (utf8.RuneError, 1%nat) = (r, w)
             /\ 128 <= r
             /\ (1 <= w <= len (String c s))%nat
             /\ all_high (take w (String c s)) = true
             /\ ((r = utf8.RuneError /\ w = 1%nat)
                 \/ utf8.EncodeRune r = take w (String c s))).
  { exists utf8.RuneError, 1%nat. cbn [take all_high len String.length].
    rewrite (high_true _ Hc). unfold utf8.RuneError.
    repeat split; try lia; auto. }
  unfold utf8.DecodeRuneInString.
  destruct (utf8.first (byte c)) as [| | sz lo hi] eqn:F.
  - apply first_as in F. lia.
  - exact Herr.
  - destruct s as [| c1 s2]; [exact Herr |].
    destruct (len (String c (String c1 s2)) <? sz)%nat eqn:Hlen; [exact Herr |].
    destruct ((byte c1 <? lo) || (hi <? byte c1)) eqn:Hrange; [exact Herr |].
    apply orb_false_iff in Hrange. destruct Hrange as [Hlo Hhi].
    apply Z.ltb_ge in Hlo. apply Z.ltb_ge in Hhi.
    pose proof (byte_range c) as Bc.
    apply first_multi in F.
    destruct F as [(-> & Hs0 & -> & ->) | [(-> & Hs0 & Hl & Hh & H224 & H237)
                                          | (-> & Hs0 & Hl & Hh & H240 & H244)]].
    + (* two bytes *)
      cbn [Nat.leb]. rewrite rune2_arith.
      exists ((byte c mod 32) * 64 + byte c1 mod 64), 2%nat.
      cbn [take all_high len String.length].
      rewrite !high_true by lia.
      repeat split; try lia.
      * Z.div_mod_to_equations; lia.
      * right. rewrite encode2 by lia. now rewrite !to_byte_byte.
    + (* three bytes *)
      cbn [Nat.leb].
      destruct s2 as [| c2 s3]; [discriminate Hlen |].
      destruct (utf8.continuation (byte c2)) eqn:Hc2; cbn [negb]; [| exact Herr].
      apply continuation_range in Hc2. rewrite rune3_arith.
      exists ((byte c mod 16) * 4096 + (byte c1 mod 64) * 64 + byte c2 mod 64), 3%nat.
      cbn [take all_high len String.length].
      rewrite !high_true by lia.
      repeat split; try lia.
      * Z.div_mod_to_equations; lia.
      * right. rewrite encode3 by lia. now rewrite !to_byte_byte.
    + (* four bytes *)
      cbn [Nat.leb].
      destruct s2 as [| c2 s3]; [discriminate Hlen |].
      destruct (utf8.continuation (byte c2)) eqn:Hc2; cbn [negb]; [| exact Herr].
      destruct s3 as [| c3 s4]; [discriminate Hlen |].
      destruct (utf8.continuation (byte c3)) eqn:Hc3; cbn [negb]; [| exact Herr].
      apply continuation_range in Hc2. apply continuation_range in Hc3.
      rewrite rune4_arith.
      exists ((byte c mod 8) * 262144 + (byte c1 mod 64) * 4096
              + (byte c2 mod 64) * 64 + byte c3 mod 64), 4%nat.
      cbn [take all_high len String.length].
      rewrite !high_true by lia.
      repeat split; try lia.
      * Z.div_mod_to_equations; lia.
      * right. rewrite encode4 by lia. now rewrite !to_byte_byte.
Qed.


(** *** Strings *)

Lemma append_nil_r (s : string) : s ++ EmptyString = s.
Proof. induction s; cbn; congruence. Qed.

Lemma append_assoc (a b c : string) : (a ++ b) ++ c = a ++ (b ++ c).
Proof. induction a; cbn; congruence. Qed.

Lemma len_append (a b : string) : len (a ++ b) = (len a + len b)%nat.
Proof. unfold len. induction a; cbn; congruence. Qed.

Lemma take_append (a b : string) : take (len a) (a ++ b) = a.
Proof. unfold len. induction a; cbn; congruence. Qed.

Lemma drop_append (a b : string) : drop (len a) (a ++ b) = b.
Proof. unfold len. induction a; cbn; congruence. Qed.

Lemma take_drop (n : nat) (s : string) : take n s ++ drop n s = s.
Proof. revert s. induction n; intros [| c s]; cbn; try reflexivity. now rewrite IHn. Qed.

Lemma len_take (n : nat) (s : string) : (n <= len s)%nat -> len (take n s) = n.
Proof.
  unfold len. revert s. induction n; intros [| c s]; cbn; intros H; try lia.
  rewrite IHn; lia.
Qed.

Lemma len_drop (n : nat) (s : string) : len (drop n s) = (len s - n)%nat.
Proof. unfold len. revert s. induction n; intros [| c s]; cbn; try lia. apply IHn. Qed.

Lemma len_zero (s : string) : len s = 0%nat -> s = EmptyString.
Proof. destruct s; cbn; [reflexivity | discriminate]. Qed.


Lemma ascii_eqb_byte (c d : ascii) : Ascii.eqb c d = (byte c =? byte d).
Proof.
  destruct (Ascii.eqb_spec c d) as [-> | Hne].
  - symmetry. apply Z.eqb_refl.
  - symmetry. apply Z.eqb_neq. intros H. apply Hne. now apply byte_inj.
Qed.

Lemma ContainsRune_byte (s : string) (c : ascii) :
  ContainsRune s (byte c) = mem c s.
Proof.
  induction s as [| d s IH]; cbn; [reflexivity |].
  now rewrite IH, ascii_eqb_byte.
Qed.

Lemma ContainsRune_high (s : string) (r : Z) :
  is_ascii s = true -> 128 <= r -> ContainsRune s r = false.
Proof.
  intros Hs Hr. induction s as [| d s IH]; cbn in *; [reflexivity |].
  apply andb_true_iff in Hs. destruct Hs as [Hd Hs]. apply Z.ltb_lt in Hd.
  rewrite IH by assumption.
  replace (byte d =? r) with false by (symmetry; apply Z.eqb_neq; lia).
  reflexivity.
Qed.

Lemma mem_high_false (s : string) (c : ascii) :
  is_ascii s = true -> 128 <= byte c -> mem c s = false.
Proof.
  intros Hs Hc. rewrite <- ContainsRune_byte. now apply ContainsRune_high.
Qed.

Lemma scan_bytes_high (w : nat) (s : string) (atStart : bool) :
  (1 <= w)%nat -> all_high (take w s) = true ->
  Unix.scan_bytes atStart s
  = option_map (append (take w s)) (Unix.scan_bytes false (drop w s)).
Proof.
  revert s atStart. induction w as [| w IH]; intros s atStart Hw Hh; [lia |].
  destruct s as [| c s]; [reflexivity |].
  cbn [take all_high] in Hh. apply andb_true_iff in Hh. destruct Hh as [Hc Hh].
  apply Z.leb_le in Hc.
  cbn [Unix.scan_bytes take drop].
  rewrite !(mem_high_false _ c) by (reflexivity || assumption).
  rewrite andb_false_r. cbn [orb].
  destruct w as [| w'].
  - cbn [take drop]. destruct (Unix.scan_bytes false s); reflexivity.
  - rewrite (IH s false) by (lia || assumption).
    destruct (Unix.scan_bytes false (drop (S w') s)); reflexivity.
Qed.


Lemma len_cons (c : ascii) (s : string) : len (String c s) = S (len s).
Proof. reflexivity. Qed.

Lemma EncodeRune_ascii (c : ascii) :
  byte c < 128 -> utf8.EncodeRune (byte c) = String c EmptyString.
Proof.
  intros H. unfold utf8.EncodeRune, utf8.rune1Max. pose proof (byte_range c).
  replace (0 <=? byte c) with true by (symmetry; apply Z.leb_le; lia).
  replace (byte c <=? 127) with true by (symmetry; apply Z.leb_le; lia).
  cbn. now rewrite to_byte_byte.
Qed.

Lemma quote_scan_bytes (fuel : nat) :
  forall (cur pending buf : string) (atStart : bool),
    (len cur <= fuel)%nat ->
    match Unix.scan_bytes atStart cur with
    | Some out =>
        exists b p,
          Unix.quote_scan fuel cur (pending ++ cur) atStart buf = Unix.ScanDone b p
          /\ b ++ p = buf ++ pending ++ out
    | None =>
        exists x,
          Unix.quote_scan fuel cur (pending ++ cur) atStart buf
          = Unix.GotoQuote (buf ++ x)
    end.
Proof.
  induction fuel as [| fuel IH]; intros cur pending buf atStart Hfuel.
  - apply Nat.le_0_r, len_zero in Hfuel. subst cur. cbn.
    exists buf, (pending ++ ""). split; reflexivity.
  - destruct cur as [| c cur'].
    + cbn. exists buf, (pending ++ ""). split; reflexivity.
    + rewrite len_cons in Hfuel.
      assert (Hf : (len cur' <= fuel)%nat) by lia.
      cbn [Unix.quote_scan]. change (0 <? len (String c cur'))%nat with true. cbn iota.
      destruct (Z.lt_ge_cases (byte c) 128) as [Hlow | Hhigh].
      * (* an ASCII byte is a rune of its own *)
        rewrite DecodeRune_ascii by assumption. cbn [drop Unix.scan_bytes].
        rewrite !ContainsRune_byte.
        destruct (mem c Unix.specialChars || atStart && mem c Unix.prefixChars) eqn:Hsp.
        -- replace (len cur' <? len (pending ++ String c cur'))%nat with true
             by (symmetry; apply Nat.ltb_lt; rewrite len_append, len_cons; lia).
           replace (len (pending ++ String c cur') - len cur' - 1)%nat with (len pending)
             by (rewrite len_append, len_cons; lia).
           rewrite take_append, EncodeRune_ascii by assumption.
           specialize (IH cur' EmptyString (((buf ++ pending) ++ "\") ++ String c "") false Hf).
           cbn [append] in IH.
           destruct (Unix.scan_bytes false cur') as [out |]; cbn [option_map].
           ++ destruct IH as (b & p & Hq & Hbp). exists b, p. split; [exact Hq |].
              rewrite Hbp. rewrite !append_assoc. reflexivity.
           ++ destruct IH as (x & Hq). exists ((pending ++ "\" ++ String c "") ++ x).
              rewrite Hq. rewrite !append_assoc. reflexivity.
        -- destruct (mem c Unix.extraSpecialChars) eqn:Hws.
           ++ exists EmptyString. now rewrite append_nil_r.
           ++ specialize (IH cur' (pending ++ String c "") buf false Hf).
              rewrite append_assoc in IH. cbn [append] in IH.
              destruct (Unix.scan_bytes false cur') as [out |]; cbn [option_map].
              ** destruct IH as (b & p & Hq & Hbp). exists b, p. split; [exact Hq |].
                 rewrite Hbp, append_assoc. reflexivity.
              ** exact IH.
      * (* a byte above ASCII starts a rune that is no special character *)
        destruct (DecodeRune_high c cur' Hhigh) as (r & w & Hd & Hr & Hw & Hh & _).
        rewrite Hd.
        rewrite !ContainsRune_high by (reflexivity || assumption).
        rewrite andb_false_r. cbn [orb]. cbn iota.
        rewrite (scan_bytes_high w) by (lia || assumption).
        pose proof (take_drop w (String c cur')) as Htd.
        specialize (IH (drop w (String c cur')) (pending ++ take w (String c cur')) buf false).
        rewrite append_assoc, Htd in IH.
        assert (Hl : (len (drop w (String c cur')) <= fuel)%nat)
          by (rewrite len_drop, len_cons; lia).
        specialize (IH Hl).
        destruct (Unix.scan_bytes false (drop w (String c cur'))) as [out |]; cbn [option_map].
        -- destruct IH as (b & p & Hq & Hbp). exists b, p. split; [exact Hq |].
           rewrite Hbp, append_assoc. reflexivity.
        -- exact IH.
Qed.

Lemma blank_not_special (c : ascii) (atStart : bool) :
  mem c Unix.extraSpecialChars = true ->
  mem c Unix.specialChars || atStart && mem c Unix.prefixChars = false.
Proof.
  unfold Unix.extraSpecialChars. cbn [mem].
  destruct (Ascii.eqb_spec " " c) as [<- | _]; [destruct atStart; reflexivity |].
  destruct (Ascii.eqb_spec tab c) as [<- | _]; [destruct atStart; reflexivity |].
  destruct (Ascii.eqb_spec newline c) as [<- | _]; [destruct atStart; reflexivity |].
  discriminate.
Qed.

Lemma scan_bytes_spec (token : string) (atStart : bool) :
  Unix.scan_bytes atStart token
  = if ContainsAny token QuoteSpec.posix_blank then None
    else Some (QuoteSpec.backslash_escape atStart token).
Proof.
  revert atStart. induction token as [| c token IH]; intros atStart; [reflexivity |].
  cbn [Unix.scan_bytes ContainsAny QuoteSpec.backslash_escape].
  change QuoteSpec.posix_blank with Unix.extraSpecialChars.
  change QuoteSpec.posix_special with Unix.specialChars.
  replace (Ascii.eqb c "~") with (mem c Unix.prefixChars)
    by (unfold Unix.prefixChars; cbn [mem]; rewrite orb_false_r; apply Ascii.eqb_sym).
  destruct (mem c Unix.extraSpecialChars) eqn:Hws.
  - rewrite (blank_not_special c atStart Hws). reflexivity.
  - cbn [orb]. rewrite IH.
    change QuoteSpec.posix_blank with Unix.extraSpecialChars.
    destruct (mem c Unix.specialChars || atStart && mem c Unix.prefixChars);
      destruct (ContainsAny token Unix.extraSpecialChars); reflexivity.
Qed.

Lemma IndexByte_some (w : string) (c : ascii) (i : nat) :
  IndexByte w c = Some i ->
  w = take i w ++ String c (drop (S i) w)
  /\ mem c (take i w) = false /\ len (take i w) = i.
Proof.
  revert i. induction w as [| d w IH]; intros i; cbn [IndexByte]; [discriminate |].
  destruct (Ascii.eqb_spec d c) as [-> | Hne].
  - intros [= <-]. cbn. auto.
  - destruct (IndexByte w c) as [j |]; [| discriminate].
    intros [= <-]. destruct (IH j eq_refl) as (Hw & Hm & Hl).
    change (take (S j) (String d w)) with (String d (take j w)).
    change (drop (S (S j)) (String d w)) with (drop (S j) w).
    cbn [append mem]. rewrite <- Hw, Hm, len_cons, Hl.
    destruct (Ascii.eqb_spec d c); [contradiction | auto].
Qed.

Lemma IndexByte_none (w : string) (c : ascii) :
  IndexByte w c = None -> mem c w = false.
Proof.
  induction w as [| d w IH]; cbn; [reflexivity |].
  destruct (Ascii.eqb d c); [discriminate |].
  destruct (IndexByte w c); [discriminate |]. intros _. now apply IH.
Qed.

Lemma split_no_sep (sep : ascii) (w : string) :
  mem sep w = false -> QuoteSpec.split sep w = [w].
Proof.
  induction w as [| d w IH]; cbn; [reflexivity |].
  destruct (Ascii.eqb d sep); [discriminate |]. cbn. intros H. now rewrite IH.
Qed.

Lemma split_at_sep (sep : ascii) (pre post : string) :
  mem sep pre = false ->
  QuoteSpec.split sep (pre ++ String sep post) = pre :: QuoteSpec.split sep post.
Proof.
  induction pre as [| d pre IH]; cbn.
  - intros _. now rewrite Ascii.eqb_refl.
  - destruct (Ascii.eqb d sep); [discriminate |]. cbn. intros H. now rewrite IH.
Qed.

Lemma split_nonempty (sep : ascii) (w : string) : QuoteSpec.split sep w <> [].
Proof.
  destruct w as [| d w]; cbn; [discriminate |].
  destruct (Ascii.eqb d sep); [discriminate |].
  destruct (QuoteSpec.split sep w); discriminate.
Qed.

Lemma single_quote_mode_none (w : string) :
  mem "'" w = false -> QuoteSpec.single_quote_mode w = QuoteSpec.in_quotes w.
Proof.
  intros H. unfold QuoteSpec.single_quote_mode. now rewrite split_no_sep.
Qed.

Lemma single_quote_mode_some (pre post : string) :
  mem "'" pre = false ->
  QuoteSpec.single_quote_mode (pre ++ String "'" post)
  = QuoteSpec.in_quotes pre ++ "\'" ++ QuoteSpec.single_quote_mode post.
Proof.
  intros H. unfold QuoteSpec.single_quote_mode. rewrite split_at_sep by assumption.
  pose proof (split_nonempty "'" post) as Hne.
  destruct (QuoteSpec.split "'" post) as [| p ps]; [contradiction |].
  reflexivity.
Qed.

Lemma quote_mode_spec (fuel : nat) :
  forall word buf : string,
    (len word <= fuel)%nat ->
    exists b rest,
      Unix.quote_mode fuel word false buf = (b, rest, false)
      /\ b ++ QuoteSpec.in_quotes rest = buf ++ QuoteSpec.single_quote_mode word.
Proof.
  induction fuel as [| fuel IH]; intros word buf Hfuel.
  - apply Nat.le_0_r, len_zero in Hfuel. subst word.
    exists buf, EmptyString. split; reflexivity.
  - destruct word as [| c word'].
    + exists buf, EmptyString. split; reflexivity.
    + set (word := String c word') in *.
      cbn [Unix.quote_mode]. change (0 <? len word)%nat with true. cbn iota.
      destruct (IndexByte word "'") as [i |] eqn:Hi.
      * destruct (IndexByte_some _ _ _ Hi) as (Hw & Hm & Hl).
        assert (Hrest : (len (drop (i + 1) word) <= fuel)%nat).
        { rewrite len_drop. subst word. rewrite len_cons in *. lia. }
        replace (i + 1)%nat with (S i) in * by lia.
        assert (Hsq : QuoteSpec.single_quote_mode word
                      = QuoteSpec.in_quotes (take i word) ++ "\'"
                          ++ QuoteSpec.single_quote_mode (drop (S i) word)).
        { etransitivity; [apply (f_equal QuoteSpec.single_quote_mode Hw) |].
          now apply single_quote_mode_some. }
        rewrite Hsq. clear Hsq.
        destruct i as [| i'].
        -- cbn [Nat.ltb Nat.leb negb]. cbn [take] in *.
           destruct (IH (drop 1 word) (buf ++ "\'") Hrest) as (b & rest & Hq & Hb).
           exists b, rest. split; [exact Hq |].
           rewrite Hb. cbn. now rewrite append_assoc.
        -- change (0 <? S i')%nat with true. cbn [negb]. cbn iota.
           destruct (IH (drop (S (S i')) word)
                        ((((buf ++ "'") ++ take (S i') word) ++ "'") ++ "\'") Hrest)
             as (b & rest & Hq & Hb).
           exists b, rest. split; [exact Hq |].
           rewrite Hb. unfold QuoteSpec.in_quotes.
           destruct (take (S i') word) as [| t ts] eqn:Ht; [discriminate Hl |].
           cbn [String.eqb]. rewrite !append_assoc. reflexivity.
      * exists buf, word. split; [reflexivity |].
        now rewrite single_quote_mode_none by (now apply IndexByte_none).
Qed.

Lemma quote_spec (word buf : string) :
  Unix.quote word buf = buf ++ QuoteSpec.posix_quote word.
Proof.
  unfold Unix.quote, QuoteSpec.posix_quote.
  destruct word as [| c word']; [reflexivity |].
  set (word := String c word').
  change (len word =? 0)%nat with false. change (String.eqb word "") with false.
  cbn iota.
  pose proof (quote_scan_bytes (len word) word EmptyString buf true (le_n _)) as Hs.
  rewrite scan_bytes_spec in Hs. cbn [append] in Hs.
  destruct (ContainsAny word QuoteSpec.posix_blank).
  - destruct Hs as (x & ->). rewrite take_append.
    destruct (quote_mode_spec (len word) word buf (le_n _)) as (b & rest & -> & Hb).
    rewrite <- Hb. unfold QuoteSpec.in_quotes.
    destruct rest as [| r rest'];
      [change (0 <? len "")%nat with false; cbn [String.eqb]; cbn iota;
       now rewrite append_nil_r |].
    change (0 <? len (String r rest'))%nat with true. cbn [negb String.eqb]. cbn iota.
    now rewrite !append_assoc.
  - destruct Hs as (b & p & -> & Hbp). rewrite <- Hbp.
    destruct p as [| q p'];
      [change (0 <? len "")%nat with false; cbn iota; now rewrite append_nil_r
      | reflexivity].
Qed.

Lemma joinArgs_loop_spec (args : list string) :
  forall (i : nat) (buf : string),
    Unix.joinArgs_loop i args buf
    = buf ++ (if (i =? 0)%nat then EmptyString
              else match args with [] => EmptyString | _ => " " end)
          ++ QuoteSpec.posix_quote_argv args.
Proof.
  induction args as [| arg args IH]; intros i buf.
  - cbn. destruct (i =? 0)%nat; now rewrite append_nil_r.
  - cbn [Unix.joinArgs_loop]. rewrite quote_spec, IH.
    unfold QuoteSpec.posix_quote_argv. cbn [map Nat.eqb].
    destruct (i =? 0)%nat; cbn [negb]; destruct args as [| arg' args'];
      cbn [map String.concat]; rewrite ?append_assoc; cbn [append];
      rewrite ?append_nil_r; reflexivity.
Qed.

(** C7.  The POSIX quoter is the contract of the specification: the tokens
    are quoted one by one and joined by single spaces; an empty token
    becomes two single quotes; a token with a space, tab or newline is
    written in single-quote mode, its embedded single quotes escaped; in
    any other token every special character, and a leading tilde, gets a
    backslash.  The seven rows of the scenario table come out as
    listed. *)
Theorem posix_joinArgs_spec :
  (forall args, Unix.joinArgs args = QuoteSpec.posix_quote_argv args)
  /\ Unix.joinArgs ["echo"; "test"] = "echo test"
  /\ Unix.joinArgs ["echo"; "hello goodbye"] = "echo 'hello goodbye'"
  /\ Unix.joinArgs ["echo"; "don't you know the dewey decimal system?"]
     = "echo 'don'\''t you know the dewey decimal system?'"
  /\ Unix.joinArgs ["echo"; "~user"; "u~ser"; " ~user"; "!~user"]
     = "echo \~user u~ser ' ~user' \!~user"
  /\ Unix.joinArgs ["echo"; "foo*"; "M{ovies,usic}"; "ab[cd]"; "%3"]
     = "echo foo\* M\{ovies,usic} ab\[cd] %3"
  /\ Unix.joinArgs ["echo"; "one"; ""; "three"] = "echo one '' three"
  /\ Unix.joinArgs ["echo"; "' "] = "echo \'' '".
Proof.
  split.
  - intros args. unfold Unix.joinArgs. rewrite joinArgs_loop_spec. reflexivity.
  - repeat split; vm_compute; reflexivity.
Qed.

(** The contract, token by token: what [posix_quote] writes in each of its
    three cases. *)
Lemma posix_quote_cases (token : string) :
  (token = EmptyString -> QuoteSpec.posix_quote token = "''")
  /\ (token <> EmptyString ->
      ContainsAny token QuoteSpec.posix_blank = false ->
      QuoteSpec.posix_quote token = QuoteSpec.backslash_escape true token)
  /\ (ContainsAny token QuoteSpec.posix_blank = true ->
      QuoteSpec.posix_quote token = QuoteSpec.single_quote_mode token).
Proof.
  unfold QuoteSpec.posix_quote. repeat split.
  - intros ->. reflexivity.
  - intros Hne Hb. destruct token; [contradiction |]. cbn [String.eqb]. now rewrite Hb.
  - intros Hb. destruct token; [discriminate |]. cbn [String.eqb]. now rewrite Hb.
Qed.

(** In single-quote mode a token without a single quote is put between
    single quotes, and a single quote between two non-empty pieces is
    written as quote, backslash, quote, quote. *)
Lemma single_quote_mode_embedded (pre post : string) :
  pre <> EmptyString -> post <> EmptyString ->
  mem "'" pre = false -> mem "'" post = false ->
  QuoteSpec.single_quote_mode (pre ++ String "'" post)
  = "'" ++ pre ++ "'\''" ++ post ++ "'".
Proof.
  intros Hpre Hpost Hm1 Hm2.
  rewrite single_quote_mode_some, single_quote_mode_none by assumption.
  unfold QuoteSpec.in_quotes.
  destruct pre; [contradiction |]. destruct post; [contradiction |].
  cbn [String.eqb]. rewrite !append_assoc. reflexivity.
Qed.


(** *** What the quoters keep apart *)

Lemma extend_push (cur : option string) (c : ascii) (t : string) :
  extend (push cur c) t = extend cur (String c t).
Proof.
  destruct cur as [w |]; destruct t as [| d t]; cbn; try reflexivity.
  all: now rewrite ?append_assoc.
Qed.

Lemma extend_extend (cur : option string) (a b : string) :
  extend (extend cur a) b = extend cur (a ++ b).
Proof.
  destruct a as [| c a]; [reflexivity |].
  destruct b as [| d b].
  - cbn [extend]. rewrite append_nil_r. reflexivity.
  - destruct cur as [w |]; cbn; now rewrite ?append_assoc.
Qed.

Lemma mem_special_false (c : ascii) :
  mem c Unix.specialChars = false ->
  Ascii.eqb c "'" = false /\ Ascii.eqb c "\" = false.
Proof.
  unfold Unix.specialChars. cbn [append mem]. intros H.
  apply orb_false_iff in H. destruct H as [H1 H].
  apply orb_false_iff in H. destruct H as [H2 _].
  rewrite (Ascii.eqb_sym c "'"), (Ascii.eqb_sym c "\"). auto.
Qed.

Lemma mem_blank_false (c : ascii) :
  mem c Unix.extraSpecialChars = false -> Ascii.eqb c " " = false.
Proof.
  unfold Unix.extraSpecialChars. cbn [mem]. intros H.
  apply orb_false_iff in H. destruct H as [H1 _].
  now rewrite Ascii.eqb_sym.
Qed.

(** The escaped text of a token reads back as the token. *)
Lemma words_backslash_escape (t : string) :
  forall (leading : bool) (cur : option string) (rest : string),
    ContainsAny t QuoteSpec.posix_blank = false ->
    words (QuoteSpec.backslash_escape leading t ++ rest) cur false
    = words rest (extend cur t) false.
Proof.
  induction t as [| c t IH]; intros leading cur rest Hb; [reflexivity |].
  cbn [ContainsAny] in Hb. apply orb_false_iff in Hb. destruct Hb as [Hc Hb].
  change QuoteSpec.posix_blank with Unix.extraSpecialChars in Hc.
  cbn [QuoteSpec.backslash_escape].
  change QuoteSpec.posix_special with Unix.specialChars.
  destruct (mem c Unix.specialChars || leading && Ascii.eqb c "~") eqn:Hs.
  - cbn [append words]. cbn [Ascii.eqb Bool.eqb]. cbn iota.
    rewrite (IH false (push cur c) rest Hb). now rewrite extend_push.
  - apply orb_false_iff in Hs. destruct Hs as [Hs _].
    destruct (mem_special_false c Hs) as [Hq Hbs].
    cbn [append words]. rewrite Hq, Hbs, (mem_blank_false c Hc).
    rewrite (IH false (push cur c) rest Hb). now rewrite extend_push.
Qed.

(** Inside single quotes everything up to the closing quote is literal. *)
Lemma words_in_quote (p : string) :
  forall (w rest : string),
    mem "'" p = false ->
    words (p ++ String "'" rest) (Some w) true = words rest (Some (w ++ p)) false.
Proof.
  induction p as [| c p IH]; intros w rest Hq.
  - cbn. now rewrite append_nil_r.
  - cbn [mem] in Hq. apply orb_false_iff in Hq. destruct Hq as [Hc Hq].
    cbn [append words]. rewrite Hc. unfold push.
    rewrite (IH _ rest Hq). now rewrite append_assoc.
Qed.

Lemma words_in_quotes (p : string) (cur : option string) (rest : string) :
  mem "'" p = false ->
  words (QuoteSpec.in_quotes p ++ rest) cur false = words rest (extend cur p) false.
Proof.
  intros Hq. unfold QuoteSpec.in_quotes.
  destruct p as [| c p]; [reflexivity |].
  change (String.eqb (String c p) "") with false. cbn iota.
  rewrite !append_assoc.
  change ("'" ++ (String c p ++ "'" ++ rest))
    with (String "'" (String c p ++ String "'" rest)).
  cbn [words]. cbn [Ascii.eqb Bool.eqb]. cbn iota.
  rewrite (words_in_quote (String c p) _ rest Hq).
  destruct cur; reflexivity.
Qed.

Lemma split_pieces (sep : ascii) (t : string) :
  Forall (fun p => mem sep p = false) (QuoteSpec.split sep t)
  /\ String.concat (String sep EmptyString) (QuoteSpec.split sep t) = t.
Proof.
  induction t as [| c t [IH1 IH2]]; [split; [repeat constructor | reflexivity] |].
  cbn [QuoteSpec.split].
  destruct (Ascii.eqb_spec c sep) as [-> | Hne].
  - split; [constructor; [reflexivity | exact IH1] |].
    pose proof (split_nonempty sep t) as Hn.
    cbn [String.concat]. destruct (QuoteSpec.split sep t); [contradiction |].
    cbn [append]. now rewrite IH2.
  - pose proof (split_nonempty sep t) as Hn.
    destruct (QuoteSpec.split sep t) as [| p ps]; [contradiction |].
    pose proof (Forall_inv IH1) as Hp. pose proof (Forall_inv_tail IH1) as Hps.
    cbn beta in Hp.
    split.
    + constructor; [| exact Hps]. cbn [mem]. rewrite Hp.
      destruct (Ascii.eqb_spec c sep); [contradiction | reflexivity].
    + rewrite <- IH2. destruct ps as [| q ps]; reflexivity.
Qed.

Lemma words_pieces (pieces : list string) :
  forall (cur : option string) (rest : string),
    pieces <> [] ->
    Forall (fun p => mem "'" p = false) pieces ->
    words (String.concat "\'" (map QuoteSpec.in_quotes pieces) ++ rest) cur false
    = words rest (extend cur (String.concat "'" pieces)) false.
Proof.
  induction pieces as [| p pieces IH]; intros cur rest Hne Hall; [contradiction |].
  inversion Hall as [| ? ? Hp Hps]; subst.
  destruct pieces as [| q pieces].
  - cbn [map String.concat]. now apply words_in_quotes.
  - change (String.concat "\'" (map QuoteSpec.in_quotes (p :: q :: pieces)))
      with (QuoteSpec.in_quotes p
            ++ "\'" ++ String.concat "\'" (map QuoteSpec.in_quotes (q :: pieces))).
    change (String.concat "'" (p :: q :: pieces))
      with (p ++ "'" ++ String.concat "'" (q :: pieces)).
    rewrite append_assoc. rewrite (words_in_quotes p cur _ Hp).
    rewrite append_assoc.
    change ("\'" ++ (String.concat "\'" (map QuoteSpec.in_quotes (q :: pieces)) ++ rest))
      with (String "\" (String "'"
              (String.concat "\'" (map QuoteSpec.in_quotes (q :: pieces)) ++ rest))).
    cbn [words]. cbn [Ascii.eqb Bool.eqb]. cbn iota.
    rewrite (IH _ rest ltac:(discriminate) Hps).
    rewrite extend_push.
    change (String "'" (String.concat "'" (q :: pieces)))
      with ("'" ++ String.concat "'" (q :: pieces)).
    now rewrite extend_extend.
Qed.

(** A quoted token reads back as the token. *)
Lemma words_posix_quote (w rest : string) :
  words (QuoteSpec.posix_quote w ++ rest) None false = words rest (Some w) false.
Proof.
  unfold QuoteSpec.posix_quote.
  destruct w as [| c w]; [reflexivity |].
  change (String.eqb (String c w) "") with false. cbn iota.
  destruct (ContainsAny (String c w) QuoteSpec.posix_blank) eqn:Hb.
  - unfold QuoteSpec.single_quote_mode.
    destruct (split_pieces "'" (String c w)) as [Hall Hcat].
    rewrite (words_pieces _ None rest (split_nonempty _ _) Hall).
    rewrite Hcat. reflexivity.
  - rewrite (words_backslash_escape (String c w) true None rest Hb). reflexivity.
Qed.

Lemma words_posix_quote_argv (args : list string) :
  words (QuoteSpec.posix_quote_argv args) None false = args.
Proof.
  unfold QuoteSpec.posix_quote_argv.
  induction args as [| a args IH]; [reflexivity |].
  destruct args as [| b args].
  - cbn [map String.concat].
    rewrite <- (append_nil_r (QuoteSpec.posix_quote a)).
    rewrite words_posix_quote. reflexivity.
  - change (String.concat " " (map QuoteSpec.posix_quote (a :: b :: args)))
      with (QuoteSpec.posix_quote a
            ++ String " " (String.concat " " (map QuoteSpec.posix_quote (b :: args)))).
    rewrite words_posix_quote. cbn [words]. cbn [Ascii.eqb Bool.eqb]. cbn iota.
    now rewrite IH.
Qed.

Lemma Unix_joinArgs_argv (args : list string) :
  Unix.joinArgs args = QuoteSpec.posix_quote_argv args.
Proof.
  unfold Unix.joinArgs. rewrite joinArgs_loop_spec. reflexivity.
Qed.

(** X7.  The POSIX quoter never confuses two commands: argument vectors that
    differ, in the number of their arguments or in any byte of one, are
    joined to different command lines.  Empty arguments, arguments with
    blanks or quotes and bytes that are not UTF-8 are all kept apart. *)
Theorem posix_joinArgs_injective (args1 args2 : list string) :
  Unix.joinArgs args1 = Unix.joinArgs args2 -> args1 = args2.
Proof.
  rewrite !Unix_joinArgs_argv. intros H.
  rewrite <- (words_posix_quote_argv args1), <- (words_posix_quote_argv args2).
  now rewrite H.
Qed.

Lemma backslash_escape_plain (t : string) :
  ContainsAny t Unix.specialChars = false ->
  QuoteSpec.backslash_escape false t = t.
Proof.
  induction t as [| c t IH]; [reflexivity |].
  cbn [ContainsAny]. intros H. apply orb_false_iff in H. destruct H as [Hc Ht].
  cbn [QuoteSpec.backslash_escape].
  change QuoteSpec.posix_special with Unix.specialChars.
  rewrite Hc. cbn [orb andb append]. now rewrite (IH Ht).
Qed.

Lemma plain_inv (t : string) :
  plain t = true ->
  String.eqb t EmptyString = false
  /\ ContainsAny t Unix.specialChars = false
  /\ ContainsAny t Unix.extraSpecialChars = false
  /\ HasPrefix t Unix.prefixChars = false
  /\ ContainsAny t Windows.quoteChars = false.
Proof.
  unfold plain. intros H.
  apply andb_true_iff in H. destruct H as [H H5].
  apply andb_true_iff in H. destruct H as [H H4].
  apply andb_true_iff in H. destruct H as [H H3].
  apply andb_true_iff in H. destruct H as [H1 H2].
  apply negb_true_iff in H1, H2, H3, H4, H5. auto.
Qed.

Lemma posix_quote_plain (t : string) : plain t = true -> QuoteSpec.posix_quote t = t.
Proof.
  intros H. destruct (plain_inv t H) as (H1 & H2 & H3 & H4 & _).
  unfold QuoteSpec.posix_quote. rewrite H1.
  change QuoteSpec.posix_blank with Unix.extraSpecialChars.
  rewrite H3.
  destruct t as [| c t]; [discriminate |].
  cbn [ContainsAny] in H2. apply orb_false_iff in H2. destruct H2 as [Hc Ht].
  cbn [QuoteSpec.backslash_escape].
  change QuoteSpec.posix_special with Unix.specialChars. rewrite Hc.
  assert (Htilde : Ascii.eqb c "~" = false).
  { unfold HasPrefix, Unix.prefixChars in H4. cbn [String.prefix] in H4.
    destruct (ascii_dec "~" c) as [<- | Hne].
    - destruct t; discriminate.
    - apply Ascii.eqb_neq. congruence. }
  rewrite Htilde. cbn [orb andb append]. now rewrite backslash_escape_plain.
Qed.

Lemma concat_empty_cons (x : string) (xs : list string) :
  String.concat EmptyString (x :: xs) = x ++ String.concat EmptyString xs.
Proof. destruct xs; cbn; now rewrite ?append_nil_r. Qed.

Lemma Windows_loop_plain (args : list string) :
  forall (i : nat) (b : string),
    forallb plain args = true ->
    Windows.joinArgs_loop (S i) args b
    = b ++ String.concat EmptyString (map (fun arg => " " ++ arg) args).
Proof.
  induction args as [| a args IH]; intros i b Hall.
  - cbn. now rewrite append_nil_r.
  - cbn [forallb] in Hall. apply andb_true_iff in Hall. destruct Hall as [Ha Hall].
    destruct (plain_inv a Ha) as (H1 & _ & _ & _ & H5).
    cbn [Windows.joinArgs_loop Nat.eqb]. rewrite H1, H5. cbn [negb].
    rewrite (IH (S i) _ Hall). cbn [map]. rewrite concat_empty_cons.
    now rewrite !append_assoc.
Qed.

Lemma concat_space_plain (args : list string) (a : string) :
  a ++ String.concat EmptyString (map (fun arg => " " ++ arg) args)
  = String.concat " " (a :: args).
Proof.
  revert a. induction args as [| b args IH]; intros a.
  - cbn. now rewrite append_nil_r.
  - cbn [map]. rewrite concat_empty_cons.
    rewrite <- append_assoc. rewrite <- append_assoc.
    rewrite (IH ((a ++ " ") ++ b)).
    cbn [String.concat]. destruct args; now rewrite ?append_assoc.
Qed.

(** X8.  A command line of plain words reaches the shell as it was typed: when
    no argument is empty, starts with a tilde or holds a character that
    either quoter quotes, both quoters join the arguments with single
    spaces and change nothing else, so on such commands the shell wrapping
    is the same on every platform. *)
Theorem plain_words_pass_unquoted (args : list string) :
  forallb plain args = true ->
  Unix.joinArgs args = String.concat " " args
  /\ Windows.joinArgs args = String.concat " " args.
Proof.
  intros Hall. split.
  - rewrite Unix_joinArgs_argv. unfold QuoteSpec.posix_quote_argv. f_equal.
    induction args as [| a args IH]; [reflexivity |].
    cbn [forallb] in Hall. apply andb_true_iff in Hall. destruct Hall as [Ha Hall].
    cbn [map]. now rewrite (posix_quote_plain a Ha), (IH Hall).
  - unfold Windows.joinArgs. destruct args as [| a args]; [reflexivity |].
    cbn [forallb] in Hall. apply andb_true_iff in Hall. destruct Hall as [_ Hall].
    cbn [Windows.joinArgs_loop Nat.eqb append].
    rewrite (Windows_loop_plain args 0 a Hall).
    apply concat_space_plain.
Qed.


(** *** The PowerShell quoter *)

Lemma windows_loop_rest (args : list string) :
  forall (i : nat) (b : string),
    Windows.joinArgs_loop (S i) args b
    = b ++ String.concat EmptyString
             (map (fun arg => " " ++ QuoteSpec.pwsh_quote arg) args).
Proof.
  induction args as [| arg args IH]; intros i b.
  - cbn. now rewrite append_nil_r.
  - assert (Hq : Windows.joinArgs_loop (S i) (arg :: args) b
                 = Windows.joinArgs_loop (S (S i)) args
                     ((b ++ " ") ++ QuoteSpec.pwsh_quote arg)).
    { cbn [Windows.joinArgs_loop Nat.eqb]. cbn iota.
      unfold QuoteSpec.pwsh_quote.
      change QuoteSpec.pwsh_special with Windows.quoteChars.
      destruct (String.eqb arg ""); [reflexivity |].
      destruct (ContainsAny arg Windows.quoteChars); reflexivity. }
    rewrite Hq, IH. cbn [map]. rewrite !append_assoc.
    destruct args as [| a args']; cbn [map String.concat].
    + now rewrite !append_nil_r.
    + cbn [append]. now rewrite ?append_assoc.
Qed.

Lemma concat_space (q : string -> string) (args : list string) (arg0 : string) :
  arg0 ++ String.concat EmptyString (map (fun arg => " " ++ q arg) args)
  = String.concat " " (arg0 :: map q args).
Proof.
  revert arg0. induction args as [| a args IH]; intros arg0.
  - cbn. now rewrite append_nil_r.
  - cbn [map]. change (String.concat " " (arg0 :: q a :: map q args))
      with (arg0 ++ " " ++ String.concat " " (q a :: map q args)).
    rewrite <- IH. destruct args as [| a' args']; cbn [map String.concat].
    + now rewrite !append_nil_r.
    + cbn [append]. now rewrite ?append_assoc.
Qed.

(** C8, as the code has it.  The first token of the argv, the command
    name, is written as it is, whatever it holds; every later token is
    quoted as the specification says (an empty token becomes two single
    quotes, a token with one of the listed characters is single-quoted with
    its single quotes doubled, any other token is written as it is), and
    the tokens are joined by single spaces. *)
Theorem windows_joinArgs_spec :
  Windows.joinArgs [] = EmptyString
  /\ forall arg0 args,
      Windows.joinArgs (arg0 :: args)
      = String.concat " " (arg0 :: map QuoteSpec.pwsh_quote args).
Proof.
  split; [reflexivity |].
  intros arg0 args. unfold Windows.joinArgs.
  cbn [Windows.joinArgs_loop Nat.eqb]. cbn iota.
  rewrite windows_loop_rest. cbn [append]. apply concat_space.
Qed.

(** C8 as stated fails on the first token: a command name with a space is
    not quoted, and an empty one is not written as two single quotes. *)
Lemma windows_joinArgs_first_token_unquoted :
  Windows.joinArgs ["hello world"; "x"] = "hello world x"
  /\ QuoteSpec.pwsh_quote_argv ["hello world"; "x"] = "'hello world' x"
  /\ Windows.joinArgs [""; "x"] = " x"
  /\ QuoteSpec.pwsh_quote_argv [""; "x"] = "'' x"
  /\ ~ (forall argv, Windows.joinArgs argv = QuoteSpec.pwsh_quote_argv argv).
Proof.
  repeat split; try (vm_compute; reflexivity).
  intros H. specialize (H ["hello world"; "x"]). vm_compute in H. discriminate H.
Qed.


(** *** The command chain of [WgoCommand] *)

Lemma unescape_allColons (arg : string) :
  (if allColons arg then drop 1 arg else arg) = ParserSpec.unescape arg.
Proof.
  unfold allColons, ParserSpec.unescape.
  replace (2 <? len arg)%nat with (3 <=? len arg)%nat; [reflexivity |].
  destruct (Nat.leb_spec 3 (len arg)); symmetry;
    [apply Nat.ltb_lt | apply Nat.ltb_ge]; lia.
Qed.

Lemma append_to_last_snoc (init : list (list string)) (l : list string) (arg : string) :
  append_to_last (init ++ [l]) arg = (init ++ [l ++ [arg]])%list.
Proof.
  induction init as [| a init IH]; [reflexivity |].
  cbn [app append_to_last]. rewrite IH.
  destruct (init ++ [l])%list eqn:E; [destruct init; discriminate | reflexivity].
Qed.

Lemma argvs_nonempty (tokens : list string) : ParserSpec.argvs tokens <> [].
Proof.
  destruct tokens as [| t ts]; cbn; [discriminate |].
  destruct (String.eqb t "::"); [discriminate |].
  destruct (ParserSpec.argvs ts); discriminate.
Qed.

(** The loop over the positional tokens extends the last argv of the chain
    it starts from with the first argv of the split, and appends the
    others. *)
Lemma chain_loop_argvs (tokens : list string) :
  forall (init : list (list string)) (l : list string),
    chain_loop tokens (init ++ [l])
    = (init ++ match ParserSpec.argvs tokens with
               | argv :: rest => (l ++ argv) :: rest
               | [] => [l]
               end)%list.
Proof.
  induction tokens as [| t ts IH]; intros init l.
  - cbn. now rewrite app_nil_r.
  - cbn [chain_loop ParserSpec.argvs].
    pose proof (argvs_nonempty ts) as Hne.
    destruct (String.eqb t "::").
    + rewrite (IH (init ++ [l])%list []).
      destruct (ParserSpec.argvs ts) as [| a rest]; [contradiction |].
      cbn [app]. now rewrite <- app_assoc, app_nil_r.
    + rewrite unescape_allColons, append_to_last_snoc, IH.
      destruct (ParserSpec.argvs ts) as [| a rest]; [contradiction |].
      now rewrite <- app_assoc.
Qed.

Lemma length_argvs (tokens : list string) :
  List.length (ParserSpec.argvs tokens)
  = S (count_occ string_dec tokens "::").
Proof.
  induction tokens as [| t ts IH]; [reflexivity |].
  cbn [ParserSpec.argvs count_occ].
  destruct (String.eqb_spec t "::") as [-> | Hne].
  - destruct (string_dec "::" "::"); [| contradiction]. cbn. now rewrite IH.
  - destruct (string_dec t "::"); [contradiction |].
    pose proof (argvs_nonempty ts).
    destruct (ParserSpec.argvs ts); [contradiction | exact IH].
Qed.

Lemma argvs_no_separator (tokens : list string) :
  count_occ string_dec tokens "::" = 0%nat ->
  ParserSpec.argvs tokens = [map ParserSpec.unescape tokens].
Proof.
  induction tokens as [| t ts IH]; [reflexivity |].
  cbn [ParserSpec.argvs count_occ map].
  destruct (String.eqb_spec t "::") as [-> | Hne].
  - destruct (string_dec "::" "::"); [discriminate | contradiction].
  - destruct (string_dec t "::"); [contradiction |].
    intros H. now rewrite (IH H).
Qed.


(** *** [flag.Parse] has fuel enough *)

Section FlagFuel.
  Variable S : Type.
  Variable formal : flag.FlagSet S.

Lemma parseOne_consumes (st st' : S) (args args' : list string) :
    flag.parseOne S formal st args = Ok (true, st', args') ->
    (List.length args' < List.length args)%nat.
  Proof.
    unfold flag.parseOne. destruct args as [| s rest]; [discriminate |].
    destruct ((len s <? 2)%nat || negb (HasPrefix s "-")); [discriminate |].
    destruct (((if HasPrefix (drop 1 s) "-" then 2%nat else 1%nat) =? 2)%nat
              && (len s =? 2)%nat); [discriminate |].
    match goal with |- context [if ?c then Err _ else _] => destruct c end;
      [discriminate |].
    match goal with |- context [flag.split_value ?n 0] =>
      destruct (flag.split_value n 0) as [[n' v'] |] end.
    - destruct (flag.lookup S formal n') as [[set | set | fn] |].
      + destruct (flag.ParseBool v'); [| discriminate].
        intros [= _ <-]. cbn. lia.
      + intros [= _ <-]. cbn. lia.
      + cbn. destruct (fn v' st); [| discriminate]. intros [= _ <-]. cbn. lia.
      + destruct (String.eqb n' "help" || String.eqb n' "h"); discriminate.
    - match goal with |- context [flag.lookup S formal ?n] =>
        destruct (flag.lookup S formal n) as [[set | set | fn] |] end.
      + intros [= _ <-]. cbn. lia.
      + destruct rest as [| a rest']; [discriminate |].
        cbn. intros [= _ <-]. cbn. lia.
      + destruct rest as [| a rest']; [discriminate |].
        cbn. destruct (fn a st); [| discriminate]. intros [= _ <-]. cbn. lia.
      + match goal with |- context [if ?c then Err ErrHelp else _] => destruct c end;
          discriminate.
  Qed.

  (** With more rounds than arguments, [Parse_loop] never runs out: any
      larger fuel gives the same result. *)
Lemma Parse_loop_fuel (fuel : nat) :
    forall (extra : nat) (st : S) (args : list string),
      (List.length args < fuel)%nat ->
      flag.Parse_loop S (fuel + extra) formal st args
      = flag.Parse_loop S fuel formal st args.
  Proof.
    induction fuel as [| fuel IH]; intros extra st args Hlen; [lia |].
    cbn [Nat.add flag.Parse_loop].
    destruct (flag.parseOne S formal st args) as [[[seen st'] args'] | e] eqn:Hp;
      [| reflexivity].
    destruct seen; [| reflexivity].
    apply parseOne_consumes in Hp. apply IH. lia.
  Qed.
End FlagFuel.

(** *** What the flags leave alone *)

Section FlagInvariant.
  Variable S : Type.
  Variable P : S -> Prop.

Lemma lookup_keeps (formal : flag.FlagSet S) (name : string) (v : flag.Value S) :
    Forall (fun nv => flag.keeps S P (snd nv)) formal ->
    flag.lookup S formal name = Some v -> flag.keeps S P v.
  Proof.
    induction 1 as [| [n w] l Hw Hl IH]; cbn; [discriminate |].
    destruct (String.eqb n name); [intros [= <-]; exact Hw | exact IH].
  Qed.

  Variable formal : flag.FlagSet S.
  Hypothesis formal_keeps : Forall (fun nv => flag.keeps S P (snd nv)) formal.

Lemma parseOne_keeps (st st' : S) (args args' : list string) (seen : bool) :
    P st -> flag.parseOne S formal st args = Ok (seen, st', args') -> P st'.
  Proof.
    intros HP. unfold flag.parseOne. destruct args as [| s rest]; [now intros [= _ <- _] |].
    destruct ((len s <? 2)%nat || negb (HasPrefix s "-")); [now intros [= _ <- _] |].
    destruct (((if HasPrefix (drop 1 s) "-" then 2%nat else 1%nat) =? 2)%nat
              && (len s =? 2)%nat); [now intros [= _ <- _] |].
    match goal with |- context [if ?c then Err _ else _] => destruct c end;
      [discriminate |].
    match goal with |- context [flag.split_value ?n 0] =>
      destruct (flag.split_value n 0) as [[n' v'] |] end.
    - destruct (flag.lookup S formal n') as [[set | set | fn] |] eqn:Hl.
      + apply (lookup_keeps _ _ _ formal_keeps) in Hl. destruct (flag.ParseBool v'); [| discriminate].
        intros [= _ <- _]. now apply Hl.
      + apply (lookup_keeps _ _ _ formal_keeps) in Hl. intros [= _ <- _]. now apply Hl.
      + apply (lookup_keeps _ _ _ formal_keeps) in Hl. cbn. destruct (fn v' st) eqn:Hf; [| discriminate].
        intros [= _ <- _]. exact (Hl _ _ _ HP Hf).
      + destruct (String.eqb n' "help" || String.eqb n' "h"); discriminate.
    - match goal with |- context [flag.lookup S formal ?n] =>
        destruct (flag.lookup S formal n) as [[set | set | fn] |] eqn:Hl end.
      + apply (lookup_keeps _ _ _ formal_keeps) in Hl. intros [= _ <- _]. now apply Hl.
      + apply (lookup_keeps _ _ _ formal_keeps) in Hl. destruct rest as [| a rest']; [discriminate |].
        cbn. intros [= _ <- _]. now apply Hl.
      + apply (lookup_keeps _ _ _ formal_keeps) in Hl. destruct rest as [| a rest']; [discriminate |].
        cbn. destruct (fn a st) eqn:Hf; [| discriminate].
        intros [= _ <- _]. exact (Hl _ _ _ HP Hf).
      + match goal with |- context [if ?c then Err ErrHelp else _] => destruct c end;
          discriminate.
  Qed.

Lemma Parse_loop_keeps (fuel : nat) :
    forall (st st' : S) (args args' : list string),
      P st -> flag.Parse_loop S fuel formal st args = Ok (st', args') -> P st'.
  Proof.
    induction fuel as [| fuel IH]; intros st st' args args' HP; cbn.
    - now intros [= <- _].
    - destruct (flag.parseOne S formal st args) as [[[seen st1] args1] | e] eqn:Hp;
        [| discriminate].
      pose proof (parseOne_keeps _ _ _ _ _ HP Hp) as HP1.
      destruct seen; [now apply IH | now intros [= <- _]].
  Qed.
End FlagInvariant.

Section ParserFacts.
  Context {RE : RegexpPkg}.
  Variable host : Host.

Lemma flagset_keeps (is_run b : bool) :
    Forall (fun nv => flag.keeps ParseState (untouched b) (snd nv)) (flagset host is_run).
  Proof.
    unfold flagset, wgo_flags, str_build_flags, regexp_flag, untouched.
    destruct is_run; cbn [app map strFlagNames boolFlagNames bool_build_flags];
      repeat constructor; cbn; intros; try tauto;
      repeat match goal with
             | H : match ?x with _ => _ end = Ok _ |- _ =>
                 destruct x; [| discriminate H]
             | H : match ?x with _ => _ end = Ok _ |- _ =>
                 destruct x; [discriminate H |]
             | H : Ok _ = Ok _ |- _ => injection H as <-
             end; cbn; tauto.
  Qed.

Lemma Parse_untouched (is_run : bool) (cwd : string) (args flagArgs : list string)
        (st : ParseState) :
    flag.Parse ParseState (flagset host is_run) (initial_state cwd is_run) args
    = Ok (st, flagArgs) ->
    untouched is_run st.
  Proof.
    apply Parse_loop_keeps; [apply flagset_keeps |].
    unfold untouched, initial_state. cbn. auto.
  Qed.
End ParserFacts.


(** *** The chain that [WgoCommand] builds *)

Section WgoCommandFacts.
  Context {RE : RegexpPkg}.
  Variable host : Host.

Lemma WgoCommand_run (wgoNumber : nat) (rest : list string) (cmd : WgoCmd) :
    WgoCommand host wgoNumber ("run" :: rest) = Ok cmd ->
    exists cwd st package program_args,
      os_Getwd host = Some cwd
      /\ flag.Parse ParseState (flagset host true) (initial_state cwd true) rest
         = Ok (st, package :: program_args)
      /\ isRun cmd = true
      /\ executablePath cmd = ParserSpec.temp_binary host
      /\ ArgsList cmd = chain_loop program_args [ParserSpec.build_argv host st package; [ParserSpec.temp_binary host]].
  Proof.
    unfold WgoCommand. cbn [String.eqb Ascii.eqb Bool.eqb tl].
    destruct (os_Getwd host) as [cwd |]; [| discriminate].
    destruct (flag.Parse ParseState (flagset host true) (initial_state cwd true) rest)
      as [[st flagArgs] | e] eqn:Hparse; [| discriminate].
    destruct (Parse_untouched host true cwd rest flagArgs st Hparse) as (Hrun & _ & _).
    match goal with |- context [match ?d with Some _ => _ | None => Err (ErrDuration "debounce" _) end] =>
      destruct d as [d' |]; [| discriminate] end.
    match goal with |- context [match ?d with Some _ => _ | None => Err (ErrDuration "poll" _) end] =>
      destruct d as [p' |]; [| discriminate] end.
    destruct flagArgs as [| package program_args]; [discriminate |].
    intros [= <-].
    exists cwd, st, package, program_args.
    split; [reflexivity |]. split; [exact Hparse |].
    split; [| split; reflexivity].
    destruct (verbose st); [destruct (1 <? wgoNumber)%nat |]; cbn; exact Hrun.
  Qed.

Lemma WgoCommand_plain (wgoNumber : nat) (args : list string) (cmd : WgoCmd) :
    match args with a :: _ => String.eqb a "run" | [] => false end = false ->
    WgoCommand host wgoNumber args = Ok cmd ->
    exists cwd st flagArgs,
      os_Getwd host = Some cwd
      /\ flag.Parse ParseState (flagset host false) (initial_state cwd false) args
         = Ok (st, flagArgs)
      /\ isRun cmd = false
      /\ ArgsList cmd = ParserSpec.argvs flagArgs.
  Proof.
    intros Hplain. unfold WgoCommand. rewrite Hplain.
    destruct (os_Getwd host) as [cwd |]; [| discriminate].
    destruct (flag.Parse ParseState (flagset host false) (initial_state cwd false) args)
      as [[st flagArgs] | e] eqn:Hparse; [| discriminate].
    destruct (Parse_untouched host false cwd args flagArgs st Hparse) as (Hrun & Hargs & _).
    match goal with |- context [match ?d with Some _ => _ | None => Err (ErrDuration "debounce" _) end] =>
      destruct d as [d' |]; [| discriminate] end.
    match goal with |- context [match ?d with Some _ => _ | None => Err (ErrDuration "poll" _) end] =>
      destruct d as [p' |]; [| discriminate] end.
    intros [= <-].
    exists cwd, st, flagArgs.
    split; [reflexivity |]. split; [exact Hparse |]. split.
    - destruct (verbose st); [destruct (1 <? wgoNumber)%nat |]; cbn; exact Hrun.
    - assert (Hal : forall c, ArgsList c = [] ->
                chain_loop flagArgs (ArgsList c ++ [[]]) = ParserSpec.argvs flagArgs).
      { intros c ->. rewrite (chain_loop_argvs flagArgs [] []). cbn [app].
        pose proof (argvs_nonempty flagArgs).
        destruct (ParserSpec.argvs flagArgs); [contradiction | reflexivity]. }
      destruct (verbose st); [destruct (1 <? wgoNumber)%nat |]; cbn; apply Hal;
        cbn; exact Hargs.
  Qed.

  (** C1, as the code has it.  In run mode the chain starts with the
      synthesized build invocation and the temp binary with the program
      arguments up to the first [::] (escape-decoded); every [::] after the
      package is accepted and starts a further argv.  So the chain has two
      argvs plus one for each [::] among the program arguments, and exactly
      the two of the specification when there is none. *)
Theorem run_mode_chain (wgoNumber : nat) (rest : list string) (cmd : WgoCmd) :
    WgoCommand host wgoNumber ("run" :: rest) = Ok cmd ->
    exists cwd st package program_args argv1 more,
      os_Getwd host = Some cwd
      /\ flag.Parse ParseState (flagset host true) (initial_state cwd true) rest
         = Ok (st, package :: program_args)
      /\ ParserSpec.argvs program_args = argv1 :: more
      /\ isRun cmd = true
      /\ ArgsList cmd
         = ParserSpec.build_argv host st package :: (executablePath cmd :: argv1) :: more
      /\ List.length (ArgsList cmd)
         = (2 + count_occ string_dec program_args "::")%nat
      /\ (count_occ string_dec program_args "::" = 0%nat ->
          ArgsList cmd
          = [ParserSpec.build_argv host st package;
             executablePath cmd :: map ParserSpec.unescape program_args]).
  Proof.
    intros H. destruct (WgoCommand_run _ _ _ H)
      as (cwd & st & package & program_args & Hwd & Hparse & Hrun & Hexe & Hargs).
    pose proof (argvs_nonempty program_args) as Hne.
    pose proof (length_argvs program_args) as Hlen.
    destruct (ParserSpec.argvs program_args) as [| argv1 more] eqn:Hsplit;
      [contradiction |].
    assert (Hchain : ArgsList cmd
                     = ParserSpec.build_argv host st package :: (executablePath cmd :: argv1) :: more).
    { rewrite Hargs, Hexe.
      change [ParserSpec.build_argv host st package; [ParserSpec.temp_binary host]]
        with ([ParserSpec.build_argv host st package] ++ [[ParserSpec.temp_binary host]])%list.
      rewrite chain_loop_argvs, Hsplit. reflexivity. }
    exists cwd, st, package, program_args, argv1, more.
    repeat split; try assumption.
    - rewrite Hchain. cbn [List.length] in *. lia.
    - intros Hnone. rewrite Hchain.
      rewrite (argvs_no_separator _ Hnone) in Hsplit.
      now injection Hsplit as <- <-.
  Qed.

  (** When the flags parse, a package is given and the durations parse,
      [WgoCommand] returns a command in run mode. *)
Lemma WgoCommand_run_returns (wgoNumber : nat) (rest : list string)
        (cwd : string) (st : ParseState) (package : string)
        (program_args : list string) (d p : Z) :
    os_Getwd host = Some cwd ->
    flag.Parse ParseState (flagset host true) (initial_state cwd true) rest
    = Ok (st, package :: program_args) ->
    (if String.eqb (debounce st) EmptyString then Some (300 * Millisecond)
     else time_ParseDuration host (debounce st)) = Some d ->
    (if String.eqb (poll st) EmptyString then Some 0
     else time_ParseDuration host (poll st)) = Some p ->
    exists cmd, WgoCommand host wgoNumber ("run" :: rest) = Ok cmd.
  Proof.
    intros Hwd Hparse Hd Hp. unfold WgoCommand.
    cbn [String.eqb Ascii.eqb Bool.eqb tl]. rewrite Hwd, Hparse, Hd.
    destruct (Parse_untouched host true cwd rest _ st Hparse) as (_ & _ & _).
    assert (Hpoll : forall c : WgoCmd, PollDuration c = 0 ->
               (if negb (String.eqb (poll st) "") then time_ParseDuration host (poll st)
                else Some (PollDuration c)) = Some p).
    { intros c ->. destruct (String.eqb (poll st) ""); exact Hp. }
    rewrite Hpoll; [eexists; reflexivity |].
    assert (Hkeep : PollDuration (wgoCmd_ st) = 0).
    { revert Hparse. apply (Parse_loop_keeps ParseState
                              (fun st => PollDuration (wgoCmd_ st) = 0)); [| reflexivity].
      unfold flagset, wgo_flags, str_build_flags, regexp_flag.
      cbn [app map strFlagNames boolFlagNames bool_build_flags];
        repeat constructor; cbn; intros; try tauto;
        repeat match goal with
               | H : match ?x with _ => _ end = Ok _ |- _ =>
                   destruct x; [| discriminate H]
               | H : match ?x with _ => _ end = Ok _ |- _ =>
                   destruct x; [discriminate H |]
               | H : Ok _ = Ok _ |- _ => injection H as <-
               end; cbn; tauto. }
    destruct (verbose st); [destruct (1 <? wgoNumber)%nat |]; cbn; exact Hkeep.
  Qed.

End WgoCommandFacts.

Section WgoCommandExamples.
  Existing Instance SimpleRegexp.pkg.

(** The witness of C1: [wgo run -race main.go a b] on the sample host. *)
Lemma run_mode_chain_witness :
  exists cmd,
    WgoCommand Sample.host 1 ["run"; "-race"; "main.go"; "a"; "b"] = Ok cmd
    /\ exists cwd st package program_args argv1 more,
        os_Getwd Sample.host = Some cwd
        /\ flag.Parse ParseState (flagset Sample.host true) (initial_state cwd true)
             ["-race"; "main.go"; "a"; "b"]
           = Ok (st, package :: program_args)
        /\ ParserSpec.argvs program_args = argv1 :: more
        /\ isRun cmd = true
        /\ ArgsList cmd
           = ParserSpec.build_argv Sample.host st package :: (executablePath cmd :: argv1) :: more
        /\ List.length (ArgsList cmd)
           = (2 + count_occ string_dec program_args "::")%nat
        /\ (count_occ string_dec program_args "::" = 0%nat ->
            ArgsList cmd
            = [ParserSpec.build_argv Sample.host st package;
               executablePath cmd :: map ParserSpec.unescape program_args]).
Proof.
  eexists. split; [vm_compute; reflexivity |].
  apply (run_mode_chain Sample.host 1 ["-race"; "main.go"; "a"; "b"]).
  vm_compute. reflexivity.
Defined.

(** C1 as stated fails: a [::] after the package is not rejected, it
    starts a third argv. *)
Lemma run_mode_separator_accepted :
  exists cmd,
    WgoCommand Sample.host 1 ["run"; "main.go"; "a"; "::"; "b"] = Ok cmd
    /\ ArgsList cmd
       = [["go"; "build"; "-o"; Sample.exe; "main.go"]; [Sample.exe; "a"]; ["b"]]
    /\ List.length (ArgsList cmd) = 3%nat.
Proof.
  eexists. split; [vm_compute; reflexivity |]. split; reflexivity.
Qed.

End WgoCommandExamples.


(** *** The chain loop and the flags, from the command line *)







Section ParserMore.
  Context {RE : RegexpPkg}.
  Variable host : Host.

(** The command that [WgoCommand] builds when no flag is given. *)
Lemma WgoCommand_after_flags (wgoNumber : nat) (args flagArgs : list string)
      (cwd : string) (d : Z) (c : WgoCmd) :
    os_Getwd host = Some cwd ->
    time_ParseDuration host "300ms" = Some d ->
    match args with a :: _ => String.eqb a "run" | [] => false end = false ->
    flag.Parse ParseState (flagset host false) (initial_state cwd false) args
    = Ok (mkParseState c false "300ms" EmptyString [] [], flagArgs) ->
    WgoCommand host wgoNumber args
    = Ok (set_ArgsList (chain_loop flagArgs (ArgsList c ++ [[]])%list)
            (set_PollDuration (PollDuration (set_Debounce d c)) (set_Debounce d c))).
Proof.
    intros Hcwd Hd Hrun Hparse. unfold WgoCommand.
    rewrite Hcwd, Hrun, Hparse. cbn [verbose debounce poll wgoCmd_].
    cbn [String.eqb Ascii.eqb Bool.eqb negb]. rewrite Hd. reflexivity.
Qed.

Lemma Parse_not_a_flag (is_run : bool) (st : ParseState) (a : string)
      (rest : list string) :
    HasPrefix a "-" = false \/ a = "-" ->
    flag.Parse ParseState (flagset host is_run) st (a :: rest) = Ok (st, a :: rest).
Proof.
    intros Ha. unfold flag.Parse. cbn [flag.Parse_loop flag.parseOne].
    replace ((len a <? 2)%nat || negb (HasPrefix a "-")) with true; [reflexivity |].
    destruct Ha as [-> | ->]; [now rewrite orb_true_r | reflexivity].
Qed.

Lemma Parse_terminator (is_run : bool) (st : ParseState) (rest : list string) :
    flag.Parse ParseState (flagset host is_run) st ("--" :: rest) = Ok (st, rest).
Proof. reflexivity. Qed.

(** X2.  [WgoCommand] stops reading flags at the first token that is not one:
    from there on every token belongs to the chain, also one that is
    spelled like a flag of wgo, and the command keeps the defaults (the
    working directory as the only root, no patterns, the debounce of
    300ms).  The terminator [--] does the same for a command whose name
    starts with a dash. *)
Theorem command_tokens_are_not_flags (wgoNumber : nat) (a : string)
        (rest : list string) (cwd : string) (d : Z) :
    os_Getwd host = Some cwd ->
    time_ParseDuration host "300ms" = Some d ->
    a <> "run" ->
    HasPrefix a "-" = false \/ a = "-" ->
    let default :=
      mkWgoCmd [cwd] [] [] [] [] defaultLogger [] [] EmptyString
               false false d false 0 false EmptyString in
    WgoCommand host wgoNumber (a :: rest)
    = Ok (set_ArgsList (chain_loop (a :: rest) [[]]) default)
    /\ WgoCommand host wgoNumber ("--" :: a :: rest)
       = Ok (set_ArgsList (chain_loop (a :: rest) [[]]) default)
    /\ WgoCommand host wgoNumber ("--" :: ("-" ++ a)%string :: rest)
       = Ok (set_ArgsList (chain_loop (("-" ++ a)%string :: rest) [[]]) default).
Proof.
    intros Hcwd Hd Hrun Ha default.
    assert (Hr : String.eqb a "run" = false) by now apply String.eqb_neq.
    split; [| split].
    - rewrite (WgoCommand_after_flags wgoNumber (a :: rest) (a :: rest) cwd d
                 (wgoCmd_ (initial_state cwd false)) Hcwd Hd Hr).
      + reflexivity.
      + apply (Parse_not_a_flag false (initial_state cwd false) a rest Ha).
    - rewrite (WgoCommand_after_flags wgoNumber ("--" :: a :: rest) (a :: rest) cwd d
                 (wgoCmd_ (initial_state cwd false)) Hcwd Hd eq_refl).
      + reflexivity.
      + apply Parse_terminator.
    - rewrite (WgoCommand_after_flags wgoNumber ("--" :: ("-" ++ a)%string :: rest)
                 (("-" ++ a)%string :: rest) cwd d
                 (wgoCmd_ (initial_state cwd false)) Hcwd Hd eq_refl).
      + reflexivity.
      + apply Parse_terminator.
Qed.

(** One pattern flag: its pattern is compiled and appended. *)
Lemma parseOne_pattern_flag (st : ParseState) (name pattern : string)
      (rest : list string) :
    In name pattern_flags ->
    flag.parseOne ParseState (flagset host false) st
      (("-" ++ name)%string :: pattern :: rest)
    = match compileRegexp pattern with
      | Err e => Err (ErrInvalidValue pattern name e)
      | Ok r =>
          Ok (true,
              on_cmd (fun c =>
                        mkWgoCmd (Roots c)
                          (FileRegexps c ++ if String.eqb name "file" then [r] else [])
                          (ExcludeFileRegexps c ++ if String.eqb name "xfile" then [r] else [])
                          (DirRegexps c ++ if String.eqb name "dir" then [r] else [])
                          (ExcludeDirRegexps c ++ if String.eqb name "xdir" then [r] else [])
                          (Logger c) (ArgsList c) (Env c) (Dir c) (EnableStdin c)
                          (Exit c) (Debounce c) (Postpone c) (PollDuration c)
                          (isRun c) (executablePath c))%list st,
              rest)
      end.
Proof.
    intros Hin. unfold pattern_flags in Hin. cbn [In] in Hin.
    destruct Hin as [<- | [<- | [<- | [<- | []]]]];
      cbn; destruct (compileRegexp pattern); try reflexivity;
      unfold on_cmd, set_FileRegexps, set_ExcludeFileRegexps, set_DirRegexps,
        set_ExcludeDirRegexps; cbn; rewrite ?app_nil_r; reflexivity.
Qed.

Lemma Parse_cons_flag (st st' : ParseState) (s v : string) (rest : list string) :
    flag.parseOne ParseState (flagset host false) st (s :: v :: rest)
    = Ok (true, st', rest) ->
    flag.Parse ParseState (flagset host false) st (s :: v :: rest)
    = flag.Parse ParseState (flagset host false) st' rest.
Proof.
    intros Hp. unfold flag.Parse.
    change (flag.Parse_loop ParseState (S (List.length (s :: v :: rest)))
              (flagset host false) st (s :: v :: rest))
      with (match flag.parseOne ParseState (flagset host false) st (s :: v :: rest) with
            | Err e => Err e
            | Ok (true, st', args') =>
                flag.Parse_loop ParseState (List.length (s :: v :: rest))
                  (flagset host false) st' args'
            | Ok (false, st', args') => Ok (st', args')
            end).
    rewrite Hp. cbn [List.length].
    replace (S (S (List.length rest))) with (S (List.length rest) + 1)%nat by lia.
    apply Parse_loop_fuel. lia.
Qed.

Lemma Parse_pattern_flags (compiled : string -> Regexp)
      (flags : list (string * string)) :
    forall (st : ParseState) (tail : list string),
      Forall (fun nv => In (fst nv) pattern_flags
                        /\ regexp_Compile (compileRegexp_text (snd nv))
                           = Some (compiled (snd nv))) flags ->
      flag.Parse ParseState (flagset host false) st (pattern_args flags ++ tail)
      = flag.Parse ParseState (flagset host false)
          (on_cmd (fun c =>
                     mkWgoCmd (Roots c)
                       (FileRegexps c ++ map compiled (patterns_of "file" flags))
                       (ExcludeFileRegexps c ++ map compiled (patterns_of "xfile" flags))
                       (DirRegexps c ++ map compiled (patterns_of "dir" flags))
                       (ExcludeDirRegexps c ++ map compiled (patterns_of "xdir" flags))
                       (Logger c) (ArgsList c) (Env c) (Dir c) (EnableStdin c)
                       (Exit c) (Debounce c) (Postpone c) (PollDuration c)
                       (isRun c) (executablePath c))%list st)
          tail.
Proof.
    induction flags as [| [name pattern] flags IH]; intros st tail Hall.
    - cbn [pattern_args flat_map app patterns_of filter map].
      f_equal. destruct st as [c0 v0 d0 p0 s0 b0];
      destruct c0 as [f1 f2 f3 f4 f5 f6 f7 f8 f9 f10 f11 f12 f13 f14 f15 f16]. unfold on_cmd. cbn.
      now rewrite !app_nil_r.
    - inversion Hall as [| ? ? [Hin Hc] Hall']; subst. cbn [fst snd] in Hin, Hc.
      cbn [pattern_args flat_map app fst snd].
      fold (pattern_args flags).
      pose proof (parseOne_pattern_flag st name pattern (pattern_args flags ++ tail) Hin)
        as Hp.
      unfold compileRegexp in Hp. rewrite Hc in Hp.
      rewrite (Parse_cons_flag _ _ _ _ _ Hp).
      rewrite (IH _ tail Hall'). f_equal.
      destruct st as [c0 v0 d0 p0 s0 b0];
      destruct c0 as [f1 f2 f3 f4 f5 f6 f7 f8 f9 f10 f11 f12 f13 f14 f15 f16]. unfold on_cmd, patterns_of.
      cbn [wgoCmd_ verbose debounce poll strFlagValues boolFlagValues
           Roots FileRegexps ExcludeFileRegexps DirRegexps ExcludeDirRegexps Logger
           ArgsList Env Dir EnableStdin Exit Debounce Postpone PollDuration isRun
           executablePath filter fst snd].
      destruct (String.eqb name "file"), (String.eqb name "xfile"),
        (String.eqb name "dir"), (String.eqb name "xdir");
        cbn [map snd]; rewrite <- ?app_assoc, ?app_nil_r; reflexivity.
Qed.

(** X3.  The pattern flags are read from left to right, whatever their mix:
    each of the four lists of the command holds the compiled patterns of
    its flag in the order of the command line.  The first pattern that
    does not compile ends the parsing with an error that names the flag
    and the pattern as it was typed. *)
Theorem pattern_flags_in_order (wgoNumber : nat) (compiled : string -> Regexp)
        (flags : list (string * string)) (a : string) (rest : list string)
        (cwd : string) (d : Z) :
    os_Getwd host = Some cwd ->
    time_ParseDuration host "300ms" = Some d ->
    a <> "run" ->
    HasPrefix a "-" = false \/ a = "-" ->
    Forall (fun nv => In (fst nv) pattern_flags
                      /\ regexp_Compile (compileRegexp_text (snd nv))
                         = Some (compiled (snd nv))) flags ->
    WgoCommand host wgoNumber (pattern_args flags ++ a :: rest)
    = Ok (mkWgoCmd [cwd]
            (map compiled (patterns_of "file" flags))
            (map compiled (patterns_of "xfile" flags))
            (map compiled (patterns_of "dir" flags))
            (map compiled (patterns_of "xdir" flags))
            defaultLogger (chain_loop (a :: rest) [[]]) [] EmptyString
            false false d false 0 false EmptyString)
    /\ (forall name bad more,
           In name pattern_flags ->
           regexp_Compile (compileRegexp_text bad) = None ->
           WgoCommand host wgoNumber
             (pattern_args flags ++ ("-" ++ name)%string :: bad :: more)
           = Err (ErrInvalidValue bad name (ErrRegexp (compileRegexp_text bad)))).
Proof.
    intros Hcwd Hd Hrun Ha Hall.
    assert (Hr : String.eqb a "run" = false) by now apply String.eqb_neq.
    assert (Hhead : forall x tail,
               String.eqb x "run" = false ->
               match (pattern_args flags ++ x :: tail)%list with
               | a0 :: _ => String.eqb a0 "run"
               | [] => false
               end = false).
    { intros x tail Hx. destruct flags as [| [n p] flags]; [exact Hx |].
      inversion Hall as [| ? ? [Hin _] _]; subst. cbn [fst] in Hin.
      cbn [pattern_args flat_map app fst].
      unfold pattern_flags in Hin. cbn [In] in Hin.
      destruct Hin as [<- | [<- | [<- | [<- | []]]]]; reflexivity. }
    split.
    - rewrite (WgoCommand_after_flags wgoNumber _ (a :: rest) cwd d
                 (mkWgoCmd [cwd]
                    (map compiled (patterns_of "file" flags))
                    (map compiled (patterns_of "xfile" flags))
                    (map compiled (patterns_of "dir" flags))
                    (map compiled (patterns_of "xdir" flags))
                    defaultLogger [] [] EmptyString
                    false false 0 false 0 false EmptyString) Hcwd Hd (Hhead a rest Hr)).
      + reflexivity.
      + rewrite (Parse_pattern_flags compiled flags _ (a :: rest) Hall).
        apply (Parse_not_a_flag false _ a rest Ha).
    - intros name bad more Hin Hbad. unfold WgoCommand. rewrite Hcwd.
      rewrite Hhead.
      2:{ unfold pattern_flags in Hin. cbn [In] in Hin.
          destruct Hin as [<- | [<- | [<- | [<- | []]]]]; reflexivity. }
      rewrite (Parse_pattern_flags compiled flags _ _ Hall).
      unfold flag.Parse. cbn [flag.Parse_loop List.length].
      rewrite (parseOne_pattern_flag _ name bad more Hin).
      unfold compileRegexp. rewrite Hbad. reflexivity.
Qed.

End ParserMore.


(** *** The go build flags of [wgo run] *)

Section FlagStep.
  Variable S : Type.
  Variable formal : flag.FlagSet S.

(** A flag that is parsed leaves the parsing of the rest. *)
Lemma Parse_step (st st' : S) (args args' : list string) :
    flag.parseOne S formal st args = Ok (true, st', args') ->
    flag.Parse S formal st args = flag.Parse S formal st' args'.
Proof.
    intros Hp. unfold flag.Parse.
    pose proof (parseOne_consumes S formal st st' args args' Hp) as Hlen.
    cbn [flag.Parse_loop]. rewrite Hp.
    replace (List.length args)
      with (Datatypes.S (List.length args')
            + (List.length args - Datatypes.S (List.length args')))%nat by lia.
    apply Parse_loop_fuel. lia.
Qed.
End FlagStep.

Lemma bool_build_args_map (f : string -> bool) (names : list string) :
  bool_build_args (map f names) names
  = map (fun name => ("-" ++ name)%string) (filter f names).
Proof.
  induction names as [| name names IH]; [reflexivity |].
  cbn [map bool_build_args filter]. rewrite IH.
  destruct (f name); reflexivity.
Qed.

Section BuildFlags.
  Context {RE : RegexpPkg}.
  Variable host : Host.

(** A boolean build flag sets its entry of [boolFlagValues]. *)
Lemma parseOne_bool_flag (st : ParseState) (name : string) (rest : list string)
      (seen : list BuildFlag) :
    In name boolFlagNames ->
    boolFlagValues st = map (has_bool_flag seen) boolFlagNames ->
    flag.parseOne ParseState (flagset host true) st (("-" ++ name)%string :: rest)
    = Ok (true,
          set_boolFlagValues (map (has_bool_flag (BoolFlag name :: seen)) boolFlagNames) st,
          rest).
Proof.
    intros Hin Hvals. unfold boolFlagNames in Hin. cbn [In] in Hin.
    unfold has_bool_flag at 1. cbn [existsb].
    repeat (destruct Hin as [<- | Hin];
            [cbn; rewrite Hvals; reflexivity |]).
    contradiction.
Qed.

(** A string build flag appends its name and value to [strFlagValues]. *)
Lemma parseOne_str_flag (st : ParseState) (name value : string) (rest : list string) :
    In name strFlagNames ->
    flag.parseOne ParseState (flagset host true) st
      (("-" ++ name)%string :: value :: rest)
    = Ok (true,
          set_strFlagValues (strFlagValues st ++ [("-" ++ name)%string; value])%list st,
          rest).
Proof.
    intros Hin. unfold strFlagNames in Hin. cbn [In] in Hin.
    repeat (destruct Hin as [<- | Hin]; [reflexivity |]).
    contradiction.
Qed.

Lemma has_bool_flag_app (a b : list BuildFlag) (name : string) :
    has_bool_flag (a ++ b) name = has_bool_flag a name || has_bool_flag b name.
Proof. unfold has_bool_flag. apply existsb_app. Qed.

Lemma Parse_build_flags (flags : list BuildFlag) :
    forall (st : ParseState) (seen : list BuildFlag) (tail : list string),
      Forall known_build_flag flags ->
      boolFlagValues st = map (has_bool_flag seen) boolFlagNames ->
      flag.Parse ParseState (flagset host true) st (build_flag_args flags ++ tail)
      = flag.Parse ParseState (flagset host true)
          (set_boolFlagValues
             (map (fun name => has_bool_flag flags name || has_bool_flag seen name)
                  boolFlagNames)
             (set_strFlagValues (strFlagValues st ++ str_flag_args flags)%list st))
          tail.
Proof.
    induction flags as [| f flags IH]; intros st seen tail Hall Hvals.
    - cbn [build_flag_args str_flag_args flat_map app has_bool_flag existsb orb].
      f_equal. destruct st as [c0 v0 d0 p0 s0 b0].
      cbn [boolFlagValues] in Hvals. subst b0.
      unfold set_boolFlagValues, set_strFlagValues.
      cbn [wgoCmd_ verbose debounce poll strFlagValues boolFlagValues].
      now rewrite app_nil_r.
    - inversion Hall as [| ? ? Hf Hall']; subst.
      destruct f as [name value | name]; cbn [known_build_flag] in Hf.
      + cbn [build_flag_args str_flag_args flat_map app].
        fold (build_flag_args flags). fold (str_flag_args flags).
        rewrite (Parse_step _ _ _ _ _ _ (parseOne_str_flag st name value _ Hf)).
        rewrite (IH _ seen tail Hall') by exact Hvals.
        f_equal. destruct st as [c0 v0 d0 p0 s0 b0].
        unfold set_boolFlagValues, set_strFlagValues.
        cbn [wgoCmd_ verbose debounce poll strFlagValues boolFlagValues]. f_equal.
        now rewrite <- app_assoc.
      + cbn [build_flag_args str_flag_args flat_map app].
        fold (build_flag_args flags). fold (str_flag_args flags).
        rewrite (Parse_step _ _ _ _ _ _ (parseOne_bool_flag st name _ seen Hf Hvals)).
        rewrite (IH _ (BoolFlag name :: seen) tail Hall') by reflexivity.
        f_equal. destruct st as [c0 v0 d0 p0 s0 b0].
        unfold set_boolFlagValues, set_strFlagValues.
        cbn [wgoCmd_ verbose debounce poll strFlagValues boolFlagValues]. f_equal.
        apply map_ext. intros n. unfold has_bool_flag. cbn [existsb].
        destruct (String.eqb name n); cbn [orb]; [now rewrite orb_true_r |].
        reflexivity.
Qed.

(** X4.  [wgo run] hands its go build flags to [go build]: the string flags
    with their values in the order they were typed, then the boolean
    flags that were given, in the order of [go help build] whatever their
    order on the command line, then the package.  The build argv is the
    first of the chain, and the temp binary the first token of the
    second. *)
Theorem build_flags_pass_through (wgoNumber : nat) (flags : list BuildFlag)
        (package : string) (rest : list string) (cwd : string) (d : Z) :
    os_Getwd host = Some cwd ->
    time_ParseDuration host "300ms" = Some d ->
    Forall known_build_flag flags ->
    HasPrefix package "-" = false \/ package = "-" ->
    exists cmd argv1 more,
      WgoCommand host wgoNumber ("run" :: build_flag_args flags ++ package :: rest)
      = Ok cmd
      /\ ArgsList cmd
         = ((["go"; "build"; "-o"; executablePath cmd]
               ++ str_flag_args flags ++ bool_flag_args flags ++ [package])
              :: (executablePath cmd :: argv1) :: more)%list.
Proof.
    intros Hcwd Hd Hall Hpkg.
    unfold WgoCommand. rewrite Hcwd. cbn [String.eqb Ascii.eqb Bool.eqb tl].
    rewrite (Parse_build_flags flags (initial_state cwd true) [] (package :: rest) Hall)
      by reflexivity.
    rewrite (Parse_not_a_flag host true _ package rest Hpkg).
    cbn [verbose debounce poll set_boolFlagValues set_strFlagValues initial_state
         wgoCmd_ strFlagValues boolFlagValues].
    cbn [String.eqb Ascii.eqb Bool.eqb negb]. rewrite Hd.
    set (exe := filepath.Join _ _).
    set (buildArgs := ((((["go"; "build"; "-o"; exe] ++ _) ++ _) ++ [package])%list)).
    pose proof (chain_loop_argvs rest [buildArgs] [exe]) as Hchain.
    cbn [app] in Hchain.
    pose proof (argvs_nonempty rest) as Hne.
    destruct (ParserSpec.argvs rest) as [| argv more] eqn:Hargvs; [contradiction |].
    eexists. exists argv, more. split; [reflexivity |].
    cbn [set_ArgsList set_executablePath set_PollDuration set_Debounce ArgsList
         executablePath].
    rewrite Hchain. subst buildArgs.
    assert (Hb : bool_build_args
                   (map (fun name => has_bool_flag flags name || has_bool_flag [] name)
                        boolFlagNames) boolFlagNames
                 = bool_flag_args flags).
    { unfold bool_flag_args. rewrite <- bool_build_args_map.
      apply (f_equal (fun values => bool_build_args values boolFlagNames)).
      apply map_ext. intros n. unfold has_bool_flag at 2. cbn [existsb].
      now rewrite orb_false_r. }
    rewrite Hb. cbn [app]. rewrite <- !app_assoc. reflexivity.
Qed.

End BuildFlags.


(** *** The split of [WgoCommands] into instances *)

Lemma skipn_nth {A : Type} (l : list A) (j : nat) (d : A) :
  (j < List.length l)%nat -> skipn j l = nth j l d :: skipn (S j) l.
Proof.
  revert j. induction l as [| a l IH]; intros j H; cbn in H; [lia |].
  destruct j as [| j]; [reflexivity |].
  cbn [skipn nth]. apply IH. lia.
Qed.

Lemma slice_same {A : Type} (l : list A) (j : nat) : slice l j j = [].
Proof. unfold slice. now rewrite Nat.sub_diag. Qed.

Lemma slice_length {A : Type} (l : list A) (i j : nat) :
  (i <= j <= List.length l)%nat -> List.length (slice l i j) = (j - i)%nat.
Proof.
  intros H. unfold slice. rewrite length_firstn, length_skipn. lia.
Qed.

Lemma firstn_snoc {A : Type} (l : list A) (n : nat) (d : A) :
  (n < List.length l)%nat -> firstn (S n) l = (firstn n l ++ [nth n l d])%list.
Proof.
  revert n. induction l as [| a l IH]; intros n H; cbn in H; [lia |].
  destruct n as [| n]; [reflexivity |].
  cbn [firstn nth app]. f_equal. apply IH. lia.
Qed.

Lemma nth_skipn {A : Type} (l : list A) (i k : nat) (d : A) :
  nth k (skipn i l) d = nth (i + k) l d.
Proof.
  revert l. induction i as [| i IH]; intros l; [reflexivity |].
  destruct l as [| a l]; [destruct k; reflexivity |]. cbn. apply IH.
Qed.

Lemma slice_snoc {A : Type} (l : list A) (i j : nat) (d : A) :
  (i <= j < List.length l)%nat ->
  slice l i (S j) = (slice l i j ++ [nth j l d])%list.
Proof.
  intros H. unfold slice.
  replace (S j - i)%nat with (S (j - i)) by lia.
  rewrite (firstn_snoc _ _ d) by (rewrite length_skipn; lia).
  rewrite nth_skipn. repeat f_equal. lia.
Qed.

Lemma instances_nonempty (tokens : list string) :
  forall current, ParserSpec.instances tokens current <> [].
Proof.
  induction tokens as [| t ts IH]; intros current; cbn [ParserSpec.instances];
    [discriminate |].
  destruct ts as [| u ts']; [cbn; discriminate |].
  destruct (String.eqb t "::" && String.eqb u "wgo"); [discriminate | apply IH].
Qed.

Section WgoCommandsFacts.
  Context {RE : RegexpPkg}.
  Variable host : Host.

Lemma parse_instances_last (wgoNumber : nat) (wgoCmds : list WgoCmd)
      (current : list string) (i j : nat) (args : list string) :
    (i <= j <= List.length args)%nat -> current = slice args i j ->
    ParserSpec.parse_instances host wgoNumber wgoCmds [current]
    = WgoCommands_finish host args (Ok (i, j, wgoNumber, wgoCmds)).
Proof.
    intros H ->. cbn [ParserSpec.parse_instances WgoCommands_finish].
    pose proof (slice_length args i j H) as Hlen.
    destruct (Nat.ltb_spec i j) as [Hlt | Hge].
    - destruct (slice args i j) as [| a l] eqn:E; [cbn in Hlen; lia |].
      destruct (WgoCommand host wgoNumber (a :: l)); reflexivity.
    - destruct (slice args i j) as [| a l]; [reflexivity | cbn in Hlen; lia].
Qed.

(** The scanning loop, followed by the parse of what is left, parses the
    instances that the rest of the arguments splits into. *)
Lemma WgoCommands_loop_spec (fuel : nat) :
    forall (args : list string) (i j wgoNumber : nat) (wgoCmds : list WgoCmd),
      (i <= j <= List.length args)%nat ->
      (List.length args - j <= fuel)%nat ->
      WgoCommands_finish host args (WgoCommands_loop host fuel args i j wgoNumber wgoCmds)
      = ParserSpec.parse_instances host wgoNumber wgoCmds
          (ParserSpec.instances (skipn j args) (slice args i j)).
Proof.
    induction fuel as [| fuel IH]; intros args i j wgoNumber wgoCmds Hij Hfuel.
    - assert (j = List.length args) by lia. subst j.
      rewrite skipn_all. cbn [WgoCommands_loop ParserSpec.instances].
      symmetry. now apply parse_instances_last.
    - cbn [WgoCommands_loop].
      destruct (Nat.ltb_spec j (List.length args)) as [Hlt | Hge].
      + rewrite (skipn_nth args j EmptyString Hlt).
        set (x := nth j args EmptyString).
        cbn [ParserSpec.instances].
        destruct (Nat.leb_spec (List.length args) (j + 1)) as [Hend | Hmore].
        * (* the last token *)
          rewrite orb_true_r. cbn [orb].
          rewrite skipn_all2 by lia.
          rewrite IH by lia.
          replace (j + 1)%nat with (S j) by lia.
          rewrite skipn_all2 by lia.
          now rewrite (slice_snoc args i j EmptyString) by lia.
        * rewrite orb_false_r.
          rewrite (skipn_nth args (S j) EmptyString) by lia.
          replace (j + 1)%nat with (S j) by lia.
          set (y := nth (S j) args EmptyString).
          rewrite <- negb_andb.
          destruct (String.eqb x "::" && String.eqb y "wgo"); cbn [negb].
          -- pose proof (instances_nonempty (skipn (S (S j)) args) []) as Hne.
             cbn [ParserSpec.parse_instances].
             destruct (WgoCommand host wgoNumber (slice args i j)) as [c | e].
             ++ rewrite IH by lia.
                replace (j + 2)%nat with (S (S j)) by lia.
                rewrite slice_same.
                destruct (ParserSpec.instances (skipn (S (S j)) args) []);
                  [contradiction |].
                destruct (slice args i j); reflexivity.
             ++ cbn [WgoCommands_finish].
                destruct (ParserSpec.instances (skipn (S (S j)) args) []);
                  [contradiction |].
                destruct (slice args i j); reflexivity.
          -- rewrite IH by lia.
             rewrite (skipn_nth args (S j) EmptyString) by lia.
             now rewrite (slice_snoc args i j EmptyString) by lia.
      + assert (j = List.length args) by lia. subst j.
        rewrite skipn_all. cbn [ParserSpec.instances].
        symmetry. now apply parse_instances_last.
Qed.

(** [WgoCommands] drops the program name, splits the rest at every [::]
    followed by [wgo], and parses the instances in order. *)
Lemma WgoCommands_spec (prog : string) (tokens : list string) :
    WgoCommands host (prog :: tokens)
    = ParserSpec.parse_instances host 1 [] (ParserSpec.instances tokens []).
Proof.
    pose proof (WgoCommands_loop_spec (List.length (prog :: tokens))
                  (prog :: tokens) 1 1 1 []) as H.
    cbn [skipn] in H. rewrite slice_same in H. rewrite <- H.
    - unfold WgoCommands, WgoCommands_finish. reflexivity.
    - cbn. lia.
    - lia.
Qed.

End WgoCommandsFacts.


(** *** A separator at the end of the arguments *)

Lemma instances_cons2 (t u : string) (ts current : list string) :
  ParserSpec.instances (t :: u :: ts) current
  = if String.eqb t "::" && String.eqb u "wgo"
    then current :: ParserSpec.instances ts []
    else ParserSpec.instances (u :: ts) (current ++ [t])%list.
Proof. reflexivity. Qed.


Section TrailingFacts.
  Context {RE : RegexpPkg}.
  Variable host : Host.



End TrailingFacts.

Section TrailingExamples.
  Existing Instance SimpleRegexp.pkg.


(** C2 on the code: a command line with flags only, or with a leading
    [::], is parsed without error into a chain whose first argv is empty,
    and [Run] then panics on [args[0]]; a trailing or doubled [::] leaves
    an empty argv further down the chain. *)
Lemma WgoCommand_accepts_empty_argv :
  (exists cmd,
      WgoCommands Sample.host ["wgo"; "-verbose"] = Ok [cmd]
      /\ ArgsList cmd = [[]]
      /\ phase (Run_init cmd) = Panicked)
  /\ (exists cmd,
         WgoCommand Sample.host 1 ["::"; "echo"] = Ok cmd
         /\ ArgsList cmd = [[]; ["echo"]]
         /\ phase (Run_init cmd) = Panicked)
  /\ (exists cmd,
         WgoCommand Sample.host 1 ["echo"; "::"; "::"; "hi"] = Ok cmd
         /\ ArgsList cmd = [["echo"]; []; ["hi"]]).
Proof.
  split; [| split]; eexists; repeat split; vm_compute; reflexivity.
Qed.

End TrailingExamples.


(** *** Instances side by side *)

Lemma instances_pair_free (s : list string) :
  forall current,
    pair_free s = true -> ParserSpec.instances s current = [(current ++ s)%list].
Proof.
  induction s as [| t s IH]; intros current Hpf.
  - cbn. now rewrite app_nil_r.
  - destruct s as [| u s]; [reflexivity |].
    rewrite instances_cons2.
    cbn [pair_free] in Hpf. apply andb_true_iff in Hpf. destruct Hpf as [Hp Hpf].
    apply negb_true_iff in Hp. rewrite Hp.
    rewrite (IH (current ++ [t])%list Hpf). now rewrite <- app_assoc.
Qed.

Lemma instances_segment (s more : list string) :
  forall current,
    pair_free s = true ->
    ParserSpec.instances (s ++ "::" :: "wgo" :: more) current
    = (current ++ s)%list :: ParserSpec.instances more [].
Proof.
  induction s as [| t s IH]; intros current Hpf.
  - cbn [app]. rewrite instances_cons2. cbn. now rewrite app_nil_r.
  - destruct s as [| u s].
    + cbn [app]. rewrite instances_cons2.
      cbn [String.eqb Ascii.eqb Bool.eqb]. rewrite andb_false_r.
      rewrite instances_cons2. reflexivity.
    + change ((t :: u :: s) ++ "::" :: "wgo" :: more)%list
        with (t :: u :: (s ++ "::" :: "wgo" :: more))%list.
      rewrite instances_cons2.
      cbn [pair_free] in Hpf. apply andb_true_iff in Hpf. destruct Hpf as [Hp Hpf].
      apply negb_true_iff in Hp. rewrite Hp.
      change (u :: (s ++ "::" :: "wgo" :: more))%list
        with ((u :: s) ++ "::" :: "wgo" :: more)%list.
      rewrite (IH (current ++ [t])%list Hpf). now rewrite <- app_assoc.
Qed.

Section InstanceFacts.
  Context {RE : RegexpPkg}.
  Variable host : Host.

(** X5.  The instances of a command line are parsed one by one, each from its
    own tokens and with its own number: the tokens before a [::], [wgo]
    pair go to [WgoCommand] with number 1 and those after it with number
    2; the error of an instance is returned under its number, and the
    second instance is not parsed when the first fails.  The first
    instance is parsed also when it has no token at all. *)
Theorem instances_parsed_separately (prog : string) (a b : list string) :
    pair_free a = true -> pair_free b = true ->
    (a <> [] ->
     WgoCommands host (prog :: a)
     = match WgoCommand host 1 a with
       | Err e => Err (ErrWgo 1 e)
       | Ok wgoCmd => Ok [wgoCmd]
       end)
    /\ (b <> [] ->
        WgoCommands host (prog :: a ++ "::" :: "wgo" :: b)%list
        = match WgoCommand host 1 a with
          | Err e => Err (ErrWgo 1 e)
          | Ok wgoCmd1 =>
              match WgoCommand host 2 b with
              | Err e => Err (ErrWgo 2 e)
              | Ok wgoCmd2 => Ok [wgoCmd1; wgoCmd2]
              end
          end).
Proof.
    intros Ha Hb. split.
    - intros Hne. rewrite WgoCommands_spec, (instances_pair_free a [] Ha).
      cbn [app ParserSpec.parse_instances].
      destruct a as [| t a]; [contradiction |].
      destruct (WgoCommand host 1 (t :: a)); reflexivity.
    - intros Hne. rewrite WgoCommands_spec, (instances_segment a b [] Ha).
      rewrite (instances_pair_free b [] Hb).
      cbn [app ParserSpec.parse_instances].
      destruct (WgoCommand host 1 a) as [c1 | e1]; [| reflexivity].
      destruct b as [| t b]; [contradiction |].
      cbn [Nat.add]. destruct (WgoCommand host 2 (t :: b)); reflexivity.
Qed.

End InstanceFacts.


(** *** The path matcher *)

Lemma HasPrefix_split (s p : string) :
  HasPrefix s p = true -> s = p ++ drop (len p) s.
Proof.
  unfold HasPrefix. revert s. induction p as [| c p IH]; intros s; [reflexivity |].
  destruct s as [| d s]; cbn [String.prefix]; [discriminate |].
  destruct (ascii_dec c d) as [-> | _]; [| discriminate].
  intros H. cbn. f_equal. now apply IH.
Qed.

Lemma drop_drop (n k : nat) (s : string) : drop n (drop k s) = drop (k + n) s.
Proof.
  revert s. induction k as [| k IH]; intros s; [reflexivity |].
  destruct s as [| c s]; [destruct n; reflexivity |]. cbn. apply IH.
Qed.

Lemma mem_drop_sep (p rest : string) (c : ascii) (k : nat) :
  (k <= len p)%nat -> mem c (drop k (p ++ String c rest)) = true.
Proof.
  revert k. induction p as [| d p IH]; intros k Hk.
  - assert (k = 0%nat) by (cbn in Hk; lia). subst k. cbn. now rewrite Ascii.eqb_refl.
  - destruct k as [| k].
    + pose proof (IH 0%nat ltac:(lia)) as H0. cbn [drop] in H0.
      cbn [drop append mem]. rewrite H0. apply orb_true_r.
    + cbn [drop append]. apply IH. rewrite len_cons in Hk. lia.
Qed.

(** A suffix without a separator is a suffix of the path exactly when it
    is a suffix of the part after a separator. *)
Lemma HasSuffix_after_sep (p rest x : string) (c : ascii) :
  mem c x = false ->
  HasSuffix (p ++ String c rest) x = HasSuffix rest x.
Proof.
  intros Hx. unfold HasSuffix.
  rewrite len_append, len_cons.
  destruct (Nat.leb_spec (len x) (len rest)) as [Hle | Hgt].
  - replace (len x <=? len p + S (len rest))%nat with true
      by (symmetry; apply Nat.leb_le; lia).
    replace (len p + S (len rest) - len x)%nat
      with (len (p ++ String c "") + (len rest - len x))%nat
      by (rewrite len_append, len_cons; cbn; lia).
    rewrite <- drop_drop.
    replace (p ++ String c rest) with ((p ++ String c "") ++ rest)
      by (now rewrite append_assoc).
    now rewrite drop_append.
  - cbn [andb].
    destruct (Nat.leb_spec (len x) (len p + S (len rest))) as [Hle | _];
      [| reflexivity].
    cbn [andb]. apply String.eqb_neq. intros Heq.
    pose proof (mem_drop_sep p rest c (len p + S (len rest) - len x)) as Hm.
    rewrite Heq, Hx in Hm. discriminate Hm. lia.
Qed.

Section MatchFacts.
  Context {RE : RegexpPkg}.

Lemma range_matches_any (rs : list Regexp) (s : string) :
    range_matches rs s = MatchSpec.any_matches rs s.
Proof.
    unfold MatchSpec.any_matches.
    induction rs as [| r rs IH]; cbn; [reflexivity |].
    rewrite IH. now destruct (MatchString r s).
Qed.

(** The loop over the roots stops at the first root that is a directory
    prefix of the path. *)
Lemma match_roots_relative (roots : list string) (path : string) :
    match_roots roots path path (filepath.Dir path)
    = (MatchSpec.relative_path roots path,
       filepath.Dir (MatchSpec.relative_path roots path)).
Proof.
    unfold MatchSpec.relative_path.
    induction roots as [| root roots IH]; cbn [match_roots find]; [reflexivity |].
    change (String filepath.Separator "") with "/".
    destruct (HasPrefix path (root ++ "/")) eqn:Hp; [| exact IH].
    unfold filepath.ToSlash, TrimPrefix. rewrite Hp.
    rewrite len_append. reflexivity.
Qed.

(** The suffix tests of run mode read the same on the path and on its
    relative form. *)
Lemma relative_path_suffix (roots : list string) (path x : string) :
    mem "/" x = false ->
    HasSuffix path x = HasSuffix (MatchSpec.relative_path roots path) x.
Proof.
    intros Hx. unfold MatchSpec.relative_path.
    destruct (find (fun root => HasPrefix path (root ++ "/")) roots) as [root |] eqn:Hf;
      [| reflexivity].
    apply find_some in Hf. destruct Hf as [_ Hp].
    apply HasPrefix_split in Hp. rewrite len_append in Hp. cbn [len String.length] in Hp.
    rewrite Hp at 1. rewrite append_assoc. cbn [append].
    now apply HasSuffix_after_sep.
Qed.

Lemma match_decide (wgoCmd : WgoCmd) (path : string) :
    match_ wgoCmd path
    = MatchSpec.decide wgoCmd
        (MatchSpec.relative_path (Roots wgoCmd) path)
        (filepath.Dir (MatchSpec.relative_path (Roots wgoCmd) path)).
Proof.
    unfold match_, MatchSpec.decide, filepath.ToSlash.
    rewrite match_roots_relative, !range_matches_any.
    rewrite (relative_path_suffix (Roots wgoCmd) path ".go") by reflexivity.
    rewrite (relative_path_suffix (Roots wgoCmd) path "_test.go") by reflexivity.
    set (F := MatchSpec.relative_path (Roots wgoCmd) path).
    set (D := filepath.Dir F).
    destruct (MatchSpec.any_matches (ExcludeDirRegexps wgoCmd) D); [reflexivity |].
    replace (0 <? List.length (DirRegexps wgoCmd))%nat
      with (negb (MatchSpec.is_empty (DirRegexps wgoCmd)))
      by (destruct (DirRegexps wgoCmd); reflexivity).
    destruct (negb (MatchSpec.is_empty (DirRegexps wgoCmd))
              && negb (MatchSpec.any_matches (DirRegexps wgoCmd) D)); [reflexivity |].
    destruct (MatchSpec.any_matches (ExcludeFileRegexps wgoCmd) F); [reflexivity |].
    destruct (MatchSpec.any_matches (FileRegexps wgoCmd) F); [reflexivity |].
    destruct (isRun wgoCmd).
    - destruct (HasSuffix F ".go" && negb (HasSuffix F "_test.go")); reflexivity.
    - destruct (FileRegexps wgoCmd); reflexivity.
Qed.

End MatchFacts.

(** C3.  For every regexp package, command and path the matcher decides
    in the order of the specification over the root-relative path [F] and
    its parent directory [D]; and with [-file main.go -xdir testdata] the
    path [testdata/args/main.go] under the root does not match, though a
    file pattern matches it. *)
Theorem match_precedence :
  (forall (RE : RegexpPkg) (wgoCmd : WgoCmd) (path : string),
      let F := MatchSpec.relative_path (Roots wgoCmd) path in
      let D := filepath.Dir F in
      match_ wgoCmd path
      = if MatchSpec.any_matches (ExcludeDirRegexps wgoCmd) D then false
        else if negb (MatchSpec.is_empty (DirRegexps wgoCmd))
                && negb (MatchSpec.any_matches (DirRegexps wgoCmd) D) then false
        else if MatchSpec.any_matches (ExcludeFileRegexps wgoCmd) F then false
        else if MatchSpec.any_matches (FileRegexps wgoCmd) F then true
        else if isRun wgoCmd then
          HasSuffix F ".go" && negb (HasSuffix F "_test.go")
        else MatchSpec.is_empty (FileRegexps wgoCmd))
  /\ (exists wgoCmd : @WgoCmd SimpleRegexp.pkg,
         WgoCommand Sample.host 1 ["-file"; "main.go"; "-xdir"; "testdata"; "echo"]
         = Ok wgoCmd
         /\ MatchSpec.relative_path (Roots wgoCmd)
              "/home/user/project/testdata/args/main.go"
            = "testdata/args/main.go"
         /\ MatchSpec.any_matches (FileRegexps wgoCmd) "testdata/args/main.go" = true
         /\ match_ wgoCmd "/home/user/project/testdata/args/main.go" = false
         /\ match_ wgoCmd "/home/user/project/src/main.go" = true).
Proof.
  split.
  - intros RE wgoCmd path. cbv zeta. apply match_decide.
  - eexists. split; [vm_compute; reflexivity |].
    repeat split; vm_compute; reflexivity.
Qed.


(** *** The roots in the matcher *)

Section RootFacts.
  Context {RE : RegexpPkg}.

Lemma HasPrefix_app (p s : string) : HasPrefix (p ++ s) p = true.
Proof.
    unfold HasPrefix. induction p as [| c p IH]; cbn [append String.prefix].
    - now destruct s.
    - destruct (ascii_dec c c); [exact IH | contradiction].
Qed.

Lemma relative_path_first_root (before after : list string) (root rel : string) :
    Forall (fun r => HasPrefix (root ++ "/" ++ rel) (r ++ "/") = false) before ->
    MatchSpec.relative_path (before ++ root :: after)%list (root ++ "/" ++ rel) = rel.
Proof.
    unfold MatchSpec.relative_path.
    induction before as [| r before IH]; intros Hall; cbn [app find].
    - rewrite <- append_assoc. rewrite (HasPrefix_app (root ++ "/") rel).
      replace (len root + 1)%nat with (len (root ++ "/"))
        by (rewrite len_append; reflexivity).
      apply drop_append.
    - inversion Hall as [| ? ? Hr Hall']; subst. rewrite Hr. exact (IH Hall').
Qed.

Lemma relative_path_no_root (roots : list string) (path : string) :
    Forall (fun r => HasPrefix path (r ++ "/") = false) roots ->
    MatchSpec.relative_path roots path = path.
Proof.
    unfold MatchSpec.relative_path.
    induction roots as [| r roots IH]; intros Hall; cbn [find]; [reflexivity |].
    inversion Hall as [| ? ? Hr Hall']; subst. rewrite Hr. exact (IH Hall').
Qed.

(** X6.  The matcher looks at a path only relative to its root.  A path under
    a root is matched as the path below that root is matched by the same
    command without roots, so moving a project changes nothing; of
    several roots that contain the path, the first in declaration order
    counts, not the nearest; and a path under no root is matched as it
    is. *)
Theorem match_relative_to_first_root (wgoCmd : WgoCmd) :
    (forall (before after : list string) (root rel : string),
        Forall (fun r => HasPrefix (root ++ "/" ++ rel) (r ++ "/") = false) before ->
        match_ (set_Roots (before ++ root :: after)%list wgoCmd) (root ++ "/" ++ rel)
        = match_ (set_Roots [] wgoCmd) rel)
    /\ (forall (roots : list string) (path : string),
           Forall (fun r => HasPrefix path (r ++ "/") = false) roots ->
           match_ (set_Roots roots wgoCmd) path
           = match_ (set_Roots [] wgoCmd) path).
Proof.
    split.
    - intros before after root rel Hall.
      rewrite !match_decide. cbn [set_Roots Roots].
      rewrite (relative_path_first_root before after root rel Hall).
      reflexivity.
    - intros roots path Hall.
      rewrite !match_decide. cbn [set_Roots Roots].
      rewrite (relative_path_no_root roots path Hall).
      reflexivity.
Qed.

End RootFacts.


(** *** Runes at the end of a string *)

Lemma byte_to_byte (x : Z) : 0 <= x < 256 -> byte (to_byte x) = x.
Proof.
  intros H. unfold byte, to_byte. rewrite Z.mod_small by lia.
  rewrite N_ascii_embedding by lia. apply Z2N.id. lia.
Qed.

Lemma last_byte_snoc (s : string) (c : ascii) :
  last_byte (s ++ String c EmptyString) = Some c.
Proof.
  induction s as [| d s IH]; [reflexivity |].
  cbn [append last_byte]. rewrite IH.
  destruct (s ++ String c ""); [discriminate IH | reflexivity].
Qed.

Lemma last_byte_app (s t : string) :
  t <> EmptyString -> last_byte (s ++ t) = last_byte t.
Proof.
  intros Ht. induction s as [| d s IH]; [reflexivity |].
  cbn [append last_byte]. rewrite IH.
  destruct (s ++ t) eqn:E; [| reflexivity].
  destruct s; [cbn in E; contradiction | discriminate E].
Qed.

Lemma drop_last (s : string) (c : ascii) :
  last_byte s = Some c -> drop (len s - 1) s = String c EmptyString.
Proof.
  induction s as [| d s IH]; [discriminate |].
  destruct s as [| e s'].
  - cbn. now intros [= ->].
  - intros H. change (last_byte (String d (String e s'))) with (last_byte (String e s')) in H.
    specialize (IH H). rewrite !len_cons in *.
    replace (S (S (len s')) - 1)%nat with (S (S (len s') - 1)) by lia.
    exact IH.
Qed.

(** A rune below the ASCII bound is decoded from one byte, its own. *)
Lemma DecodeRune_low (s : string) (r : Z) (w : nat) :
  utf8.DecodeRuneInString s = (r, w) -> r < 128 ->
  exists c s', s = String c s' /\ byte c = r /\ w = 1%nat.
Proof.
  intros Hd Hr. destruct s as [| c s'].
  - cbn in Hd. injection Hd as <- <-. unfold utf8.RuneError in Hr. lia.
  - destruct (Z.lt_ge_cases (byte c) 128) as [Hlow | Hhigh].
    + rewrite DecodeRune_ascii in Hd by assumption. injection Hd as <- <-.
      now exists c, s'.
    + destruct (DecodeRune_high c s' Hhigh) as (r' & w' & Hd' & Hr' & _).
      rewrite Hd in Hd'. injection Hd' as <- <-. lia.
Qed.

Lemma DecodeLast_backslash (b : string) :
  (fst (utf8.DecodeLastRuneInString b) =? 92) = PatternSpec.ends_with_backslash b.
Proof.
  unfold utf8.DecodeLastRuneInString, PatternSpec.ends_with_backslash.
  destruct (last_byte b) as [c |] eqn:Hlast; [| reflexivity].
  change 92 with (byte "\"). rewrite ascii_eqb_byte.
  unfold utf8.RuneSelf.
  destruct (Z.ltb_spec (byte c) 128) as [Hlow | Hhigh]; [reflexivity |].
  replace (byte c =? byte "\") with false
    by (symmetry; apply Z.eqb_neq; change (byte "\") with 92; lia).
  set (start := Z.max 0 _).
  destruct (utf8.DecodeRuneInString (drop (Z.to_nat start) b)) as [r size] eqn:Hd.
  destruct (Z.eqb_spec (start + Z.of_nat size) (Z.of_nat (len b))) as [Hend | _];
    [| reflexivity].
  cbn [fst]. apply Z.eqb_neq. intros Hr.
  destruct (DecodeRune_low _ _ _ Hd ltac:(change (byte "\") with 92 in Hr; lia))
    as (c' & s' & Hs & Hc' & ->).
  assert (Hstart : Z.to_nat start = (len b - 1)%nat) by lia.
  rewrite Hstart, (drop_last _ _ Hlast) in Hs. injection Hs as <- _.
  change (byte "\") with 92 in Hr. lia.
Qed.

Lemma ends_with_backslash_snoc (b : string) (c : ascii) :
  PatternSpec.ends_with_backslash (b ++ String c EmptyString) = Ascii.eqb c "\".
Proof. unfold PatternSpec.ends_with_backslash. now rewrite last_byte_snoc. Qed.

Lemma lor_tx (y : Z) : 0 <= y < 64 -> Z.lor utf8.tx y = 128 + y.
Proof.
  intros H. change utf8.tx with (Z.shiftl 2 6).
  rewrite lor_shiftl_low by (change (2 ^ 6) with 64; lia). reflexivity.
Qed.

Lemma high_byte_not_backslash (y : Z) :
  0 <= y < 64 -> Ascii.eqb (to_byte (Z.lor utf8.tx y)) "\" = false.
Proof.
  intros H. rewrite ascii_eqb_byte, lor_tx, byte_to_byte by lia.
  apply Z.eqb_neq. change (byte "\") with 92. lia.
Qed.

(** The builder ends in a backslash after a rune is written exactly when
    the rune is the backslash. *)
Lemma ends_with_backslash_EncodeRune (b : string) (r : Z) :
  PatternSpec.ends_with_backslash (b ++ utf8.EncodeRune r) = (r =? 92).
Proof.
  assert (Hm : forall x, 0 <= Z.land x utf8.maskx < 64).
  { intros x. rewrite land_maskx. apply Z.mod_pos_bound. lia. }
  unfold utf8.EncodeRune, utf8.rune1Max, utf8.rune2Max, utf8.rune3Max, utf8.MaxRune,
    utf8.surrogateMin, utf8.surrogateMax.
  destruct (Z.leb_spec 0 r) as [Hpos | Hneg]; cbn [andb].
  - destruct (Z.leb_spec r 127) as [H1 | H1].
    + rewrite ends_with_backslash_snoc, ascii_eqb_byte, byte_to_byte by lia.
      reflexivity.
    + replace (r =? 92) with false by (symmetry; apply Z.eqb_neq; lia).
      destruct (r <=? 2047).
      { rewrite <- append_assoc, ends_with_backslash_snoc.
        apply high_byte_not_backslash, Hm. }
      destruct ((r <? 55296) || (57343 <? r) && (r <=? 65535)).
      { rewrite <- !append_assoc, ends_with_backslash_snoc.
        apply high_byte_not_backslash, Hm. }
      destruct ((65535 <? r) && (r <=? 1114111)).
      { rewrite <- !append_assoc, ends_with_backslash_snoc.
        apply high_byte_not_backslash, Hm. }
      unfold PatternSpec.ends_with_backslash.
      rewrite last_byte_app by discriminate. reflexivity.
  - replace (r =? 92) with false by (symmetry; apply Z.eqb_neq; lia).
    replace (65535 <? r) with false by (symmetry; apply Z.ltb_ge; lia).
    cbn [andb]. unfold PatternSpec.ends_with_backslash.
    rewrite last_byte_app by discriminate. reflexivity.
Qed.

(** *** The decoder and what follows the rune *)

Lemma DecodeRune_width (s : string) (r : Z) (w : nat) :
  s <> EmptyString -> utf8.DecodeRuneInString s = (r, w) ->
  (1 <= w <= len s)%nat.
Proof.
  intros Hs Hd. destruct s as [| c s']; [contradiction |].
  destruct (Z.lt_ge_cases (byte c) 128) as [Hlow | Hhigh].
  - rewrite DecodeRune_ascii in Hd by assumption. injection Hd as <- <-.
    rewrite len_cons. lia.
  - destruct (DecodeRune_high c s' Hhigh) as (r' & w' & Hd' & _ & Hw & _).
    rewrite Hd in Hd'. now injection Hd' as <- <-.
Qed.

Lemma not_continuation_ascii (c : ascii) :
  byte c < 128 -> utf8.continuation (byte c) = false.
Proof.
  intros H. unfold utf8.continuation, utf8.locb.
  replace (128 <=? byte c) with false by (symmetry; apply Z.leb_gt; lia).
  reflexivity.
Qed.

(** An ASCII byte after a string is never read into the first rune of the
    string. *)
Lemma DecodeRune_app_ascii (X t : string) (c : ascii) :
  X <> EmptyString -> byte c < 128 ->
  utf8.DecodeRuneInString (X ++ String c t) = utf8.DecodeRuneInString X.
Proof.
  intros HX Hc. destruct X as [| c0 X1]; [contradiction |].
  pose proof (not_continuation_ascii c Hc) as Hnc.
  cbn [append]. unfold utf8.DecodeRuneInString.
  destruct (utf8.first (byte c0)) as [| | sz lo hi] eqn:F; [reflexivity | reflexivity |].
  apply first_multi in F.
  assert (Hlo : (byte c <? lo) = true).
  { apply Z.ltb_lt. destruct F as [F | [F | F]]; lia. }
  destruct X1 as [| c1 X2].
  { cbn [append]. rewrite Hlo. cbn [orb]. destruct (_ <? sz)%nat; reflexivity. }
  cbn [append].
  destruct ((byte c1 <? lo) || (hi <? byte c1)).
  { destruct (_ <? sz)%nat; destruct (_ <? sz)%nat; reflexivity. }
  destruct F as [(-> & _) | [(-> & _) | (-> & _)]].
  - reflexivity.
  - destruct X2 as [| c2 X3]; cbn [append]; [| reflexivity].
    cbn [len String.length Nat.ltb Nat.leb negb]. rewrite Hnc. reflexivity.
  - destruct X2 as [| c2 X3]; cbn [append].
    + cbn [len String.length Nat.ltb Nat.leb negb]. rewrite Hnc.
      destruct (String.length t <=? 0)%nat; reflexivity.
    + destruct X3 as [| c3 X4]; cbn [append]; [| reflexivity].
      cbn [len String.length Nat.ltb Nat.leb negb]. rewrite Hnc.
      destruct (utf8.continuation (byte c2)); reflexivity.
Qed.

Lemma drop_all (s : string) (n : nat) : (len s <= n)%nat -> drop n s = EmptyString.
Proof.
  revert n. induction s as [| c s IH]; intros n H; [destruct n; reflexivity |].
  destruct n as [| n]; [rewrite len_cons in H; lia |].
  cbn. apply IH. rewrite len_cons in H. lia.
Qed.

Lemma drop_app_le (s t : string) (n : nat) :
  (n <= len s)%nat -> drop n (s ++ t) = drop n s ++ t.
Proof.
  revert n. induction s as [| c s IH]; intros n H.
  - assert (n = 0%nat) by (cbn in H; lia). now subst n.
  - destruct n as [| n]; [reflexivity |]. cbn. apply IH.
    rewrite len_cons in H. lia.
Qed.

(** *** The rewriting loop *)

Lemma compileRegexp_loop_spec (fuel : nat) :
  forall (pattern : string) (j : nat) (b : string),
    (len pattern - j <= fuel)%nat ->
    compileRegexp_loop fuel pattern j b
    = b ++ PatternSpec.rewrite_runes fuel (PatternSpec.ends_with_backslash b)
             (drop j pattern).
Proof.
  induction fuel as [| fuel IH]; intros pattern j b Hfuel.
  - cbn. now rewrite append_nil_r.
  - cbn [compileRegexp_loop PatternSpec.rewrite_runes].
    destruct (Nat.ltb_spec j (len pattern)) as [Hlt | Hge].
    + destruct (drop j pattern) as [| c s'] eqn:Hdrop.
      { pose proof (len_drop j pattern) as Hl. rewrite Hdrop in Hl. cbn in Hl. lia. }
      rewrite <- Hdrop.
      pose proof (DecodeLast_backslash b) as Hprev.
      destruct (utf8.DecodeLastRuneInString b) as [prev psz]. cbn [fst] in Hprev.
      destruct (utf8.DecodeRuneInString (drop j pattern)) as [curr width] eqn:Hd.
      assert (Hw : (1 <= width <= len (drop j pattern))%nat).
      { apply (DecodeRune_width _ curr); [rewrite Hdrop; discriminate | exact Hd]. }
      rewrite len_drop in Hw.
      rewrite drop_drop.
      destruct (utf8.DecodeRuneInString (drop (j + width) pattern)) as [next nsz].
      rewrite Hprev.
      destruct (negb (PatternSpec.ends_with_backslash b) && (curr =? 46) && isLetter next).
      * rewrite IH by lia.
        change "\." with ("\" ++ ".").
        rewrite <- (append_assoc b), ends_with_backslash_snoc.
        now rewrite !append_assoc.
      * rewrite IH by lia.
        now rewrite ends_with_backslash_EncodeRune, append_assoc.
    + rewrite drop_all by lia. now rewrite append_nil_r.
Qed.

Lemma rewrite_runes_fuel (fuel : nat) :
  forall (extra : nat) (pb : bool) (s : string),
    (len s <= fuel)%nat ->
    PatternSpec.rewrite_runes (fuel + extra) pb s = PatternSpec.rewrite_runes fuel pb s.
Proof.
  induction fuel as [| fuel IH]; intros extra pb s Hlen.
  - apply Nat.le_0_r, len_zero in Hlen. subst s. destruct extra; reflexivity.
  - cbn [Nat.add PatternSpec.rewrite_runes].
    destruct s as [| c s']; [reflexivity |].
    destruct (utf8.DecodeRuneInString (String c s')) as [curr width] eqn:Hd.
    assert (Hne : String c s' <> EmptyString) by discriminate.
    pose proof (DecodeRune_width _ _ _ Hne Hd) as Hw.
    assert (Hl : (len (drop width (String c s')) <= fuel)%nat)
      by (rewrite len_drop; lia).
    destruct (utf8.DecodeRuneInString (drop width (String c s'))) as [next nsz].
    now rewrite !IH by exact Hl.
Qed.

Lemma rewrite_rest_unfold (pb : bool) (s : string) :
  s <> EmptyString ->
  rewrite_rest pb s
  = let '(curr, width) := utf8.DecodeRuneInString s in
    let '(next, _) := utf8.DecodeRuneInString (drop width s) in
    if negb pb && (curr =? 46) && isLetter next then
      "\." ++ rewrite_rest false (drop width s)
    else
      utf8.EncodeRune curr ++ rewrite_rest (curr =? 92) (drop width s).
Proof.
  intros Hs. unfold rewrite_rest. destruct s as [| c s']; [contradiction |].
  rewrite len_cons. cbn [PatternSpec.rewrite_runes].
  destruct (utf8.DecodeRuneInString (String c s')) as [curr width] eqn:Hd.
  assert (Hne : String c s' <> EmptyString) by discriminate.
    pose proof (DecodeRune_width _ _ _ Hne Hd) as Hw.
  rewrite len_cons in Hw.
  destruct (utf8.DecodeRuneInString (drop width (String c s'))) as [next nsz].
  assert (Hf : forall pb', PatternSpec.rewrite_runes (len s') pb' (drop width (String c s'))
                           = PatternSpec.rewrite_runes (len (drop width (String c s'))) pb'
                               (drop width (String c s'))).
  { intros pb'.
    replace (len s') with (len (drop width (String c s'))
                           + (len s' - len (drop width (String c s'))))%nat
      by (rewrite len_drop, len_cons; lia).
    apply rewrite_runes_fuel. lia. }
  now rewrite !Hf.
Qed.

Lemma rewrite_dots_rest (pattern : string) :
  PatternSpec.rewrite_dots pattern = rewrite_rest false pattern.
Proof.
  unfold PatternSpec.rewrite_dots, rewrite_rest.
  rewrite compileRegexp_loop_spec by lia. reflexivity.
Qed.

(** *** Patterns that the loop leaves as they are *)

Lemma valid_from_step (fuel : nat) (s : string) (r : Z) (w : nat) :
  s <> EmptyString ->
  utf8.valid_from (S fuel) s = true ->
  utf8.DecodeRuneInString s = (r, w) ->
  ~ (r = utf8.RuneError /\ w = 1%nat) /\ utf8.valid_from fuel (drop w s) = true.
Proof.
  intros Hs Hv Hd. cbn [utf8.valid_from] in Hv.
  destruct s as [| c s']; [contradiction |].
  rewrite Hd in Hv. apply andb_true_iff in Hv. destruct Hv as [Hne Hv].
  split; [| exact Hv].
  intros [-> ->]. cbn in Hne. discriminate Hne.
Qed.

(** A rune that was validly decoded is written back as the bytes it was
    read from. *)
Lemma EncodeRune_DecodeRune (s : string) (r : Z) (w : nat) :
  s <> EmptyString ->
  utf8.DecodeRuneInString s = (r, w) ->
  ~ (r = utf8.RuneError /\ w = 1%nat) ->
  utf8.EncodeRune r = take w s.
Proof.
  intros Hs Hd Hne. destruct s as [| c s']; [contradiction |].
  destruct (Z.lt_ge_cases (byte c) 128) as [Hlow | Hhigh].
  - rewrite DecodeRune_ascii in Hd by assumption. injection Hd as <- <-.
    now rewrite EncodeRune_ascii.
  - destruct (DecodeRune_high c s' Hhigh) as (r' & w' & Hd' & _ & _ & _ & [Herr | Henc]).
    + rewrite Hd in Hd'. injection Hd' as <- <-. contradiction.
    + rewrite Hd in Hd'. now injection Hd' as <- <-.
Qed.

Lemma dot_letter_free_drop (n : nat) (s : string) :
  PatternSpec.dot_letter_free s = true ->
  PatternSpec.dot_letter_free (drop n s) = true.
Proof.
  revert s. induction n as [| n IH]; intros s H; [exact H |].
  destruct s as [| c s']; [reflexivity |].
  cbn [drop]. apply IH. cbn [PatternSpec.dot_letter_free] in H.
  apply andb_true_iff in H. tauto.
Qed.

Lemma isLetter_low (r : Z) : isLetter r = true -> r < 128.
Proof.
  unfold isLetter. intros H. apply orb_true_iff in H.
  destruct H as [H | H]; apply andb_true_iff in H; destruct H as [_ H];
    apply Z.leb_le in H; lia.
Qed.

(** The loop rewrites a dot only when a letter follows it in the
    pattern. *)
Lemma rewrite_condition (s : string) (pb : bool) (curr next : Z) (width nsz : nat) :
  utf8.DecodeRuneInString s = (curr, width) ->
  utf8.DecodeRuneInString (drop width s) = (next, nsz) ->
  negb pb && (curr =? 46) && isLetter next = true ->
  exists s', s = String "." s' /\ width = 1%nat
             /\ PatternSpec.starts_with_letter s' = true.
Proof.
  intros Hd Hn Hc. apply andb_true_iff in Hc. destruct Hc as [Hc Hl].
  apply andb_true_iff in Hc. destruct Hc as [_ Hc]. apply Z.eqb_eq in Hc. subst curr.
  destruct (DecodeRune_low _ _ _ Hd ltac:(lia)) as (c & s' & -> & Hc & ->).
  assert (c = "."%char) by (apply byte_inj; exact Hc). subst c.
  exists s'. split; [reflexivity |]. split; [reflexivity |].
  cbn [drop] in Hn.
  destruct (DecodeRune_low _ _ _ Hn (isLetter_low _ Hl)) as (c' & s'' & -> & Hc' & _).
  cbn. now rewrite Hc'.
Qed.

Lemma rewrite_runes_identity (fuel : nat) :
  forall (s : string) (pb : bool),
    (len s <= fuel)%nat ->
    utf8.valid_from fuel s = true ->
    PatternSpec.dot_letter_free s = true ->
    PatternSpec.rewrite_runes fuel pb s = s.
Proof.
  induction fuel as [| fuel IH]; intros s pb Hlen Hv Hfree.
  - apply Nat.le_0_r, len_zero in Hlen. now subst s.
  - destruct s as [| c s']; [reflexivity |].
    set (s := String c s') in *.
    assert (Hs : s <> EmptyString) by discriminate.
    cbn [PatternSpec.rewrite_runes]. fold s.
    destruct (utf8.DecodeRuneInString s) as [curr width] eqn:Hd.
    destruct (utf8.DecodeRuneInString (drop width s)) as [next nsz] eqn:Hn.
    destruct (valid_from_step _ _ _ _ Hs Hv Hd) as [Hok Hv'].
    pose proof (DecodeRune_width _ _ _ Hs Hd) as Hw.
    destruct (negb pb && (curr =? 46) && isLetter next) eqn:Hc.
    + destruct (rewrite_condition _ _ _ _ _ _ Hd Hn Hc) as (t & Ht & _ & Hl).
      rewrite Ht in Hfree. cbn [PatternSpec.dot_letter_free] in Hfree.
      rewrite Hl in Hfree. discriminate Hfree.
    + rewrite IH.
      * rewrite (EncodeRune_DecodeRune _ _ _ Hs Hd Hok). apply take_drop.
      * rewrite len_drop. subst s. rewrite len_cons in *. lia.
      * exact Hv'.
      * now apply dot_letter_free_drop.
Qed.

Lemma ValidString_strip (pattern : string) :
  utf8.ValidString pattern = true ->
  utf8.ValidString (PatternSpec.strip_dot_slash pattern) = true.
Proof.
  unfold PatternSpec.strip_dot_slash, utf8.ValidString. intros Hv.
  destruct (HasPrefix pattern "./" && (2 <? len pattern)%nat) eqn:Hp; [| exact Hv].
  apply andb_true_iff in Hp. destruct Hp as [Hp _].
  apply HasPrefix_split in Hp. cbn [append len String.length] in Hp.
  set (rest := drop 2 pattern) in *. rewrite Hp in Hv.
  rewrite !len_cons in Hv.
  assert (H1 : String "." (String "/" rest) <> EmptyString) by discriminate.
  assert (H2 : String "/" rest <> EmptyString) by discriminate.
  assert (Hdot : byte "." < 128) by (cbn; lia).
  assert (Hslash : byte "/" < 128) by (cbn; lia).
  destruct (valid_from_step _ _ _ _ H1 Hv (DecodeRune_ascii "." _ Hdot)) as [_ Hv1].
  cbn [drop] in Hv1.
  destruct (valid_from_step _ _ _ _ H2 Hv1 (DecodeRune_ascii "/" _ Hslash)) as [_ Hv2].
  exact Hv2.
Qed.

Lemma CountByte_zero_mem (s : string) (c : ascii) :
  CountByte s c = 0%nat -> mem c s = false.
Proof.
  induction s as [| d s IH]; [reflexivity |].
  cbn [CountByte mem]. destruct (Ascii.eqb d c); [discriminate |].
  intros H. now apply IH.
Qed.

(** *** A rewritten dot splits the pattern *)

Lemma all_high_not_backslash (s : string) :
  s <> EmptyString -> all_high s = true ->
  PatternSpec.ends_with_backslash s = false.
Proof.
  unfold PatternSpec.ends_with_backslash.
  induction s as [| c s IH]; intros Hs Hh; [contradiction |].
  cbn [all_high] in Hh. apply andb_true_iff in Hh. destruct Hh as [Hc Hh].
  destruct s as [| d s'].
  - cbn [last_byte]. rewrite ascii_eqb_byte. apply Z.eqb_neq.
    apply Z.leb_le in Hc. change (byte "\") with 92. lia.
  - change (last_byte (String c (String d s'))) with (last_byte (String d s')).
    apply IH; [discriminate | exact Hh].
Qed.

Lemma after_one_rune (X : string) (curr : Z) (w : nat) :
  X <> EmptyString ->
  utf8.DecodeRuneInString X = (curr, w) ->
  drop w X = EmptyString ->
  PatternSpec.ends_with_backslash X = (curr =? 92).
Proof.
  intros HX Hd Hdrop. destruct X as [| c X']; [contradiction |].
  destruct (Z.lt_ge_cases (byte c) 128) as [Hlow | Hhigh].
  - rewrite DecodeRune_ascii in Hd by assumption. injection Hd as <- <-.
    cbn [drop] in Hdrop. subst X'.
    unfold PatternSpec.ends_with_backslash. cbn [last_byte].
    now rewrite ascii_eqb_byte.
  - destruct (DecodeRune_high c X' Hhigh) as (r' & w' & Hd' & Hr & Hw & Hh & _).
    rewrite Hd in Hd'. injection Hd' as <- <-.
    pose proof (take_drop w (String c X')) as Htd. rewrite Hdrop, append_nil_r in Htd.
    rewrite Htd in Hh.
    rewrite (all_high_not_backslash _ HX Hh).
    symmetry. apply Z.eqb_neq. lia.
Qed.

Lemma rewrite_rest_app_dot (n : nat) :
  forall (X t : string) (pb : bool),
    (len X <= n)%nat ->
    rewrite_rest pb (X ++ String "." t)
    = rewrite_rest pb X ++ rewrite_rest (after pb X) (String "." t).
Proof.
  induction n as [| n IH]; intros X t pb Hlen.
  - apply Nat.le_0_r, len_zero in Hlen. subst X. reflexivity.
  - destruct X as [| c X']; [reflexivity |].
    set (X := String c X') in *.
    assert (HX : X <> EmptyString) by discriminate.
    assert (HXt : X ++ String "." t <> EmptyString) by discriminate.
    rewrite (rewrite_rest_unfold pb _ HXt), (rewrite_rest_unfold pb _ HX).
    rewrite (DecodeRune_app_ascii X t "." HX) by (cbn; lia).
    destruct (utf8.DecodeRuneInString X) as [curr width] eqn:Hd.
    pose proof (DecodeRune_width _ _ _ HX Hd) as Hw.
    rewrite drop_app_le by lia.
    assert (Hshort : (len (drop width X) <= n)%nat).
    { rewrite len_drop. subst X. rewrite len_cons in *. lia. }
    destruct (drop width X) as [| d Y'] eqn:Hdrop.
    + (* the last rune of X: a dot follows it, not a letter *)
      cbn [append]. rewrite (DecodeRune_ascii "." t) by (cbn; lia).
      cbn [utf8.DecodeRuneInString].
      replace (isLetter (byte ".")) with false by reflexivity.
      replace (isLetter utf8.RuneError) with false by reflexivity.
      rewrite !andb_false_r.
      unfold after at 1. fold X.
      rewrite (after_one_rune X curr width HX Hd Hdrop).
      change (rewrite_rest (curr =? 92) "") with EmptyString.
      destruct X; [contradiction |]. now rewrite append_nil_r.
    + rewrite <- Hdrop in *.
      assert (HY : drop width X <> EmptyString) by (rewrite Hdrop; discriminate).
      rewrite (DecodeRune_app_ascii _ t "." HY) by (cbn; lia).
      destruct (utf8.DecodeRuneInString (drop width X)) as [next nsz].
      assert (Hafter : forall pb', after pb' (drop width X) = after pb X).
      { intros pb'. unfold after. rewrite Hdrop. rewrite <- Hdrop.
        destruct X; [contradiction |].
        unfold PatternSpec.ends_with_backslash.
        rewrite <- (take_drop width (String a X)) at 2.
        now rewrite last_byte_app. }
      destruct (negb pb && (curr =? 46) && isLetter next);
        rewrite IH by exact Hshort; rewrite Hafter, append_assoc; reflexivity.
Qed.

Lemma rewrite_dots_split (X rest : string) (Y : ascii) :
  isLetter (byte Y) = true ->
  PatternSpec.ends_with_backslash X = false ->
  PatternSpec.rewrite_dots (X ++ String "." (String Y rest))
  = PatternSpec.rewrite_dots X ++ "\." ++ PatternSpec.rewrite_dots (String Y rest).
Proof.
  intros HY HX. rewrite !rewrite_dots_rest.
  rewrite (rewrite_rest_app_dot (len X)) by lia.
  replace (after false X) with false by (destruct X; [reflexivity | now cbn]).
  f_equal.
  assert (Hne : String "." (String Y rest) <> EmptyString) by discriminate.
  rewrite (rewrite_rest_unfold false _ Hne).
  rewrite (DecodeRune_ascii "." _) by (cbn; lia). cbn [drop].
  rewrite (DecodeRune_ascii Y rest (isLetter_low _ HY)).
  rewrite HY. reflexivity.
Qed.

Lemma compileRegexp_text_dots (pattern : string) :
  CountByte pattern "." <> 0%nat ->
  compileRegexp_text pattern
  = PatternSpec.rewrite_dots (PatternSpec.strip_dot_slash pattern).
Proof.
  intros H. unfold compileRegexp_text.
  destruct (Nat.eqb_spec (CountByte pattern ".") 0); [contradiction | reflexivity].
Qed.

(** C5, as the code has it.  A pattern without a dot is compiled as it
    is.  A valid UTF-8 pattern in which, once a leading dot-slash is
    stripped, no dot is followed by a letter is compiled as the stripped
    pattern: the raw pattern when nothing is stripped.  In a pattern of
    the shape [X.Yrest], with [Y] a letter and [X] not ending in a
    backslash, the loop writes the dot as an escaped, literal dot between
    the rewritings of [X] and of [Yrest]; whether the compiled pattern then
    rejects [X@Yrest] depends on the rest of the pattern. *)
Theorem dot_literal_sugar :
  (forall (RE : RegexpPkg) pattern,
      compileRegexp pattern
      = match regexp_Compile (compileRegexp_text pattern) with
        | Some r => Ok r
        | None => Err (ErrRegexp (compileRegexp_text pattern))
        end)
  /\ (forall pattern,
         CountByte pattern "." = 0%nat -> compileRegexp_text pattern = pattern)
  /\ (forall pattern,
         utf8.ValidString pattern = true ->
         PatternSpec.dot_letter_free (PatternSpec.strip_dot_slash pattern) = true ->
         compileRegexp_text pattern = PatternSpec.strip_dot_slash pattern)
  /\ (forall pattern,
         CountByte pattern "." <> 0%nat ->
         compileRegexp_text pattern
         = PatternSpec.rewrite_dots (PatternSpec.strip_dot_slash pattern))
  /\ (forall X Y rest,
         isLetter (byte Y) = true ->
         PatternSpec.ends_with_backslash X = false ->
         PatternSpec.rewrite_dots (X ++ String "." (String Y rest))
         = PatternSpec.rewrite_dots X ++ "\."
             ++ PatternSpec.rewrite_dots (String Y rest)).
Proof.
  split; [reflexivity |]. split; [| split; [| split]].
  - intros pattern H. unfold compileRegexp_text. now rewrite H.
  - intros pattern Hv Hfree.
    destruct (Nat.eq_dec (CountByte pattern ".") 0) as [Hz | Hnz].
    + unfold compileRegexp_text. rewrite Hz. cbn [Nat.eqb].
      unfold PatternSpec.strip_dot_slash.
      destruct (HasPrefix pattern "./") eqn:Hp; [| reflexivity].
      apply HasPrefix_split in Hp. rewrite Hp in Hz. cbn in Hz. discriminate Hz.
    + rewrite compileRegexp_text_dots by exact Hnz.
      rewrite rewrite_dots_rest. unfold rewrite_rest.
      apply rewrite_runes_identity; [lia | | exact Hfree].
      now apply ValidString_strip.
  - exact compileRegexp_text_dots.
  - intros X Y rest. apply rewrite_dots_split.
Qed.

(** The witness of C5, on patterns of the repository's own tests. *)
Lemma dot_literal_sugar_witness :
  compileRegexp_text "ab\wd" = "ab\wd"
  /\ compileRegexp_text "(.)html" = PatternSpec.strip_dot_slash "(.)html"
  /\ compileRegexp_text "./testdata/hello_world/main.go"
     = PatternSpec.rewrite_dots
         (PatternSpec.strip_dot_slash "./testdata/hello_world/main.go")
  /\ PatternSpec.rewrite_dots ("footer" ++ String "." (String "h" "tml"))
     = PatternSpec.rewrite_dots "footer" ++ "\."
         ++ PatternSpec.rewrite_dots (String "h" "tml")
  /\ compileRegexp_text "footer.html" = "footer\.html"
  /\ option_map (fun r => SimpleRegexp.search r "footer@html")
       (SimpleRegexp.Compile (compileRegexp_text "footer.html")) = Some false
  /\ option_map (fun r => SimpleRegexp.search r "footer.html")
       (SimpleRegexp.Compile (compileRegexp_text "footer.html")) = Some true.
Proof.
  destruct dot_literal_sugar as (_ & Ha & Hb & Hc & Hd).
  split; [apply Ha; reflexivity |].
  split; [apply Hb; reflexivity |].
  split; [apply Hc; discriminate |].
  split; [apply Hd; reflexivity |].
  repeat split; vm_compute; reflexivity.
Defined.

(** C5 as stated fails in three ways.  A leading dot-slash is stripped
    though its dot is followed by a non-letter, and the compiled pattern
    then matches other strings than the raw one.  A byte that is not UTF-8
    is replaced though no dot is followed by a letter.  And the compiled
    form of [a|b.c], of the shape [X.Yrest], matches [a|b@c]. *)
Lemma dot_literal_sugar_counterexamples :
  (PatternSpec.dot_letter_free "./x" = true
   /\ compileRegexp_text "./x" = "x"
   /\ option_map (fun r => SimpleRegexp.search r "x")
        (SimpleRegexp.Compile (compileRegexp_text "./x")) = Some true
   /\ option_map (fun r => SimpleRegexp.search r "x")
        (SimpleRegexp.Compile "./x") = Some false)
  /\ (PatternSpec.dot_letter_free (String (ascii_of_nat 255) ".") = true
      /\ compileRegexp_text (String (ascii_of_nat 255) ".")
         = utf8.EncodeRune utf8.RuneError ++ "."
      /\ compileRegexp_text (String (ascii_of_nat 255) ".")
         <> String (ascii_of_nat 255) ".")
  /\ (isLetter (byte "c") = true
      /\ compileRegexp_text ("a|b" ++ String "." (String "c" ""))
         = "a|b\.c"
      /\ option_map (fun r => SimpleRegexp.search r ("a|b" ++ String "@" (String "c" "")))
           (SimpleRegexp.Compile
              (compileRegexp_text ("a|b" ++ String "." (String "c" ""))))
         = Some true).
Proof.
  repeat split; try (vm_compute; reflexivity).
  vm_compute. discriminate.
Qed.


(** *** Dots that are escaped already *)

(** The bytes of a rune beyond ASCII hold no dot and no backslash. *)
Lemma dots_escaped_high (w : nat) :
  forall (s : string) (pb : bool),
    (1 <= w <= len s)%nat ->
    all_high (take w s) = true ->
    dots_escaped pb s = true ->
    dots_escaped false (drop w s) = true.
Proof.
  induction w as [| w IH]; intros s pb Hw Hh He; [lia |].
  destruct s as [| c s]; [cbn in Hw; lia |].
  cbn [take all_high] in Hh. apply andb_true_iff in Hh. destruct Hh as [Hc Hh].
  apply Z.leb_le in Hc.
  cbn [dots_escaped] in He. apply andb_true_iff in He. destruct He as [_ He].
  assert (Hbs : Ascii.eqb c "\" = false).
  { rewrite ascii_eqb_byte. apply Z.eqb_neq. cbn. lia. }
  rewrite Hbs in He. cbn [drop].
  destruct w as [| w]; [exact He |].
  apply (IH s false); [rewrite len_cons in Hw; lia | exact Hh | exact He].
Qed.

Lemma rewrite_runes_escaped (fuel : nat) :
  forall (s : string) (pb : bool),
    (len s <= fuel)%nat ->
    utf8.valid_from fuel s = true ->
    dots_escaped pb s = true ->
    PatternSpec.rewrite_runes fuel pb s = s.
Proof.
  induction fuel as [| fuel IH]; intros s pb Hlen Hv He.
  - apply Nat.le_0_r, len_zero in Hlen. now subst s.
  - destruct s as [| c s']; [reflexivity |].
    set (s := String c s') in *.
    assert (Hs : s <> EmptyString) by discriminate.
    cbn [PatternSpec.rewrite_runes]. fold s.
    destruct (utf8.DecodeRuneInString s) as [curr width] eqn:Hd.
    destruct (utf8.DecodeRuneInString (drop width s)) as [next nsz] eqn:Hn.
    destruct (valid_from_step _ _ _ _ Hs Hv Hd) as [Hok Hv'].
    pose proof (DecodeRune_width _ _ _ Hs Hd) as Hw.
    destruct (negb pb && (curr =? 46) && isLetter next) eqn:Hc.
    + destruct (rewrite_condition _ _ _ _ _ _ Hd Hn Hc) as (t & Ht & _ & Hl).
      apply andb_true_iff in Hc. destruct Hc as [Hc _].
      apply andb_true_iff in Hc. destruct Hc as [Hpb _].
      apply negb_true_iff in Hpb. subst pb.
      rewrite Ht in He. cbn [dots_escaped] in He. rewrite Hl in He.
      discriminate He.
    + rewrite IH.
      * rewrite (EncodeRune_DecodeRune _ _ _ Hs Hd Hok). apply take_drop.
      * rewrite len_drop. subst s. rewrite len_cons in *. lia.
      * exact Hv'.
      * subst s. destruct (Z.lt_ge_cases (byte c) 128) as [Hlow | Hhigh].
        -- rewrite DecodeRune_ascii in Hd by assumption. injection Hd as <- <-.
           cbn [dots_escaped] in He. apply andb_true_iff in He.
           destruct He as [_ He]. cbn [drop].
           rewrite ascii_eqb_byte in He. exact He.
        -- destruct (DecodeRune_high c s' Hhigh) as (r & w & Hd' & Hr & Hw' & Hh & _).
           rewrite Hd in Hd'. injection Hd' as <- <-.
           replace (curr =? 92) with false by (symmetry; apply Z.eqb_neq; lia).
           exact (dots_escaped_high width _ pb Hw' Hh He).
Qed.

(** X19.  A pattern whose dots are escaped already is left alone: when the
    pattern is valid UTF-8 and, once a leading dot-slash is stripped,
    every dot that a letter follows comes right after a backslash, the
    text handed to [regexp.Compile] is the stripped pattern, byte for
    byte.  The loop looks at the byte before the dot only, so the second
    backslash of an escaped backslash counts as well. *)
Theorem escaped_dots_are_kept (pattern : string) :
  utf8.ValidString pattern = true ->
  let stripped :=
    if HasPrefix pattern "./" && (2 <? len pattern)%nat
    then drop 2 pattern else pattern in
  dots_escaped false stripped = true ->
  compileRegexp_text pattern = stripped.
Proof.
  intros Hv stripped He.
  change stripped with (PatternSpec.strip_dot_slash pattern) in *.
  destruct (Nat.eq_dec (CountByte pattern ".") 0) as [Hz | Hnz].
  - unfold compileRegexp_text. rewrite Hz. cbn [Nat.eqb].
    unfold PatternSpec.strip_dot_slash.
    destruct (HasPrefix pattern "./") eqn:Hp; [| reflexivity].
    apply HasPrefix_split in Hp. rewrite Hp in Hz. cbn in Hz. discriminate Hz.
  - rewrite compileRegexp_text_dots by exact Hnz.
    rewrite rewrite_dots_rest. unfold rewrite_rest.
    apply rewrite_runes_escaped; [lia | | exact He].
    now apply ValidString_strip.
Qed.


(** *** The event loop *)

Section RunFacts.
  Context {RE : RegexpPkg}.
  Variable wgoCmd : WgoCmd.

Lemma enter_consistent (rc i : nat) (st : RunState) :
    consistent wgoCmd (mkRunState (enter wgoCmd rc i) rc (timer st) (added st)).
Proof.
    unfold consistent, enter. cbn [phase restartCount].
    destruct (nth_error (ArgsList wgoCmd) i) as [args |] eqn:Hn; [| exact I].
    destruct ((rc =? 0)%nat && Postpone wgoCmd) eqn:Hp; [exact I |].
    destruct args; [exact I |].
    split; [| reflexivity].
    apply nth_error_Some. rewrite Hn. discriminate.
Qed.

Lemma restart_consistent (st : RunState) : consistent wgoCmd (restart wgoCmd st).
Proof.
    unfold consistent, restart, enter. cbn [phase restartCount].
    destruct (nth_error (ArgsList wgoCmd) 0) as [args |] eqn:Hn; [| exact I].
    cbn [Nat.eqb andb]. destruct args; [exact I |].
    split; [| reflexivity].
    apply nth_error_Some. rewrite Hn. discriminate.
Qed.

Lemma handle_event_phase (now : Z) (st : RunState) (event : fsnotify.Event)
      (stat : option bool) :
    phase (handle_event wgoCmd now st event stat) = phase st
    /\ restartCount (handle_event wgoCmd now st event stat) = restartCount st.
Proof.
    unfold handle_event.
    destruct (negb (fsnotify.Has event fsnotify.Create)
              && negb (fsnotify.Has event fsnotify.Write)); [auto |].
    destruct stat as [[|] |]; [| | auto].
    - destruct (fsnotify.Has event fsnotify.Create && (PollDuration wgoCmd =? 0)); auto.
    - destruct (match_ wgoCmd (fsnotify.Name event)); auto.
Qed.

Lemma handle_event_consistent (now : Z) (st : RunState) (event : fsnotify.Event)
      (stat : option bool) :
    consistent wgoCmd st -> consistent wgoCmd (handle_event wgoCmd now st event stat).
Proof.
    unfold consistent.
    destruct (handle_event_phase now st event stat) as [-> ->]. auto.
Qed.

(** Every step keeps the invariant. *)
Lemma step_consistent (now : Z) (st st' : RunState) (inp : Input) :
    consistent wgoCmd st -> step wgoCmd now st inp = Some st' -> consistent wgoCmd st'.
Proof.
    intros Hc. unfold step.
    destruct (phase st) as [| i | i | i | err | |] eqn:Hp; destruct inp as [| e | e | ev stat |];
      try discriminate;
      try (intros [= <-]; exact I);
      try (intros [= <-]; now apply handle_event_consistent);
      try (destruct (timer_due now st); [intros [= <-]; apply restart_consistent
                                        | discriminate]).
    - destruct e; intros [= <-]; [exact I |].
      unfold consistent in *. rewrite Hp in Hc. exact Hc.
    - intros [= <-]. unfold handle_result.
      unfold consistent in Hc. rewrite Hp in Hc.
      destruct (i =? List.length (ArgsList wgoCmd) - 1)%nat.
      + destruct (Exit wgoCmd); [exact I | exact Hc].
      + destruct e; [exact Hc |]. apply enter_consistent.
Qed.

Lemma run_consistent (trace : list (Z * Input)) :
    forall st st',
      consistent wgoCmd st -> run wgoCmd st trace = Some st' -> consistent wgoCmd st'.
Proof.
    induction trace as [| [now inp] trace IH]; intros st st' Hc; cbn [run].
    - now intros [= <-].
    - destruct (step wgoCmd now st inp) as [st1 |] eqn:Hs; [| discriminate].
      apply IH. exact (step_consistent _ _ _ _ Hc Hs).
Qed.

Lemma reachable_consistent (st : RunState) :
    reachable wgoCmd st -> consistent wgoCmd st.
Proof.
    intros [trace Hrun]. apply (run_consistent trace (Run_init wgoCmd)); [| exact Hrun].
    apply (enter_consistent 0 0 (mkRunState Spinning 0 None [])).
Qed.

(** **** Events that are ignored *)

(** C9.  While the loop selects, an event that is neither a create nor a
    write, and an event whose path cannot be stat'ed, are read and dropped:
    the state after the step is the state before it, so the timer is not
    armed, no restart happens and [Run] does not return.  A trace of such
    events leaves the state as it is. *)
Theorem ignored_events_change_nothing :
    (forall now st event stat,
        selecting (phase st) = true ->
        (fsnotify.Has event fsnotify.Create = false
         /\ fsnotify.Has event fsnotify.Write = false)
        \/ stat = None ->
        step wgoCmd now st (FsEvent event stat) = Some st)
    /\ (forall trace st,
           selecting (phase st) = true ->
           Forall (fun ti =>
                     exists event stat,
                       snd ti = FsEvent event stat
                       /\ ((fsnotify.Has event fsnotify.Create = false
                            /\ fsnotify.Has event fsnotify.Write = false)
                           \/ stat = None)) trace ->
           run wgoCmd st trace = Some st)
    /\ (forall name,
           fsnotify.Has (fsnotify.mkEvent name fsnotify.Remove) fsnotify.Create = false
           /\ fsnotify.Has (fsnotify.mkEvent name fsnotify.Remove) fsnotify.Write = false
           /\ fsnotify.Has (fsnotify.mkEvent name fsnotify.Rename) fsnotify.Create = false
           /\ fsnotify.Has (fsnotify.mkEvent name fsnotify.Rename) fsnotify.Write = false
           /\ fsnotify.Has (fsnotify.mkEvent name fsnotify.Chmod) fsnotify.Create = false
           /\ fsnotify.Has (fsnotify.mkEvent name fsnotify.Chmod) fsnotify.Write = false).
Proof.
    assert (Hstep : forall now st event stat,
               selecting (phase st) = true ->
               (fsnotify.Has event fsnotify.Create = false
                /\ fsnotify.Has event fsnotify.Write = false)
               \/ stat = None ->
               step wgoCmd now st (FsEvent event stat) = Some st).
    { intros now st event stat Hsel Hign.
      assert (Hh : handle_event wgoCmd now st event stat = st).
      { unfold handle_event. destruct Hign as [[-> ->] | ->]; [reflexivity |].
        destruct (negb (fsnotify.Has event fsnotify.Create)
                  && negb (fsnotify.Has event fsnotify.Write)); reflexivity. }
      unfold step. destruct (phase st); try discriminate Hsel; now rewrite Hh. }
    split; [exact Hstep |]. split.
    - induction trace as [| [now inp] trace IH]; intros st Hsel Hall; [reflexivity |].
      inversion Hall as [| x l (event & stat & Hinp & Hign) Hall']. subst x l.
      cbn [snd] in Hinp. subst inp. cbn [run].
      rewrite Hstep by assumption.
      exact (IH st Hsel Hall').
    - intros name. repeat split; reflexivity.
Qed.


(** **** The exit of a child *)



(** **** The debounce timer *)





End RunFacts.

Section RunExamples.
  Existing Instance SimpleRegexp.pkg.

(** The witness of C9: while the first child of [wgo go build :: ./out]
    runs with the timer armed, a chmod of [main.go] and a write to a path
    that cannot be stat'ed leave the state as it is. *)
Lemma ignored_events_change_nothing_witness :
  WgoCommand Sample.host 1 ["go"; "build"; "::"; "./out"] = Ok Sample.cmd
  /\ step Sample.cmd 100 (mkRunState (Running 0) 0 (Some 500) [])
          (FsEvent (fsnotify.mkEvent "/home/user/project/main.go" fsnotify.Chmod)
                   (Some false))
     = Some (mkRunState (Running 0) 0 (Some 500) [])
  /\ step Sample.cmd 100 (mkRunState (Running 0) 0 (Some 500) [])
          (FsEvent (fsnotify.mkEvent "/home/user/project/main.go" fsnotify.Write)
                   None)
     = Some (mkRunState (Running 0) 0 (Some 500) []).
Proof.
  split; [vm_compute; reflexivity |].
  destruct (ignored_events_change_nothing Sample.cmd) as (H & _ & _).
  split; apply H; try reflexivity.
  - left. split; reflexivity.
  - right. reflexivity.
Defined.



End RunExamples.


(** *** Whole runs of the event loop *)

Section TraceFacts.
  Context {RE : RegexpPkg}.
  Variable wgoCmd : WgoCmd.

(** An event that is not a matching one leaves the timer as it is. *)
Lemma handle_event_timer (now : Z) (st : RunState) (event : fsnotify.Event)
      (stat : option bool) :
    matching wgoCmd (FsEvent event stat) = false ->
    timer (handle_event wgoCmd now st event stat) = timer st.
Proof.
    unfold matching, handle_event.
    destruct (fsnotify.Has event fsnotify.Create);
      destruct (fsnotify.Has event fsnotify.Write);
      destruct stat as [[|] |]; cbn [negb andb orb]; try reflexivity.
    all: try (destruct (PollDuration wgoCmd =? 0); reflexivity).
    all: intros ->; reflexivity.
Qed.

Lemma handle_event_armed (now : Z) (st : RunState) (event : fsnotify.Event)
      (stat : option bool) :
    (armed (handle_event wgoCmd now st event stat)
     <= armed st + (if matching wgoCmd (FsEvent event stat) then 1 else 0))%nat.
Proof.
    destruct (matching wgoCmd (FsEvent event stat)) eqn:Hm.
    - unfold armed. destruct (timer (handle_event _ _ _ _ _)); lia.
    - unfold armed. rewrite handle_event_timer by exact Hm. lia.
Qed.

(** One step: the restarts and the armed timer together grow by at most
    one, and only on a matching event; the restarts never decrease. *)
Lemma step_restarts (now : Z) (st st' : RunState) (inp : Input) :
    step wgoCmd now st inp = Some st' ->
    (restartCount st <= restartCount st')%nat
    /\ (restartCount st' + armed st'
        <= restartCount st + armed st
           + (if matching wgoCmd inp then 1 else 0))%nat.
Proof.
    unfold step.
    destruct (phase st) as [| i | i | i | err | |];
      destruct inp as [| e | e | ev stat |]; try discriminate;
      try (intros [= <-]; unfold armed; cbn [return_ goto restartCount timer matching];
           destruct (timer st); lia);
      try (intros [= <-];
           destruct (handle_event_phase wgoCmd now st ev stat) as [_ ->];
           pose proof (handle_event_armed now st ev stat); lia);
      try (unfold timer_due; destruct (timer st) as [d |] eqn:Ht; [| discriminate];
           destruct (d <=? now); [| discriminate];
           intros [= <-]; unfold armed, restart; cbn [restartCount timer matching];
           rewrite Ht; lia).
    - destruct e; intros [= <-]; unfold armed;
        cbn [return_ goto restartCount timer matching]; destruct (timer st); lia.
    - intros [= <-]. unfold handle_result.
      destruct (i =? List.length (ArgsList wgoCmd) - 1)%nat;
        [destruct (Exit wgoCmd) | destruct e];
        unfold armed; cbn [return_ goto restartCount timer matching];
        destruct (timer st); lia.
Qed.

Lemma run_restarts (trace : list (Z * Input)) :
    forall st st',
      run wgoCmd st trace = Some st' ->
      (restartCount st <= restartCount st')%nat
      /\ (restartCount st' + armed st'
          <= restartCount st + armed st + count_matching wgoCmd trace)%nat.
Proof.
    induction trace as [| [now inp] trace IH]; intros st st'; cbn [run].
    - intros [= <-]. unfold count_matching. cbn. lia.
    - destruct (step wgoCmd now st inp) as [st1 |] eqn:Hs; [| discriminate].
      intros Hrun. destruct (step_restarts _ _ _ _ Hs) as [H1 H2].
      destruct (IH _ _ Hrun) as [H3 H4].
      unfold count_matching in *. cbn [filter snd].
      destruct (matching wgoCmd inp); cbn [List.length]; lia.
Qed.

(** X9.  The chain restarts only through the debounce timer, and every restart
    uses up a timer that a matching file event armed: from a state with
    the timer idle, a run restarts the chain at most as many times as it
    has matching file events, so not at all when it has none, whatever
    else happens (children exiting, directories created, events that are
    filtered out). *)
Theorem restarts_bounded_by_matching_events
        (st st' : RunState) (trace : list (Z * Input)) :
    timer st = None ->
    run wgoCmd st trace = Some st' ->
    (restartCount st <= restartCount st'
     <= restartCount st + count_matching wgoCmd trace)%nat
    /\ (count_matching wgoCmd trace = 0%nat ->
        restartCount st' = restartCount st /\ timer st' = None).
Proof.
    intros Ht Hrun. destruct (run_restarts trace st st' Hrun) as [H1 H2].
    assert (Ha : armed st = 0%nat) by (unfold armed; now rewrite Ht).
    split; [lia |].
    intros H0. split; [lia |].
    assert (armed st' = 0%nat) by lia.
    unfold armed in H. destruct (timer st'); [discriminate | reflexivity].
Qed.

(** Under Postpone, the loop of pass zero is left only by returning or by
    the timer. *)
Lemma postponed_steps (now : Z) (st st' : RunState) (inp : Input) :
    phase st = Postponed -> step wgoCmd now st inp = Some st' ->
    (phase st' = Postponed /\ restartCount st' = restartCount st)
    \/ phase st' = Returned None
    \/ (inp = TimerC /\ st' = restart wgoCmd st).
Proof.
    intros Hp. unfold step. rewrite Hp.
    destruct inp as [| e | e | ev stat |]; try discriminate.
    - intros [= <-]. right. left. reflexivity.
    - intros [= <-]. left.
      destruct (handle_event_phase wgoCmd now st ev stat) as [-> ->]. auto.
    - destruct (timer_due now st); [| discriminate].
      intros [= <-]. right. right. auto.
Qed.

Lemma returned_terminal (trace : list (Z * Input)) (st st' : RunState) (err : option error) :
    phase st = Returned err -> run wgoCmd st trace = Some st' -> st' = st.
Proof.
    intros Hp. destruct trace as [| [now inp] trace]; cbn [run].
    - now intros [= <-].
    - unfold step. rewrite Hp. discriminate.
Qed.

Lemma run_postponed (trace : list (Z * Input)) :
    forall st st',
      phase st = Postponed -> restartCount st = 0%nat ->
      Forall (fun ti => snd ti <> TimerC) trace ->
      run wgoCmd st trace = Some st' ->
      (phase st' = Postponed \/ phase st' = Returned None)
      /\ restartCount st' = 0%nat.
Proof.
    induction trace as [| [now inp] trace IH]; intros st st' Hp Hrc Hall; cbn [run].
    - intros [= <-]. auto.
    - destruct (step wgoCmd now st inp) as [st1 |] eqn:Hs; [| discriminate].
      inversion Hall as [| ? ? Hinp Hall']; subst. cbn [snd] in Hinp.
      intros Hrun.
      destruct (postponed_steps _ _ _ _ Hp Hs) as [[Hp1 Hrc1] | [Hret | [Ht _]]].
      + apply (IH st1 st'); [exact Hp1 | lia | exact Hall' | exact Hrun].
      + assert (restartCount st1 = 0%nat).
        { pose proof Hs as Hs'. unfold step in Hs'. rewrite Hp in Hs'.
          destruct inp as [| e | e | ev stat |]; try discriminate.
          - injection Hs' as <-. exact Hrc.
          - injection Hs' as <-.
            destruct (handle_event_phase wgoCmd now st ev stat) as [_ ->]. exact Hrc.
          - destruct (timer_due now st); [| discriminate]. injection Hs' as <-.
            cbn in Hret. unfold enter in Hret.
            destruct (nth_error (ArgsList wgoCmd) 0) as [[|] |]; discriminate. }
        rewrite (returned_terminal trace st1 st' None Hret Hrun). auto.
      + contradiction.
Qed.

(** X10.  With Postpone set, [Run] starts no command before the debounce timer
    has fired: from its initial state, as long as the timer channel has
    not delivered, the loop waits in pass zero or has returned nil.  And
    the timer cannot deliver before a matching file event has armed it: a
    run without such an event has no timer step at all. *)
Theorem postpone_starts_nothing (trace : list (Z * Input)) (st : RunState) :
    Postpone wgoCmd = true ->
    ArgsList wgoCmd <> [] ->
    run wgoCmd (Run_init wgoCmd) trace = Some st ->
    (Forall (fun ti => snd ti <> TimerC) trace
     \/ count_matching wgoCmd trace = 0%nat) ->
    (phase st = Postponed \/ phase st = Returned None)
    /\ restartCount st = 0%nat.
Proof.
    intros Hpost Hargs Hrun Hcase.
    assert (Hinit : phase (Run_init wgoCmd) = Postponed).
    { unfold Run_init, enter. cbn [phase].
      destruct (ArgsList wgoCmd) as [| a l]; [contradiction |].
      cbn [nth_error Nat.eqb andb]. now rewrite Hpost. }
    destruct Hcase as [Hall | Hzero].
    - exact (run_postponed trace _ _ Hinit eq_refl Hall Hrun).
    - (* no matching event: the timer never fires *)
      assert (Hgen : forall trace st0 st1,
                 phase st0 = Postponed -> restartCount st0 = 0%nat ->
                 timer st0 = None ->
                 count_matching wgoCmd trace = 0%nat ->
                 run wgoCmd st0 trace = Some st1 ->
                 (phase st1 = Postponed \/ phase st1 = Returned None)
                 /\ restartCount st1 = 0%nat).
      { clear. induction trace as [| [now inp] trace IH];
          intros st0 st1 Hp Hrc Ht Hz; cbn [run].
        - intros [= <-]. auto.
        - destruct (step wgoCmd now st0 inp) as [st2 |] eqn:Hs; [| discriminate].
          intros Hrun.
          assert (Hm : matching wgoCmd inp = false /\ count_matching wgoCmd trace = 0%nat).
          { unfold count_matching in *. cbn [filter snd] in Hz.
            destruct (matching wgoCmd inp); [discriminate | auto]. }
          destruct Hm as [Hm Hz'].
          assert (Hinv : (phase st2 = Postponed /\ restartCount st2 = 0%nat
                          /\ timer st2 = None)
                         \/ (phase st2 = Returned None /\ restartCount st2 = 0%nat)).
          { unfold step in Hs. rewrite Hp in Hs.
            destruct inp as [| e | e | ev stat |]; try discriminate.
            - injection Hs as <-. right. auto.
            - injection Hs as <-. left.
              destruct (handle_event_phase wgoCmd now st0 ev stat) as [-> ->].
              rewrite (handle_event_timer now st0 ev stat Hm). auto.
            - unfold timer_due in Hs. rewrite Ht in Hs. discriminate. }
          destruct Hinv as [(Hp2 & Hrc2 & Ht2) | (Hret & Hrc2)].
          + exact (IH st2 st1 Hp2 Hrc2 Ht2 Hz' Hrun).
          + rewrite (returned_terminal trace st2 st1 None Hret Hrun). auto. }
      exact (Hgen trace _ _ Hinit eq_refl eq_refl Hzero Hrun).
Qed.

(** X11.  [Run] returns an error only in two ways: a command could not be
    started, or Exit is set and the last command of the chain exited with
    an error.  So with Exit set the failure of an earlier command of the
    chain does not end [Run]. *)
Theorem returned_error_provenance
        (trace : list (Z * Input)) (st : RunState) (e : error) :
    run wgoCmd (Run_init wgoCmd) trace = Some st ->
    phase st = Returned (Some e) ->
    exists trace' now inp st0 i,
      trace = (trace' ++ [(now, inp)])%list
      /\ run wgoCmd (Run_init wgoCmd) trace' = Some st0
      /\ ((inp = Started (Some e) /\ phase st0 = Starting i)
          \/ (inp = CmdResult (Some e) /\ phase st0 = Running i
              /\ Exit wgoCmd = true
              /\ i = (List.length (ArgsList wgoCmd) - 1)%nat)).
Proof.
    assert (Hinit : forall err, phase (Run_init wgoCmd) <> Returned err).
    { intros err. unfold Run_init, enter. cbn [phase].
      destruct (nth_error (ArgsList wgoCmd) 0) as [[|] |];
        destruct ((0 =? 0)%nat && Postpone wgoCmd); discriminate. }
    assert (Hstep : forall now s s' inp,
               step wgoCmd now s inp = Some s' -> phase s' = Returned (Some e) ->
               exists i,
                 (inp = Started (Some e) /\ phase s = Starting i)
                 \/ (inp = CmdResult (Some e) /\ phase s = Running i
                     /\ Exit wgoCmd = true
                     /\ i = (List.length (ArgsList wgoCmd) - 1)%nat)).
    { intros now s s' inp. unfold step.
      destruct (phase s) as [| i | i | i | err | |] eqn:Hp;
        destruct inp as [| x | x | ev stat |]; try discriminate;
        try (intros [= <-]; cbn [return_ phase]; discriminate);
        try (intros [= <-];
             destruct (handle_event_phase wgoCmd now s ev stat) as [-> _];
             rewrite Hp; discriminate);
        try (destruct (timer_due now s); [| discriminate];
             intros [= <-]; unfold restart, enter; cbn [phase];
             destruct (nth_error (ArgsList wgoCmd) 0) as [[|] |]; discriminate).
      - destruct x as [x |]; intros [= <-]; cbn [return_ goto phase];
          [| discriminate].
        intros [= ->]. exists i. left. auto.
      - intros [= <-]. unfold handle_result.
        destruct (i =? List.length (ArgsList wgoCmd) - 1)%nat eqn:Hi.
        + destruct (Exit wgoCmd) eqn:Hx; cbn [return_ goto phase]; [| discriminate].
          intros [= ->]. exists i. right.
          apply Nat.eqb_eq in Hi. auto.
        + destruct x; cbn [goto phase]; [discriminate |].
          unfold enter.
          destruct (nth_error (ArgsList wgoCmd) (S i)) as [[|] |];
            destruct ((restartCount s =? 0)%nat && Postpone wgoCmd); discriminate. }
    revert st.
    induction trace as [| [now inp] trace IH] using rev_ind; intros st.
    - cbn [run]. intros [= <-] Hp. exfalso. exact (Hinit _ Hp).
    - intros Hrun Hp.
      assert (Hsplit : exists st0, run wgoCmd (Run_init wgoCmd) trace = Some st0
                                   /\ step wgoCmd now st0 inp = Some st).
      { clear - Hrun. revert Hrun. generalize (Run_init wgoCmd).
        induction trace as [| [n0 i0] trace IH]; intros s; cbn [run app].
        - destruct (step wgoCmd now s inp) as [s1 |] eqn:Hs; [| discriminate].
          intros [= <-]. eauto.
        - destruct (step wgoCmd n0 s i0) as [s1 |]; [| discriminate]. apply IH. }
      destruct Hsplit as (st0 & Hrun0 & Hs).
      destruct (Hstep _ _ _ _ Hs Hp) as [i Hi].
      exists trace, now, inp, st0, i. auto.
Qed.

(** X12.  The directories that the loop hands to [addDirsRecursively] are those
    whose creation an event reports, in order, and only when [Run] is not
    polling: with a poll duration set the loop adds no watch at all.  A
    restart keeps what was added. *)
Theorem added_dirs_of_run (trace : list (Z * Input)) (st st' : RunState) :
    run wgoCmd st trace = Some st' ->
    added st'
    = (added st ++ (if PollDuration wgoCmd =? 0
                    then created_dirs trace else []))%list.
Proof.
    revert st st'.
    induction trace as [| [now inp] trace IH]; intros st st'; cbn [run].
    - intros [= <-]. unfold created_dirs. cbn.
      destruct (PollDuration wgoCmd =? 0); now rewrite app_nil_r.
    - destruct (step wgoCmd now st inp) as [st1 |] eqn:Hs; [| discriminate].
      intros Hrun. rewrite (IH _ _ Hrun).
      assert (H1 : added st1
                   = (added st ++ (if PollDuration wgoCmd =? 0
                                   then created_dirs [(now, inp)] else []))%list).
      { clear - Hs. unfold step in Hs. unfold created_dirs. cbn [flat_map snd].
        assert (Hev : forall ev stat,
                   added (handle_event wgoCmd now st ev stat)
                   = (added st ++
                      (if PollDuration wgoCmd =? 0
                       then (match stat with
                             | Some true =>
                                 if fsnotify.Has ev fsnotify.Create
                                 then [fsnotify.Name ev] else []
                             | _ => []
                             end ++ [])%list
                       else []))%list).
        { intros ev stat. unfold handle_event.
          destruct (fsnotify.Has ev fsnotify.Create);
            destruct (fsnotify.Has ev fsnotify.Write);
            destruct stat as [[|] |];
            destruct (PollDuration wgoCmd =? 0);
            destruct (match_ wgoCmd (fsnotify.Name ev));
            cbn [negb andb app added]; rewrite ?app_nil_r; reflexivity. }
        assert (Hnil : forall A (l : list A) (b : bool),
                   l = (l ++ (if b then [] ++ [] else []))%list).
        { intros A l b. destruct b; cbn; now rewrite app_nil_r. }
        destruct (phase st) as [| i | i | i | err | |];
          destruct inp as [| e | e | ev stat |]; try discriminate;
          try (injection Hs as <-; cbn [return_ goto added]; apply Hnil);
          try (injection Hs as <-; apply Hev);
          try (destruct (timer_due now st); [| discriminate];
               injection Hs as <-; cbn [restart added]; apply Hnil).
        - destruct e; injection Hs as <-; cbn [return_ goto added]; apply Hnil.
        - injection Hs as <-. unfold handle_result.
          destruct (i =? List.length (ArgsList wgoCmd) - 1)%nat;
            [destruct (Exit wgoCmd) | destruct e];
            cbn [return_ goto added]; apply Hnil. }
      rewrite H1. unfold created_dirs. cbn [flat_map].
      destruct (PollDuration wgoCmd =? 0); rewrite <- ?app_assoc; cbn [app];
        rewrite ?app_nil_r; reflexivity.
Qed.

End TraceFacts.


(** *** Polling a file *)

Lemma pollFile_loop_events (path : string) (rounds : list (Round FileInfo)) :
  forall (old : FileInfo),
    Forall (fun e => e = fsnotify.mkEvent path fsnotify.Write)
           (pollFile_loop path old rounds)
    /\ List.length (pollFile_loop path old rounds) = changes old (stats_seen rounds).
Proof.
  induction rounds as [| r rounds IH]; intros old; [split; [constructor | reflexivity] |].
  destruct r as [| [new |]]; cbn [pollFile_loop stats_seen changes].
  - split; [constructor | reflexivity].
  - destruct (IH new) as [H1 H2].
    destruct (negb (ModTime new =? ModTime old) || negb (Size new =? Size old));
      cbn [app List.length]; split; auto.
  - apply IH.
Qed.

(** X13.  [pollFile] reports changes and nothing else.  Every event it sends is
    a Write of its own path, so the removal of the file is never reported;
    it sends one event for each poll whose modification time or size
    differs from those of the last successful poll, so a poll that fails
    does not move the baseline and a file that vanishes and comes back
    unchanged is not reported; and when the first [os.Stat] fails it sends
    nothing at all, whatever happens to the file later. *)
Theorem pollFile_reports_changes (path : string) (first : option FileInfo)
        (rounds : list (Round FileInfo)) :
  Forall (fun e => e = fsnotify.mkEvent path fsnotify.Write)
         (pollFile path first rounds)
  /\ List.length (pollFile path first rounds)
     = match first with
       | Some fileInfo => changes fileInfo (stats_seen rounds)
       | None => 0%nat
       end
  /\ (forall fileInfo failures,
         Forall (fun r => r = Polled None) failures ->
         pollFile path (Some fileInfo) (failures ++ [Polled (Some fileInfo)]) = []).
Proof.
  split; [| split].
  - destruct first as [fileInfo |]; [apply pollFile_loop_events | constructor].
  - destruct first as [fileInfo |]; [apply pollFile_loop_events | reflexivity].
  - intros fileInfo failures Hall. cbn [pollFile].
    induction failures as [| r failures IH]; cbn [app pollFile_loop].
    + rewrite !Z.eqb_refl. reflexivity.
    + inversion Hall as [| ? ? Hr Hall']; subst. exact (IH Hall').
Qed.

(** *** Polling a directory *)

Section PollFacts.
  Context {RE : RegexpPkg}.
  Variable wgoCmd : WgoCmd.

Lemma existsb_eqb_In (name : string) (l : list string) :
    existsb (String.eqb name) l = true <-> In name l.
Proof.
    rewrite existsb_exists. split.
    - intros (x & Hin & Heq). apply String.eqb_eq in Heq. now subst.
    - intros Hin. exists name. split; [exact Hin | apply String.eqb_refl].
Qed.

Lemma existsb_eqb_not_In (name : string) (l : list string) :
    existsb (String.eqb name) l = false <-> ~ In name l.
Proof.
    rewrite <- existsb_eqb_In. destruct (existsb (String.eqb name) l); split;
      congruence.
Qed.

Lemma In_track (name x : string) (l : list string) :
    In x (track name l) <-> x = name \/ In x l.
Proof.
    unfold track. destruct (existsb (String.eqb name) l) eqn:He.
    - apply existsb_eqb_In in He. split; [auto |]. intros [-> | H]; assumption.
    - rewrite in_app_iff. cbn [In]. split.
      + intros [H | [<- | []]]; auto.
      + intros [-> | H]; auto.
Qed.

(** The scan of a listing: the names of the map afterwards are those it
    held and those of the listing, and a goroutine is created for each
    entry whose name the map did not hold, at its first occurrence. *)
Lemma pollDirectory_scan_spec (path : string) (dirEntries : list (string * bool)) :
    forall (cancelFuncs : list string),
      NoDup (map fst dirEntries) ->
      (forall x, In x (fst (pollDirectory_scan path dirEntries cancelFuncs))
                 <-> In x cancelFuncs \/ In x (map fst dirEntries))
      /\ (forall p, In p (snd (pollDirectory_scan path dirEntries cancelFuncs))
                    <-> exists name isDir,
                          In (name, isDir) dirEntries
                          /\ ~ In name cancelFuncs
                          /\ p = if isDir : bool
                                 then PollDirectory (filepath.Join path name)
                                 else PollFile (filepath.Join path name)).
Proof.
    induction dirEntries as [| [name isDir] dirEntries IH]; intros cancelFuncs Hnd.
    - cbn. split; [intros x; tauto |].
      intros p. split; [tauto | intros (? & ? & [] & _)].
    - cbn [map fst] in Hnd. apply NoDup_cons_iff in Hnd. destruct Hnd as [Hfresh Hnd].
      cbn [pollDirectory_scan].
      destruct (existsb (String.eqb name) cancelFuncs) eqn:He.
      + apply existsb_eqb_In in He.
        destruct (IH cancelFuncs Hnd) as [IH1 IH2]. split.
        * intros x. rewrite IH1. cbn [map fst In]. split; [tauto |].
          intros [H | [<- | H]]; auto.
        * intros p. rewrite IH2. split.
          -- intros (n & d & Hin & Hn & ->). exists n, d. cbn [In]. auto.
          -- intros (n & d & [[= <- <-] | Hin] & Hn & ->); [contradiction |].
             exists n, d. auto.
      + apply existsb_eqb_not_In in He.
        destruct (IH (track name cancelFuncs) Hnd) as [IH1 IH2].
        destruct (pollDirectory_scan path dirEntries (track name cancelFuncs))
          as [cf ps]. cbn [fst snd] in *. split.
        * intros x. rewrite IH1, In_track. cbn [map fst In]. split.
          -- intros [[-> | H] | H]; auto.
          -- intros [H | [<- | H]]; auto.
        * intros p. cbn [In]. rewrite IH2. split.
          -- intros [<- | (n & d & Hin & Hn & ->)].
             ++ exists name, isDir. auto.
             ++ exists n, d. rewrite In_track in Hn. split; [auto |]. split; tauto.
          -- intros (n & d & [[= <- <-] | Hin] & Hn & ->); [left; reflexivity |].
             right. exists n, d. split; [exact Hin |]. split; [| reflexivity].
             rewrite In_track. intros [-> | H]; [| contradiction].
             apply Hfresh. apply (in_map fst) in Hin. exact Hin.
Qed.

Lemma pollDirectory_round_spec (path : string)
      (dirEntries : list (string * bool)) (cancelFuncs : list string) :
    NoDup (map fst dirEntries) ->
    let r := pollDirectory_round path (Some dirEntries) cancelFuncs in
    (forall name, In name (tracked r) <-> In name (map fst dirEntries))
    /\ (forall name, In name (cancelled r)
                     <-> In name cancelFuncs /\ ~ In name (map fst dirEntries))
    /\ (forall p, In p (created r)
                  <-> exists name isDir,
                        In (name, isDir) dirEntries
                        /\ ~ In name cancelFuncs
                        /\ p = if isDir : bool
                               then PollDirectory (filepath.Join path name)
                               else PollFile (filepath.Join path name)).
Proof.
    intros Hnd r. subst r. unfold pollDirectory_round.
    destruct (pollDirectory_scan_spec path dirEntries cancelFuncs Hnd) as [H1 H2].
    destruct (pollDirectory_scan path dirEntries cancelFuncs) as [cf ps].
    cbn [fst snd tracked created cancelled] in *.
    split; [| split; [| exact H2]].
    - intros name. rewrite filter_In, H1, existsb_eqb_In. tauto.
    - intros name. rewrite filter_In, H1, negb_true_iff, existsb_eqb_not_In. tauto.
Qed.

(** X14.  After a round that could list the directory, the names that
    [pollDirectory] tracks are exactly the names of the listing: a
    goroutine is created, and a Create event sent, for exactly the entries
    whose name was not tracked, and exactly the tracked names that are
    gone are cancelled and forgotten, so an entry that comes back is
    reported as created again.  A round that cannot list the directory
    changes nothing. *)
Theorem pollDirectory_tracks_listing (path : string)
        (dirEntries : list (string * bool)) (cancelFuncs : list string) :
    NoDup (map fst dirEntries) ->
    let r := pollDirectory_round path (Some dirEntries) cancelFuncs in
    (forall name, In name (tracked r) <-> In name (map fst dirEntries))
    /\ (forall name, In name (cancelled r)
                     <-> In name cancelFuncs /\ ~ In name (map fst dirEntries))
    /\ (forall p, In p (created r)
                  <-> exists name isDir,
                        In (name, isDir) dirEntries
                        /\ ~ In name cancelFuncs
                        /\ p = if isDir : bool
                               then PollDirectory (filepath.Join path name)
                               else PollFile (filepath.Join path name))
    /\ pollDirectory_round path None cancelFuncs
       = mkRoundResult cancelFuncs [] [].
Proof.
    intros Hnd r. subst r.
    destruct (pollDirectory_round_spec path dirEntries cancelFuncs Hnd)
      as (H1 & H2 & H3).
    split; [exact H1 |]. split; [exact H2 |]. split; [exact H3 | reflexivity].
Qed.

Lemma pollDirectory_start_spec (path : string) (dirEntries : list (string * bool)) :
    forall (cancelFuncs : list string),
      (forall x, In x (fst (pollDirectory_start wgoCmd path dirEntries cancelFuncs))
                 <-> In x cancelFuncs \/ In x (map fst dirEntries))
      /\ (forall p, In p (snd (pollDirectory_start wgoCmd path dirEntries cancelFuncs))
                    <-> exists name isDir,
                          In (name, isDir) dirEntries
                          /\ p = (if isDir : bool
                                  then PollDirectory (filepath.Join path name)
                                  else PollFile (filepath.Join path name))
                          /\ (isDir = true ->
                              poll_match wgoCmd (filepath.Join path name) = true)).
Proof.
    induction dirEntries as [| [name isDir] dirEntries IH]; intros cancelFuncs.
    - cbn. split; [intros x; tauto |].
      intros p. split; [tauto | intros (? & ? & [] & _)].
    - cbn [pollDirectory_start].
      destruct (IH (track name cancelFuncs)) as [IH1 IH2].
      destruct (pollDirectory_start wgoCmd path dirEntries (track name cancelFuncs))
        as [cf ps]. cbn [fst snd] in *. split.
      + intros x. rewrite IH1, In_track. cbn [map fst In]. split.
        * intros [[-> | H] | H]; auto.
        * intros [H | [<- | H]]; auto.
      + intros p. rewrite in_app_iff, IH2. split.
        * intros [Hp | (n & d & Hin & -> & Hm)].
          -- exists name, isDir. cbn [In]. split; [auto |].
             destruct isDir.
             ++ destruct (poll_match wgoCmd (filepath.Join path name)) eqn:Hm;
                  [| contradiction].
                destruct Hp as [<- | []]. auto.
             ++ destruct Hp as [<- | []]. split; [reflexivity | discriminate].
          -- exists n, d. cbn [In]. auto.
        * intros (n & d & [[= <- <-] | Hin] & -> & Hm).
          -- left. destruct isDir; [rewrite (Hm eq_refl) |]; left; reflexivity.
          -- right. exists n, d. auto.
Qed.

(** X15.  The directory filter of [pollDirectory] applies to the first listing
    only.  A directory that the filter rejects at the start (an excluded
    or hidden one, or [node_modules]) gets no goroutine while it stays;
    once it has been missing from a listing, or when it is created later,
    it is polled like any other new entry, without the filter. *)
Theorem created_directories_polled_unfiltered (path name : string)
        (first gone back : list (string * bool)) :
    In (name, true) first ->
    poll_match wgoCmd (filepath.Join path name) = false ->
    NoDup (map fst gone) -> ~ In name (map fst gone) ->
    NoDup (map fst back) -> In (name, true) back ->
    ~ In (PollDirectory (filepath.Join path name))
         (fst (pollDirectory wgoCmd path (Some first)
                 [Polled (Some gone); Polled (Some back)]))
    /\ exists first_round second_round,
         snd (pollDirectory wgoCmd path (Some first)
                [Polled (Some gone); Polled (Some back)])
         = [first_round; second_round]
         /\ In (PollDirectory (filepath.Join path name)) second_round.
Proof.
    intros Hfirst Hfilter Hnd1 Hgone Hnd2 Hback.
    unfold pollDirectory.
    destruct (pollDirectory_start_spec path first []) as [_ Hs].
    destruct (pollDirectory_start wgoCmd path first []) as [cf0 started].
    cbn [fst snd] in *. split.
    - intros Hin. apply Hs in Hin. destruct Hin as (n & d & _ & Heq & Hm).
      destruct d; [| discriminate].
      injection Heq as Heq. rewrite <- Heq in Hm. specialize (Hm eq_refl). congruence.
    - cbn [pollDirectory_loop].
      destruct (pollDirectory_round_spec path gone cf0 Hnd1) as (T1 & _ & _).
      destruct (pollDirectory_round_spec path back
                  (tracked (pollDirectory_round path (Some gone) cf0)) Hnd2)
        as (_ & _ & C2).
      eexists. eexists. split; [reflexivity |].
      apply C2. exists name, true. split; [exact Hback |].
      split; [| reflexivity]. rewrite T1. exact Hgone.
Qed.

End PollFacts.


(** *** Walking a directory *)

(** Induction on what [WalkDir] reads: a directory with its entries. *)
Lemma DirEntry_induction (P : DirEntry -> Prop) :
  (forall name, P (File name)) ->
  (forall name entries, Forall P entries -> P (Directory name entries)) ->
  forall d, P d.
Proof.
  intros HFile HDir. fix IH 1. intros [name | name entries].
  - apply HFile.
  - apply HDir. induction entries as [| d entries IHentries]; constructor.
    + apply IH.
    + exact IHentries.
Qed.

Lemma range_matches_app {RE : RegexpPkg} (rs more : list Regexp) (s : string) :
  range_matches (rs ++ more) s = range_matches rs s || range_matches more s.
Proof.
  induction rs as [| r rs IH]; [reflexivity |]. cbn [app range_matches].
  destruct (MatchString r s); [reflexivity | exact IH].
Qed.

Section WalkFacts.
  Context {RE : RegexpPkg}.
  Variable wgoCmd : WgoCmd.

(** The callback either adds the directory and goes on, or skips it. *)
Lemma visit_dir_cases (path : string) :
    visit_dir wgoCmd path = (true, WalkNil) \/ visit_dir wgoCmd path = (false, SkipDir).
Proof.
    unfold visit_dir.
    destruct (existsb (String.eqb path) (Roots wgoCmd)); [auto |].
    destruct (range_matches (ExcludeDirRegexps wgoCmd) _); [auto |].
    destruct (range_matches (DirRegexps wgoCmd) _); [auto |].
    destruct (skipped_name (filepath.Base path)); [auto |].
    destruct (HasPrefix (filepath.Base path) "."); auto.
Qed.

Lemma visit_dir_true (path : string) :
    fst (visit_dir wgoCmd path) = true <->
    In path (Roots wgoCmd)
    \/ (range_matches (ExcludeDirRegexps wgoCmd)
          (normalize_dir (Roots wgoCmd) path path) = false
        /\ (range_matches (DirRegexps wgoCmd)
              (normalize_dir (Roots wgoCmd) path path) = true
            \/ (skipped_name (filepath.Base path) = false
                /\ HasPrefix (filepath.Base path) "." = false))).
Proof.
    unfold visit_dir, filepath.ToSlash.
    destruct (existsb (String.eqb path) (Roots wgoCmd)) eqn:Hroot.
    - apply existsb_eqb_In in Hroot. cbn. tauto.
    - apply existsb_eqb_not_In in Hroot.
      destruct (range_matches (ExcludeDirRegexps wgoCmd) _);
        [cbn; split; [discriminate | intros [H | [H _]]; [contradiction | discriminate]] |].
      destruct (range_matches (DirRegexps wgoCmd) _); [cbn; tauto |].
      destruct (skipped_name (filepath.Base path));
        [cbn; split; [discriminate |];
         intros [H | [_ [H | [H _]]]]; [contradiction | discriminate | discriminate] |].
      destruct (HasPrefix (filepath.Base path) ".");
        [cbn; split; [discriminate |];
         intros [H | [_ [H | [_ H]]]]; [contradiction | discriminate | discriminate] |].
      cbn. tauto.
Qed.

Lemma walkDir_Directory (path name : string) (entries : list DirEntry) :
    walkDir wgoCmd path (Directory name entries)
    = if fst (visit_dir wgoCmd path)
      then path :: flat_map (fun d1 =>
                               walkDir wgoCmd (filepath.Join path (DirEntry_Name d1)) d1)
                            entries
      else [].
Proof.
    cbn [walkDir].
    destruct (visit_dir_cases path) as [-> | ->]; reflexivity.
Qed.

(** X16.  [addDirsRecursively] watches a directory only together with every
    directory between it and the start of the walk: at each directory,
    either the directory is added and the walk goes on into its entries,
    or nothing at or below it is added.  A directory is added when it is
    one of the roots, whatever its name and the patterns; otherwise when
    no exclude pattern matches it and either an include pattern matches
    it or its name is neither one of the skipped names nor hidden.  Files
    are never added. *)
Theorem watched_directories :
    (forall path name entries,
        walkDir wgoCmd path (Directory name entries)
        = if fst (visit_dir wgoCmd path)
          then path :: flat_map (fun d1 =>
                                   walkDir wgoCmd
                                     (filepath.Join path (DirEntry_Name d1)) d1)
                                entries
          else [])
    /\ (forall path name, walkDir wgoCmd path (File name) = [])
    /\ (forall path d q,
           In q (walkDir wgoCmd path d) ->
           In path (walkDir wgoCmd path d)
           /\ (In q (Roots wgoCmd)
               \/ (range_matches (ExcludeDirRegexps wgoCmd)
                     (normalize_dir (Roots wgoCmd) q q) = false
                   /\ (range_matches (DirRegexps wgoCmd)
                         (normalize_dir (Roots wgoCmd) q q) = true
                       \/ (skipped_name (filepath.Base q) = false
                           /\ HasPrefix (filepath.Base q) "." = false)))))
    /\ (forall path name entries,
           In path (Roots wgoCmd) ->
           In path (walkDir wgoCmd path (Directory name entries))).
Proof.
    split; [exact walkDir_Directory |]. split; [reflexivity |]. split.
    - intros path d. revert path.
      induction d as [name | name entries IH] using DirEntry_induction;
        intros path q; [intros [] |].
      rewrite walkDir_Directory.
      destruct (fst (visit_dir wgoCmd path)) eqn:Hv; [| intros []].
      intros Hin. split; [left; reflexivity |].
      destruct Hin as [<- | Hin]; [now apply visit_dir_true |].
      apply in_flat_map in Hin. destruct Hin as (d1 & Hd1 & Hq).
      rewrite Forall_forall in IH. exact (proj2 (IH d1 Hd1 _ q Hq)).
    - intros path name entries Hroot. rewrite walkDir_Directory.
      replace (fst (visit_dir wgoCmd path)) with true; [left; reflexivity |].
      symmetry. apply visit_dir_true. auto.
Qed.

End WalkFacts.

Section WalkPatterns.
  Context {RE : RegexpPkg}.

Lemma visit_dir_more_dirs (wgoCmd : WgoCmd) (more : list Regexp) (path : string) :
    fst (visit_dir wgoCmd path) = true ->
    fst (visit_dir (set_DirRegexps (DirRegexps wgoCmd ++ more)%list wgoCmd) path) = true.
Proof.
    rewrite !visit_dir_true. cbn [set_DirRegexps Roots ExcludeDirRegexps DirRegexps].
    rewrite range_matches_app.
    intros [H | [H1 [H2 | H2]]]; [auto | rewrite H2; auto | auto].
Qed.

Lemma visit_dir_fewer_excludes (wgoCmd : WgoCmd) (more : list Regexp) (path : string) :
    fst (visit_dir (set_ExcludeDirRegexps (ExcludeDirRegexps wgoCmd ++ more)%list wgoCmd)
           path) = true ->
    fst (visit_dir wgoCmd path) = true.
Proof.
    rewrite !visit_dir_true.
    cbn [set_ExcludeDirRegexps Roots ExcludeDirRegexps DirRegexps].
    rewrite range_matches_app.
    intros [H | [H1 H2]]; [auto |].
    apply orb_false_iff in H1. destruct H1 as [H1 _]. auto.
Qed.

(** Two walks of the same tree whose callbacks are ordered: what the
    first adds, the second adds. *)
Lemma walkDir_incl (c1 c2 : WgoCmd) :
    (forall path, fst (visit_dir c1 path) = true -> fst (visit_dir c2 path) = true) ->
    forall d path, incl (walkDir c1 path d) (walkDir c2 path d).
Proof.
    intros Hle.
    induction d as [name | name entries IH] using DirEntry_induction; intros path.
    - intros q [].
    - rewrite !walkDir_Directory.
      destruct (fst (visit_dir c1 path)) eqn:Hv; [| intros q []].
      rewrite (Hle path Hv).
      intros q [<- | Hin]; [left; reflexivity |]. right.
      apply in_flat_map in Hin. destruct Hin as (d1 & Hd1 & Hq).
      apply in_flat_map. exists d1. split; [exact Hd1 |].
      rewrite Forall_forall in IH. exact (IH d1 Hd1 _ q Hq).
Qed.

(** X17.  The directory patterns move the watched set one way only: more
    include patterns never remove a directory from what
    [addDirsRecursively] watches (they rescue hidden and skipped
    directories, and do not restrict the walk to the directories they
    match), and more exclude patterns never add one. *)
Theorem dir_patterns_are_monotone (wgoCmd : WgoCmd) (more : list Regexp)
        (dir : string) (root : option DirEntry) :
    incl (addDirsRecursively wgoCmd dir root)
         (addDirsRecursively
            (set_DirRegexps (DirRegexps wgoCmd ++ more)%list wgoCmd) dir root)
    /\ incl (addDirsRecursively
               (set_ExcludeDirRegexps (ExcludeDirRegexps wgoCmd ++ more)%list wgoCmd)
               dir root)
            (addDirsRecursively wgoCmd dir root).
Proof.
    destruct root as [d |]; [| split; intros q []].
    cbn [addDirsRecursively]. split.
    - apply walkDir_incl. intros path. apply visit_dir_more_dirs.
    - apply walkDir_incl. intros path. apply visit_dir_fewer_excludes.
Qed.

End WalkPatterns.


(** *** The last element of a path *)

Lemma strip_trailing_id (fuel : nat) (path : string) :
  last_byte path <> Some filepath.Separator ->
  filepath.strip_trailing fuel path = path.
Proof.
  intros H. destruct fuel as [| fuel]; [reflexivity |]. cbn [filepath.strip_trailing].
  destruct (last_byte path) as [c |]; [| reflexivity].
  unfold filepath.IsPathSeparator.
  destruct (Ascii.eqb_spec c filepath.Separator) as [-> | _]; [congruence | reflexivity].
Qed.

Lemma HasSuffix_sep (path : string) :
  HasSuffix path "/" = false -> last_byte path <> Some filepath.Separator.
Proof.
  intros H Hl. unfold HasSuffix in H.
  pose proof (drop_last path _ Hl) as Hd.
  change (len "/") with 1%nat in H. rewrite Hd in H.
  destruct path as [| c path]; [discriminate Hl |].
  rewrite len_cons in H. cbn in H. discriminate.
Qed.

Lemma after_last_sep_app (a b : string) :
  forall (i acc : nat),
    filepath.after_last_sep (a ++ b) i acc
    = filepath.after_last_sep b (i + len a) (filepath.after_last_sep a i acc).
Proof.
  induction a as [| c a IH]; intros i acc.
  - cbn. now rewrite Nat.add_0_r.
  - cbn [append filepath.after_last_sep]. rewrite IH, len_cons.
    now replace (S i + len a)%nat with (i + S (len a))%nat by lia.
Qed.

Lemma after_last_sep_shift (b : string) :
  forall (i acc : nat),
    filepath.after_last_sep b i acc
    = if mem filepath.Separator b
      then (i + filepath.after_last_sep b 0 0)%nat
      else acc.
Proof.
  induction b as [| c b IH]; intros i acc; [reflexivity |].
  cbn [filepath.after_last_sep mem]. unfold filepath.IsPathSeparator.
  rewrite (IH (S i)), (IH 1%nat).
  destruct (Ascii.eqb c filepath.Separator); cbn [orb];
    destruct (mem filepath.Separator b); lia.
Qed.

Lemma after_last_sep_le (b : string) :
  (filepath.after_last_sep b 0 0 <= len b)%nat.
Proof.
  assert (H : forall i acc, (acc <= i)%nat ->
                (filepath.after_last_sep b i acc <= i + len b)%nat).
  { induction b as [| c b IH]; intros i acc Hle; [cbn; lia |].
    cbn [filepath.after_last_sep]. rewrite len_cons.
    destruct (filepath.IsPathSeparator c).
    - specialize (IH (S i) (S i) (le_n _)). lia.
    - specialize (IH (S i) acc ltac:(lia)). lia. }
  exact (H 0%nat 0%nat (le_n _)).
Qed.

(** Below a directory prefix, the last element of a path is the last
    element of the rest. *)
Lemma last_element_app (root rel : string) :
  drop (filepath.after_last_sep ((root ++ "/") ++ rel) 0 0) ((root ++ "/") ++ rel)
  = drop (filepath.after_last_sep rel 0 0) rel.
Proof.
  rewrite after_last_sep_app. cbn [Nat.add].
  assert (Hr : filepath.after_last_sep (root ++ "/") 0 0 = len (root ++ "/")).
  { rewrite after_last_sep_app. cbn. rewrite len_append. cbn. lia. }
  rewrite Hr, after_last_sep_shift.
  destruct (mem filepath.Separator rel) eqn:Hm.
  - rewrite <- drop_drop. now rewrite drop_append.
  - rewrite drop_append.
    rewrite (after_last_sep_shift rel 0 0), Hm. reflexivity.
Qed.

Lemma last_element_nonempty (path : string) :
  path <> EmptyString -> last_byte path <> Some filepath.Separator ->
  drop (filepath.after_last_sep path 0 0) path <> EmptyString.
Proof.
  intros Hne Hl.
  assert (H : forall s i acc,
             s <> EmptyString -> last_byte s <> Some filepath.Separator ->
             (acc <= i)%nat ->
             (filepath.after_last_sep s i acc < i + len s)%nat).
  { induction s as [| c s IH]; intros i acc Hs Hls Hle; [contradiction |].
    cbn [filepath.after_last_sep]. rewrite len_cons.
    destruct s as [| d s].
    - cbn. cbn in Hls. unfold filepath.IsPathSeparator.
      destruct (Ascii.eqb_spec c filepath.Separator) as [-> | _]; [congruence | lia].
    - assert (Hls' : last_byte (String d s) <> Some filepath.Separator) by exact Hls.
      destruct (filepath.IsPathSeparator c).
      + specialize (IH (S i) (S i) ltac:(discriminate) Hls' (le_n _)). lia.
      + specialize (IH (S i) acc ltac:(discriminate) Hls' ltac:(lia)). lia. }
  specialize (H path 0%nat 0%nat Hne Hl (le_n _)). cbn in H.
  intros Hd. apply (f_equal len) in Hd. rewrite len_drop in Hd. cbn in Hd. lia.
Qed.

Lemma Base_last_element (path : string) :
  path <> EmptyString -> last_byte path <> Some filepath.Separator ->
  filepath.Base path = drop (filepath.after_last_sep path 0 0) path.
Proof.
  intros Hne Hl. unfold filepath.Base.
  destruct (String.eqb_spec path EmptyString) as [-> | _]; [contradiction |].
  rewrite (strip_trailing_id _ _ Hl).
  pose proof (last_element_nonempty path Hne Hl) as Hd.
  destruct (String.eqb_spec (drop (filepath.after_last_sep path 0 0) path) EmptyString);
    [contradiction | reflexivity].
Qed.

Section FilterFacts.
  Context {RE : RegexpPkg}.
  Variable wgoCmd : WgoCmd.

(** Making a directory relative to its root keeps its last element. *)
Lemma Base_normalize_dir (roots : list string) (dir : string) :
    HasSuffix dir "/" = false ->
    filepath.Base (normalize_dir roots dir dir) = filepath.Base dir.
Proof.
    intros Hs. pose proof (HasSuffix_sep dir Hs) as Hl.
    induction roots as [| root roots IH]; [reflexivity |].
    cbn [normalize_dir]. change (String filepath.Separator "") with "/".
    destruct (HasPrefix dir (root ++ "/")) eqn:Hp; [| exact IH].
    unfold filepath.ToSlash, TrimPrefix. rewrite Hp.
    pose proof (HasPrefix_split dir (root ++ "/") Hp) as Hdir.
    remember (drop (len (root ++ "/")) dir) as rel eqn:Erel.
    assert (Hrel : rel <> EmptyString).
    { intros Hrel. rewrite Hrel, append_nil_r in Hdir.
      apply Hl. rewrite Hdir. apply last_byte_snoc. }
    assert (Hlrel : last_byte rel <> Some filepath.Separator).
    { intros H. apply Hl. rewrite Hdir. now rewrite last_byte_app. }
    assert (Hne : dir <> EmptyString) by (intros ->; destruct root; discriminate).
    rewrite (Base_last_element rel Hrel Hlrel), (Base_last_element dir Hne Hl).
    pose proof (last_element_app root rel) as Hlast.
    rewrite <- Hdir in Hlast. symmetry. exact Hlast.
Qed.

(** X18.  Watching and polling pick the same directories at the start: on a
    directory that is not itself a root, the filter that [pollDirectory]
    applies to its first listing accepts exactly the directories that the
    walk of [addDirsRecursively] adds to the watcher. *)
Theorem watch_and_poll_filters_agree (dir : string) :
    ~ In dir (Roots wgoCmd) ->
    HasSuffix dir "/" = false ->
    poll_match wgoCmd dir = fst (visit_dir wgoCmd dir).
Proof.
    intros Hroot Hs. unfold poll_match, visit_dir, filepath.ToSlash.
    apply existsb_eqb_not_In in Hroot. rewrite Hroot.
    rewrite (Base_normalize_dir (Roots wgoCmd) dir Hs).
    destruct (range_matches (ExcludeDirRegexps wgoCmd) _); [reflexivity |].
    destruct (range_matches (DirRegexps wgoCmd) _); [reflexivity |].
    destruct (skipped_name (filepath.Base dir)); [reflexivity |].
    destruct (HasPrefix (filepath.Base dir) "."); reflexivity.
Qed.

End FilterFacts.


(** *** The theorems on examples *)

Section MoreExamples.
  Existing Instance SimpleRegexp.pkg.

(** While [go build] runs, a chmod of a file and the failure of the
    build restart nothing. *)
Lemma restarts_bounded_by_matching_events_witness :
  let st := mkRunState (Running 0) 0 None [] in
  let st' := mkRunState (Suspended 0) 0 None [] in
  let trace :=
    [(100, FsEvent (fsnotify.mkEvent "/home/user/project/main.go" fsnotify.Chmod)
                   (Some false));
     (200, CmdResult (Some (ErrExit 1)))] in
  (restartCount st <= restartCount st'
   <= restartCount st + count_matching Sample.cmd trace)%nat
  /\ (count_matching Sample.cmd trace = 0%nat ->
      restartCount st' = restartCount st /\ timer st' = None).
Proof.
  intros st st' trace.
  apply (restarts_bounded_by_matching_events Sample.cmd st st' trace);
    vm_compute; reflexivity.
Defined.

(** [wgo -postpone go build :: ./out]: a new directory and a chmod leave
    the loop waiting in pass zero. *)
Lemma postpone_starts_nothing_witness :
  let cmd := set_Postpone true Sample.cmd in
  let st := mkRunState Postponed 0 None ["/home/user/project/docs"] in
  (phase st = Postponed \/ phase st = Returned None) /\ restartCount st = 0%nat.
Proof.
  intros cmd st.
  apply (postpone_starts_nothing cmd
           [(100, FsEvent (fsnotify.mkEvent "/home/user/project/docs" fsnotify.Create)
                          (Some true));
            (200, FsEvent (fsnotify.mkEvent "/home/user/project/main.go" fsnotify.Chmod)
                          (Some false))] st).
  - reflexivity.
  - discriminate.
  - vm_compute. reflexivity.
  - right. vm_compute. reflexivity.
Defined.

(** [wgo -exit go build :: ./out]: [Run] returns the status of [./out]. *)
Lemma returned_error_provenance_witness :
  let cmd := set_Exit true Sample.cmd in
  let trace :=
    [(0, Started None); (100, CmdResult None);
     (100, Started None); (200, CmdResult (Some (ErrExit 2)))] in
  exists trace' now inp st0 i,
    trace = (trace' ++ [(now, inp)])%list
    /\ run cmd (Run_init cmd) trace' = Some st0
    /\ ((inp = Started (Some (ErrExit 2)) /\ phase st0 = Starting i)
        \/ (inp = CmdResult (Some (ErrExit 2)) /\ phase st0 = Running i
            /\ Exit cmd = true
            /\ i = (List.length (ArgsList cmd) - 1)%nat)).
Proof.
  intros cmd trace.
  apply (returned_error_provenance cmd trace
           (mkRunState (Returned (Some (ErrExit 2))) 0 None []) (ErrExit 2));
    vm_compute; reflexivity.
Defined.

(** A directory created while [go build] runs is handed to
    [addDirsRecursively]; a file is not. *)
Lemma added_dirs_of_run_witness :
  let st := mkRunState (Running 0) 0 None [] in
  let trace :=
    [(100, FsEvent (fsnotify.mkEvent "/home/user/project/docs" fsnotify.Create)
                   (Some true));
     (200, FsEvent (fsnotify.mkEvent "/home/user/project/docs/a.md" fsnotify.Create)
                   (Some false))] in
  added (mkRunState (Running 0) 0 (Some (200 + 300 * Millisecond))
                    ["/home/user/project/docs"])
  = (added st ++ (if PollDuration Sample.cmd =? 0
                  then created_dirs trace else []))%list.
Proof.
  intros st trace.
  apply (added_dirs_of_run Sample.cmd trace st). vm_compute. reflexivity.
Defined.


(** [wgo echo -verbose -file x]: the flags belong to [echo]. *)
Lemma command_tokens_are_not_flags_witness :
  WgoCommand Sample.host 1 ["echo"; "-verbose"; "-file"; "x"]
  = Ok (mkWgoCmd ["/home/user/project"] [] [] [] [] defaultLogger
          [["echo"; "-verbose"; "-file"; "x"]] [] EmptyString
          false false (300 * Millisecond) false 0 false EmptyString).
Proof.
  refine (proj1 (command_tokens_are_not_flags Sample.host 1 "echo"
                   ["-verbose"; "-file"; "x"] "/home/user/project"
                   (300 * Millisecond) eq_refl eq_refl _ (or_introl eq_refl))).
  discriminate.
Defined.

(** What [regexp.Compile] makes of a pattern, for the examples. *)
Lemma pattern_flags_in_order_witness :
  let compiled := fun p =>
    match SimpleRegexp.Compile (compileRegexp_text p) with
    | Some r => r
    | None => SimpleRegexp.Eps
    end in
  WgoCommand Sample.host 1
    ["-file"; ".go"; "-xdir"; "vendor"; "-file"; ".html"; "go"; "build"]
  = Ok (mkWgoCmd ["/home/user/project"]
          [compiled ".go"; compiled ".html"] [] [] [compiled "vendor"]
          defaultLogger [["go"; "build"]] [] EmptyString
          false false (300 * Millisecond) false 0 false EmptyString).
Proof.
  intros compiled.
  refine (proj1 (pattern_flags_in_order Sample.host 1 compiled
                   [("file", ".go"); ("xdir", "vendor"); ("file", ".html")]
                   "go" ["build"] "/home/user/project" (300 * Millisecond)
                   eq_refl eq_refl _ (or_introl eq_refl) _)).
  - discriminate.
  - repeat (apply Forall_cons;
            [split; [cbn; tauto | vm_compute; reflexivity] |]).
    apply Forall_nil.
Defined.

(** Two spellings of a command with a blank are told apart. *)
Lemma posix_joinArgs_injective_witness :
  Unix.joinArgs ["echo"; "it's"; ""] = "echo it\'s ''"
  /\ ["echo"; "it's"; ""] = ["echo"; "it's"; ""].
Proof.
  split; [reflexivity |].
  apply posix_joinArgs_injective. reflexivity.
Defined.

Lemma plain_words_pass_unquoted_witness :
  Unix.joinArgs ["go"; "build"; "-o"; "./bin/app"; "main.go"]
  = String.concat " " ["go"; "build"; "-o"; "./bin/app"; "main.go"]
  /\ Windows.joinArgs ["go"; "build"; "-o"; "./bin/app"; "main.go"]
     = String.concat " " ["go"; "build"; "-o"; "./bin/app"; "main.go"].
Proof.
  apply plain_words_pass_unquoted. reflexivity.
Defined.

(** A round of [pollDirectory] in which [b.go] is new and [a.go] is gone. *)
Lemma pollDirectory_tracks_listing_witness :
  let r := pollDirectory_round "/home/user/project"
             (Some [("b.go", false); ("docs", true)]) ["a.go"; "docs"] in
  (forall name, In name (tracked r) <-> In name (map fst [("b.go", false); ("docs", true)]))
  /\ (forall name, In name (cancelled r)
                   <-> In name ["a.go"; "docs"]
                       /\ ~ In name (map fst [("b.go", false); ("docs", true)]))
  /\ (forall p, In p (created r)
                <-> exists name isDir,
                      In (name, isDir) [("b.go", false); ("docs", true)]
                      /\ ~ In name ["a.go"; "docs"]
                      /\ p = if isDir : bool
                             then PollDirectory (filepath.Join "/home/user/project" name)
                             else PollFile (filepath.Join "/home/user/project" name))
  /\ pollDirectory_round "/home/user/project" None ["a.go"; "docs"]
     = mkRoundResult ["a.go"; "docs"] [] [].
Proof.
  apply (pollDirectory_tracks_listing "/home/user/project"
           [("b.go", false); ("docs", true)] ["a.go"; "docs"]).
  repeat constructor; cbn; intuition discriminate.
Defined.

(** [node_modules] is not polled at the start, and is polled once it has
    been removed and installed again. *)
Lemma created_directories_polled_unfiltered_witness :
  poll_match Sample.cmd "/home/user/project/node_modules" = false
  /\ ~ In (PollDirectory (filepath.Join "/home/user/project" "node_modules"))
          (fst (pollDirectory Sample.cmd "/home/user/project"
                  (Some [("main.go", false); ("node_modules", true)])
                  [Polled (Some [("main.go", false)]);
                   Polled (Some [("main.go", false); ("node_modules", true)])]))
  /\ exists first_round second_round,
       snd (pollDirectory Sample.cmd "/home/user/project"
              (Some [("main.go", false); ("node_modules", true)])
              [Polled (Some [("main.go", false)]);
               Polled (Some [("main.go", false); ("node_modules", true)])])
       = [first_round; second_round]
       /\ In (PollDirectory (filepath.Join "/home/user/project" "node_modules"))
             second_round.
Proof.
  split; [vm_compute; reflexivity |].
  apply (created_directories_polled_unfiltered Sample.cmd "/home/user/project"
           "node_modules"
           [("main.go", false); ("node_modules", true)]
           [("main.go", false)]
           [("main.go", false); ("node_modules", true)]).
  - cbn. auto.
  - vm_compute. reflexivity.
  - repeat constructor; cbn; intuition discriminate.
  - cbn. intuition discriminate.
  - repeat constructor; cbn; intuition discriminate.
  - cbn. auto.
Defined.

(** The two filters on a hidden directory and on an ordinary one. *)
Lemma watch_and_poll_filters_agree_witness :
  poll_match Sample.cmd "/home/user/project/.cache"
  = fst (visit_dir Sample.cmd "/home/user/project/.cache")
  /\ poll_match Sample.cmd "/home/user/project/.cache" = false
  /\ poll_match Sample.cmd "/home/user/project/cmd" = true.
Proof.
  split; [| split; vm_compute; reflexivity].
  apply (watch_and_poll_filters_agree Sample.cmd "/home/user/project/.cache").
  - cbn. intuition discriminate.
  - reflexivity.
Defined.

(** [wgo run -race -tags fts5 -a main.go arg]: [-a] comes before [-race]
    in the build argv, after the string flag. *)
Lemma build_flags_pass_through_witness :
  (exists cmd argv1 more,
      WgoCommand Sample.host 1
        ("run" :: build_flag_args [BoolFlag "race"; StrFlag "tags" "fts5"; BoolFlag "a"]
           ++ "main.go" :: ["arg"])%list
      = Ok cmd
      /\ ArgsList cmd
         = ((["go"; "build"; "-o"; executablePath cmd]
               ++ str_flag_args [BoolFlag "race"; StrFlag "tags" "fts5"; BoolFlag "a"]
               ++ bool_flag_args [BoolFlag "race"; StrFlag "tags" "fts5"; BoolFlag "a"]
               ++ ["main.go"])
              :: (executablePath cmd :: argv1) :: more)%list)
  /\ option_map ArgsList
       (match WgoCommand Sample.host 1
                ["run"; "-race"; "-tags"; "fts5"; "-a"; "main.go"; "arg"] with
        | Ok cmd => Some cmd
        | Err _ => None
        end)
     = Some [["go"; "build"; "-o"; Sample.exe; "-tags"; "fts5"; "-a"; "-race"; "main.go"];
             [Sample.exe; "arg"]].
Proof.
  split; [| vm_compute; reflexivity].
  apply (build_flags_pass_through Sample.host 1
           [BoolFlag "race"; StrFlag "tags" "fts5"; BoolFlag "a"]
           "main.go" ["arg"] "/home/user/project" (300 * Millisecond)).
  - reflexivity.
  - reflexivity.
  - repeat constructor; cbn; tauto.
  - left. reflexivity.
Defined.

(** [wgo echo a :: wgo -verbose echo b]: two instances, the second with
    the logger of number 2. *)
Lemma instances_parsed_separately_witness :
  WgoCommands Sample.host ("wgo" :: ["echo"; "a"] ++ "::" :: "wgo" :: ["-verbose"; "echo"; "b"])%list
  = match WgoCommand Sample.host 1 ["echo"; "a"] with
    | Err e => Err (ErrWgo 1 e)
    | Ok wgoCmd1 =>
        match WgoCommand Sample.host 2 ["-verbose"; "echo"; "b"] with
        | Err e => Err (ErrWgo 2 e)
        | Ok wgoCmd2 => Ok [wgoCmd1; wgoCmd2]
        end
    end.
Proof.
  apply (proj2 (instances_parsed_separately Sample.host "wgo"
                  ["echo"; "a"] ["-verbose"; "echo"; "b"] eq_refl eq_refl)).
  discriminate.
Defined.

(** A pattern with its dot escaped, and one with a leading dot-slash. *)
Lemma escaped_dots_are_kept_witness :
  compileRegexp_text "\.(go|html)$" = "\.(go|html)$"
  /\ compileRegexp_text "./cmd/main\.go" = "cmd/main\.go".
Proof.
  split.
  - apply (escaped_dots_are_kept "\.(go|html)$"); reflexivity.
  - apply (escaped_dots_are_kept "./cmd/main\.go"); reflexivity.
Defined.

End MoreExamples.
